(** * php_serialize_edit: the PHP value codec and its query engine

    A shallow embedding of [src/pse/php_serialize_edit.py]: the byte cursor
    ([Parser]), the decoder ([PHPUnserializer]), the encoder
    ([PHPSerializer]) and the query engine ([Query]), followed by the
    properties of the specification that are stated about them.

    Python values are embedded as the inductive type [value]; Python
    exceptions as the type [exn]; a method of a parser object is a function
    from the parser state to a result and the next state.

    What belongs to the Python runtime and not to the module is embedded
    as follows: integers are unbounded ([Z]) and the optional limit of the
    interpreter on the number of digits of [int()] and [str()] is left
    out; floats are binary64 numbers, and their conversions from and to
    text are parameters of the codec; the recursion limit of the
    interpreter is left out, the recursive methods taking a bound (fuel)
    that is proved never to be exhausted at the entry points. *)

From Stdlib Require Import String Strings.Byte.
From Stdlib Require Import List ZArith Lia Bool Arith.
From Stdlib Require Import Floats.SpecFloat.
Import ListNotations.

Local Open Scope Z_scope.
Local Open Scope list_scope.

Set Implicit Arguments.
Set Warnings "-register-all".

(* ================================================================== *)
(** ** Bytes *)

Definition bytes := list byte.

(** A [bytes] literal. *)
Definition B (s : string) : bytes := list_byte_of_string s.

(** A [bytes] literal in which the apostrophe stands for the double quote
    (so that wire-format samples can be written inside a string). *)
Definition BQ (s : string) : bytes :=
  map (fun b => if Byte.eqb b x27 then x22 else b) (list_byte_of_string s).

Fixpoint bytes_eqb (a b : bytes) : bool :=
  match a, b with
  | [], [] => true
  | x :: a', y :: b' => Byte.eqb x y && bytes_eqb a' b'
  | _, _ => false
  end.

(** Python orders [bytes] objects lexicographically, byte by byte. *)
Fixpoint bytes_leb (a b : bytes) : bool :=
  match a, b with
  | [], _ => true
  | _ :: _, [] => false
  | x :: a', y :: b' =>
      if (Byte.to_N x <? Byte.to_N y)%N then true
      else if Byte.eqb x y then bytes_leb a' b'
      else false
  end.

(** [data[start:stop]] for [0 <= start]: a negative [stop] counts from the
    end, and both bounds are clipped to the length. *)
Definition slice (data : bytes) (start : nat) (stop : Z) : bytes :=
  let len := Z.of_nat (length data) in
  let stop' := if stop <? 0 then Z.max 0 (stop + len) else Z.min stop len in
  firstn (Z.to_nat stop' - start) (skipn start data).

Fixpoint is_prefix (pre s : bytes) : bool :=
  match pre, s with
  | [], _ => true
  | _ :: _, [] => false
  | x :: pre', y :: s' => Byte.eqb x y && is_prefix pre' s'
  end.

(** [s.find(sub)]: the index of the first occurrence of [sub] in [s]. *)
Fixpoint bytes_find (sub s : bytes) : option nat :=
  if is_prefix sub s then Some O
  else match s with
       | [] => None
       | _ :: s' => option_map S (bytes_find sub s')
       end.

(* ================================================================== *)
(** ** Constants of the module *)

Definition PHP_STRING : bytes := Eval cbv in B "s".
Definition PHP_INT : bytes := Eval cbv in B "i".
Definition PHP_BOOL : bytes := Eval cbv in B "b".
Definition PHP_NULL : bytes := Eval cbv in B "N".
Definition PHP_ARRAY : bytes := Eval cbv in B "a".
Definition PHP_OBJECT : bytes := Eval cbv in B "O".
Definition PHP_DECIMAL : bytes := Eval cbv in B "d".
Definition PHP_FIELD_SEPARATOR : bytes := Eval cbv in B ":".
Definition PHP_END_VALUE : bytes := Eval cbv in B ";".
Definition PHP_START_ARRAY : bytes := Eval cbv in B "{".
Definition PHP_END_ARRAY : bytes := Eval cbv in B "}".
Definition PHP_STRING_DELIMITER : bytes := [x22].

Definition MINUS : bytes := Eval cbv in B "-".
Definition DIGIT_NINE : bytes := Eval cbv in B "9".
Definition DIGIT_ZERO : bytes := Eval cbv in B "0".
Definition DECIMAL_DOT : bytes := Eval cbv in B ".".
Definition EMPTY : bytes := [].

Definition QUERY_START_STRING : bytes := [x22].
Definition QUERY_END_STRING : bytes := [x22].
Definition QUERY_ESCAPE : bytes := Eval cbv in B "\".
Definition QUERY_EQUAL : bytes := Eval cbv in B "=".
Definition QUERY_PATH_SEPARATOR : bytes := Eval cbv in B "/".
Definition QUERY_GET : bytes := Eval cbv in B "G".
Definition QUERY_SET : bytes := Eval cbv in B "S".
Definition QUERY_DELETE : bytes := Eval cbv in B "D".
Definition QUERY_COMMAND_SEPARATOR : bytes := Eval cbv in B ":".
Definition QUERY_START_ARRAY : bytes := Eval cbv in B "[".
Definition QUERY_END_ARRAY : bytes := Eval cbv in B "]".
Definition QUERY_START_OBJECT : bytes := Eval cbv in B "{".
Definition QUERY_END_OBJECT : bytes := Eval cbv in B "}".
Definition QUERY_KEY_VALUE_SEPARATOR : bytes := Eval cbv in B ":".
Definition QUERY_ITEM_SEPARATOR : bytes := Eval cbv in B ",".
Definition QUERY_TRUE : bytes := Eval cbv in B "true".
Definition QUERY_FALSE : bytes := Eval cbv in B "false".
Definition QUERY_NULL : bytes := Eval cbv in B "null".

(** [is_valid_int_start]: a digit or the minus sign.  The argument is the
    [bytes] object returned by [chunk()], of length 0 or 1. *)
Definition is_valid_int_start (data : bytes) : bool :=
  (bytes_leb DIGIT_ZERO data && bytes_leb data DIGIT_NINE)
  || bytes_eqb data MINUS.

(* ================================================================== *)
(** ** Python values

    The values the module handles: [None], [bool], [int], [float], [bytes],
    a [list] of 2-tuples (a PHP array) and a 2-tuple of a [bytes] and such
    a list (a PHP object, see [is_object]).  [PyStr] stands for a host
    value of another type (a [str]), which the decoder never produces. *)

Inductive value : Type :=
| PyNone
| PyBool (b : bool)
| PyInt (n : Z)
| PyFloat (f : spec_float)
| PyBytes (s : bytes)
| PyList (items : list (value * value))
| PyObject (class_name : bytes) (properties : list (value * value))
| PyStr (s : string).

(** [is_object]: a 2-tuple of a [bytes] and a [list]. *)
Definition is_object (data : value) : bool :=
  match data with
  | PyObject _ _ => true
  | _ => false
  end.

(* ================================================================== *)
(** ** Exceptions and results *)

(** The text of a [ParseError]; the f-strings of the source keep their
    arguments. *)
Inductive message : Type :=
| NotEnoughBytes (expected : bytes)
| ExpectedBut (expected chunk : bytes)
| UnknownType (php_type : bytes)
| UnknownCommand (command_id : bytes)
| Text (s : string).

Inductive exn : Type :=
| ParseError (position : nat) (msg : message)
| SerializeError (data : value)
| ValueError (msg : string).

(** The outcome of a call: a value, a raised exception, or [OutOfFuel] when
    the recursion bound of the embedding is exhausted. *)
Inductive result (A : Type) : Type :=
| Ok (a : A)
| Raise (e : exn)
| OutOfFuel.

Arguments Ok {A} a.
Arguments Raise {A} e.
Arguments OutOfFuel {A}.

Definition bind {A C : Type} (r : result A) (k : A -> result C) : result C :=
  match r with
  | Ok a => k a
  | Raise e => Raise e
  | OutOfFuel => OutOfFuel
  end.

Notation "x <-- r ;; k" := (bind r (fun x => k))
  (at level 61, r at next level, right associativity).

(** [mapM f l]: the list comprehension [[f(x) for x in l]], stopping at the
    first exception. *)
Fixpoint mapM {A C : Type} (f : A -> result C) (l : list A) : result (list C) :=
  match l with
  | [] => Ok []
  | x :: l' => y <-- f x ;; ys <-- mapM f l' ;; Ok (y :: ys)
  end.

(* ================================================================== *)
(** ** The built-in conversions [int(bytes)] and [str(int)] *)

Definition is_digit (b : byte) : bool :=
  ((48 <=? Byte.to_N b) && (Byte.to_N b <=? 57))%N.

Definition digit_val (b : byte) : Z := Z.of_N (Byte.to_N b) - 48.

Definition digit_byte (d : Z) : byte :=
  match d with
  | 0 => x30 | 1 => x31 | 2 => x32 | 3 => x33 | 4 => x34
  | 5 => x35 | 6 => x36 | 7 => x37 | 8 => x38 | _ => x39
  end.

(** ASCII white space, which [int()] strips on both sides. *)
Definition is_space (b : byte) : bool :=
  match b with
  | x20 | x09 | x0a | x0b | x0c | x0d => true
  | _ => false
  end.

Fixpoint lstrip (s : bytes) : bytes :=
  match s with
  | [] => []
  | b :: s' => if is_space b then lstrip s' else s
  end.

Fixpoint rstrip (s : bytes) : bytes :=
  match s with
  | [] => []
  | b :: s' =>
      match rstrip s' with
      | [] => if is_space b then [] else [b]
      | r => b :: r
      end
  end.

(** The digits of a decimal literal, read left to right; a single
    underscore may separate two digits. *)
Fixpoint digits_value (acc : Z) (after_digit : bool) (s : bytes) : option Z :=
  match s with
  | [] => if after_digit then Some acc else None
  | b :: s' =>
      if is_digit b then digits_value (10 * acc + digit_val b) true s'
      else if Byte.eqb b x5f
           then (if after_digit then digits_value acc false s' else None)
           else None
  end.

(** [int(s)] for a [bytes] object [s], base 10: white space around, an
    optional sign, digits; [None] is [ValueError]. *)
Definition int_of_bytes (s : bytes) : option Z :=
  match rstrip (lstrip s) with
  | [] => None
  | b :: t =>
      if Byte.eqb b x2d then option_map Z.opp (digits_value 0 false t)
      else if Byte.eqb b x2b then digits_value 0 false t
      else digits_value 0 false (b :: t)
  end.

Fixpoint digits_fuel (fuel : nat) (n : Z) : bytes :=
  match fuel with
  | O => []
  | S fuel' =>
      (if n <? 10 then [] else digits_fuel fuel' (n / 10))
        ++ [digit_byte (n mod 10)]
  end.

(** The decimal digits of [n >= 0]. *)
Definition digits (n : Z) : bytes :=
  digits_fuel (S (Z.to_nat (Z.log2 n))) n.

(** [bytes(str(n), "utf-8")] for an [int] [n]. *)
Definition str_of_int (n : Z) : bytes :=
  if n <? 0 then MINUS ++ digits (- n) else digits n.

Definition int (s : bytes) : result Z :=
  match int_of_bytes s with
  | Some n => Ok n
  | None => Raise (ValueError "invalid literal for int() with base 10")
  end.

(* ================================================================== *)
(** ** class Parser: the byte cursor *)

Record Parser : Type := mkParser {
  data : bytes;      (* stream to read *)
  current : nat      (* current position in the stream *)
}.

(** A method of a parser object: it reads the state and returns a value and
    the next state, or raises. *)
Definition M (A : Type) : Type := Parser -> result (A * Parser).

Definition ret {A : Type} (a : A) : M A := fun p => Ok (a, p).

Definition raise {A : Type} (e : exn) : M A := fun _ => Raise e.

Definition pbind {A C : Type} (m : M A) (k : A -> M C) : M C :=
  fun p => match m p with
           | Ok (a, p') => k a p'
           | Raise e => Raise e
           | OutOfFuel => OutOfFuel
           end.

Notation "x <- m ;; k" := (pbind m (fun x => k))
  (at level 61, m at next level, right associativity).
Notation "m ;;; k" := (pbind m (fun _ => k))
  (at level 61, right associativity).

(** A pure call that may raise, inside a method. *)
Definition lift {A : Type} (r : result A) : M A :=
  fun p => match r with
           | Ok a => Ok (a, p)
           | Raise e => Raise e
           | OutOfFuel => OutOfFuel
           end.

(** [Parser(data)] / [reset(data)]. *)
Definition reset (d : bytes) : Parser := mkParser d 0.

Definition end_of_data (p : Parser) : bool :=
  (length (data p) <=? current p)%nat.

Definition next_byte (increment : nat) (p : Parser) : Parser :=
  mkParser (data p) (current p + increment).

(** [chunk(length)]: [data[current:current+length]], position unchanged. *)
Definition chunk (len : Z) (p : Parser) : bytes :=
  slice (data p) (current p) (Z.of_nat (current p) + len).

(** [split(stop, 1)] on [s]: at most one cut, at the first occurrence. *)
Definition split1 (s stop : bytes) : result (list bytes) :=
  match stop with
  | [] => Raise (ValueError "empty separator")
  | _ => match bytes_find stop s with
         | Some i => Ok [firstn i s; skipn (i + length stop) s]
         | None => Ok [s]
         end
  end.

(** [read_until(stop)]: [before, _ = data[current:].split(stop, 1)]; the
    unpacking of a one-element list raises [ValueError]. *)
Definition read_until (stop : bytes) : M bytes := fun p =>
  match split1 (skipn (current p) (data p)) stop with
  | Ok [before; _] => Ok (before, next_byte (length before) p)
  | Ok _ => Raise (ValueError "not enough values to unpack (expected 2, got 1)")
  | Raise e => Raise e
  | OutOfFuel => OutOfFuel
  end.

Definition read_bytes (len : Z) : M bytes := fun p =>
  let start := chunk len p in
  Ok (start, next_byte (length start) p).

Definition read_must (expected : bytes) : M unit := fun p =>
  if Z.of_nat (length expected)
       >? Z.of_nat (length (data p)) - Z.of_nat (current p)
  then Raise (ParseError (current p) (NotEnoughBytes expected))
  else
    let c := chunk (Z.of_nat (length expected)) p in
    if negb (bytes_eqb c expected)
    then Raise (ParseError (current p) (ExpectedBut expected c))
    else Ok (tt, next_byte (length expected) p).

(* ================================================================== *)
(** ** The built-in conversions [float(bytes)] and [str(float)]

    A Python [float] is an IEEE 754 binary64 number, embedded as a
    [spec_float].  The two conversions between floats and decimal text
    belong to the Python runtime, not to this module: the codec is
    parameterised by them. *)

Section Codec.

Variable float_of_bytes : bytes -> option spec_float.
Variable str_of_float : spec_float -> bytes.

Definition float (s : bytes) : result spec_float :=
  match float_of_bytes s with
  | Some f => Ok f
  | None => Raise (ValueError "could not convert string to float")
  end.

(* ================================================================== *)
(** ** class PHPUnserializer *)

Definition _string_from_bytes : M value :=
  read_must PHP_STRING ;;;
  read_must PHP_FIELD_SEPARATOR ;;;
  text <- read_until PHP_FIELD_SEPARATOR ;;
  size <- lift (int text) ;;
  read_must PHP_FIELD_SEPARATOR ;;;
  read_must PHP_STRING_DELIMITER ;;;
  value <- read_bytes size ;;
  read_must PHP_STRING_DELIMITER ;;;
  read_must PHP_END_VALUE ;;;
  ret (PyBytes value).

Definition _int_from_bytes : M value :=
  read_must PHP_INT ;;;
  read_must PHP_FIELD_SEPARATOR ;;;
  text <- read_until PHP_END_VALUE ;;
  value <- lift (int text) ;;
  read_must PHP_END_VALUE ;;;
  ret (PyInt value).

Definition _decimal_from_bytes : M value :=
  read_must PHP_DECIMAL ;;;
  read_must PHP_FIELD_SEPARATOR ;;;
  text <- read_until PHP_END_VALUE ;;
  value <- lift (float text) ;;
  read_must PHP_END_VALUE ;;;
  ret (PyFloat value).

Definition _bool_from_bytes : M value :=
  read_must PHP_BOOL ;;;
  read_must PHP_FIELD_SEPARATOR ;;;
  text <- read_until PHP_END_VALUE ;;
  n <- lift (int text) ;;
  read_must PHP_END_VALUE ;;;
  ret (PyBool (negb (n =? 0))).

Definition _null_from_bytes : M value :=
  read_must PHP_NULL ;;;
  read_must PHP_END_VALUE ;;;
  ret PyNone.

(** [[(from_bytes(), from_bytes()) for _ in range(n)]]. *)
Fixpoint read_pairs (from_bytes : M value) (n : nat)
  : M (list (value * value)) :=
  match n with
  | O => ret []
  | S n' =>
      key <- from_bytes ;;
      val <- from_bytes ;;
      rest <- read_pairs from_bytes n' ;;
      ret ((key, val) :: rest)
  end.

Definition _array_from_bytes (from_bytes : M value) : M value :=
  read_must PHP_ARRAY ;;;
  read_must PHP_FIELD_SEPARATOR ;;;
  text <- read_until PHP_FIELD_SEPARATOR ;;
  size <- lift (int text) ;;
  read_must PHP_FIELD_SEPARATOR ;;;
  read_must PHP_START_ARRAY ;;;
  array <- read_pairs from_bytes (Z.to_nat size) ;;
  read_must PHP_END_ARRAY ;;;
  ret (PyList array).

Definition _object_from_bytes (from_bytes : M value) : M value :=
  read_must PHP_OBJECT ;;;
  read_must PHP_FIELD_SEPARATOR ;;;
  text <- read_until PHP_FIELD_SEPARATOR ;;
  size <- lift (int text) ;;
  read_must PHP_FIELD_SEPARATOR ;;;
  read_must PHP_STRING_DELIMITER ;;;
  class_name <- read_bytes size ;;
  read_must PHP_STRING_DELIMITER ;;;
  read_must PHP_FIELD_SEPARATOR ;;;
  text' <- read_until PHP_FIELD_SEPARATOR ;;
  count <- lift (int text') ;;
  read_must PHP_FIELD_SEPARATOR ;;;
  read_must PHP_START_ARRAY ;;;
  props <- read_pairs from_bytes (Z.to_nat count) ;;
  read_must PHP_END_ARRAY ;;;
  ret (PyObject class_name props).

(** [from_bytes]: dispatch on the type byte.  [fuel] bounds the nesting
    depth of the calls. *)
Fixpoint from_bytes (fuel : nat) : M value :=
  match fuel with
  | O => fun _ => OutOfFuel
  | S fuel' => fun p =>
      let php_type := chunk 1 p in
      if bytes_eqb php_type PHP_STRING then _string_from_bytes p
      else if bytes_eqb php_type PHP_INT then _int_from_bytes p
      else if bytes_eqb php_type PHP_BOOL then _bool_from_bytes p
      else if bytes_eqb php_type PHP_NULL then _null_from_bytes p
      else if bytes_eqb php_type PHP_ARRAY
           then _array_from_bytes (from_bytes fuel') p
      else if bytes_eqb php_type PHP_DECIMAL then _decimal_from_bytes p
      else if bytes_eqb php_type PHP_OBJECT
           then _object_from_bytes (from_bytes fuel') p
      else Raise (ParseError (current p) (UnknownType php_type))
  end.

(* ================================================================== *)
(** ** class PHPSerializer *)

Definition _string_to_bytes (s : bytes) : bytes :=
  PHP_STRING ++ PHP_FIELD_SEPARATOR
    ++ str_of_int (Z.of_nat (length s))
    ++ PHP_FIELD_SEPARATOR ++ PHP_STRING_DELIMITER
    ++ s
    ++ PHP_STRING_DELIMITER ++ PHP_END_VALUE.

Definition _bool_to_bytes (b : bool) : bytes :=
  PHP_BOOL ++ PHP_FIELD_SEPARATOR ++ str_of_int (Z.b2z b) ++ PHP_END_VALUE.

Definition _int_to_bytes (n : Z) : bytes :=
  PHP_INT ++ PHP_FIELD_SEPARATOR ++ str_of_int n ++ PHP_END_VALUE.

Definition _float_to_bytes (f : spec_float) : bytes :=
  PHP_DECIMAL ++ PHP_FIELD_SEPARATOR ++ str_of_float f ++ PHP_END_VALUE.

(** The pieces joined by [EMPTY.join([...])]: key then value of each pair. *)
Definition pairs_to_bytes (to_bytes : value -> result bytes)
  (pairs : list (value * value)) : result (list bytes) :=
  mapM (fun kv => k <-- to_bytes (fst kv) ;;
                  v <-- to_bytes (snd kv) ;;
                  Ok (k ++ v)) pairs.

Definition _array_to_bytes (to_bytes : value -> result bytes)
  (items : list (value * value)) : result bytes :=
  parts <-- pairs_to_bytes to_bytes items ;;
  Ok (PHP_ARRAY ++ PHP_FIELD_SEPARATOR
        ++ str_of_int (Z.of_nat (length items))
        ++ PHP_FIELD_SEPARATOR ++ PHP_START_ARRAY
        ++ concat parts
        ++ PHP_END_ARRAY).

Definition _object_to_bytes (to_bytes : value -> result bytes)
  (class_name : bytes) (properties : list (value * value)) : result bytes :=
  parts <-- pairs_to_bytes to_bytes properties ;;
  Ok (PHP_OBJECT ++ PHP_FIELD_SEPARATOR
        ++ str_of_int (Z.of_nat (length class_name))
        ++ PHP_FIELD_SEPARATOR ++ PHP_STRING_DELIMITER
        ++ class_name
        ++ PHP_STRING_DELIMITER ++ PHP_FIELD_SEPARATOR
        ++ str_of_int (Z.of_nat (length properties))
        ++ PHP_FIELD_SEPARATOR ++ PHP_START_ARRAY
        ++ concat parts
        ++ PHP_END_ARRAY).

(** [to_bytes]: the chain of [isinstance] tests, in the order of the
    source; whatever passes none of them raises [SerializeError]. *)
Fixpoint to_bytes (v : value) : result bytes :=
  match v with
  | PyBytes s => Ok (_string_to_bytes s)
  | PyBool b => Ok (_bool_to_bytes b)
  | PyInt n => Ok (_int_to_bytes n)
  | PyFloat f => Ok (_float_to_bytes f)
  | PyList items => _array_to_bytes to_bytes items
  | PyObject class_name properties =>
      _object_to_bytes to_bytes class_name properties
  | PyNone | PyStr _ => Raise (SerializeError v)
  end.

Definition php_serialize (v : value) : result bytes := to_bytes v.

(** [php_unserialize]: every nested call of [from_bytes] starts after at
    least one byte read by its caller, so the depth never exceeds the
    length of the input. *)
Definition php_unserialize (d : bytes) : result value :=
  match from_bytes (S (length d)) (reset d) with
  | Ok (v, _) => Ok v
  | Raise e => Raise e
  | OutOfFuel => OutOfFuel
  end.

End Codec.

(* ================================================================== *)
(** ** Equality of Python values: the operator [==]

    [bool] is a subclass of [int], and numbers of different types compare
    by their mathematical value; [bytes], [str], [None], lists and tuples
    are equal only to values of their own type.  Lists and tuples compare
    item by item.  (The identity shortcut of the item comparison, which
    matters only for a NaN shared by both sides, is not modelled.) *)

(** The exact comparison of a float with an integer. *)
Definition float_eq_int (f : spec_float) (n : Z) : bool :=
  match f with
  | S754_zero _ => n =? 0
  | S754_finite s m e =>
      let v := if s then Z.neg m else Z.pos m in
      if 0 <=? e then n =? v * 2 ^ e
      else (v mod 2 ^ (- e) =? 0) && (n =? v / 2 ^ (- e))
  | S754_infinity _ | S754_nan => false
  end.

Fixpoint py_eq (a b : value) {struct a} : bool :=
  let pairs_eq :=
    fix pairs_eq (l m : list (value * value)) {struct l} : bool :=
      match l, m with
      | [], [] => true
      | (k, v) :: l', (k', v') :: m' =>
          py_eq k k' && py_eq v v' && pairs_eq l' m'
      | _, _ => false
      end in
  match a, b with
  | PyNone, PyNone => true
  | PyBool x, PyBool y => Bool.eqb x y
  | PyBool x, PyInt n => Z.b2z x =? n
  | PyBool x, PyFloat f => float_eq_int f (Z.b2z x)
  | PyInt n, PyBool y => n =? Z.b2z y
  | PyInt n, PyInt m => n =? m
  | PyInt n, PyFloat f => float_eq_int f n
  | PyFloat f, PyBool y => float_eq_int f (Z.b2z y)
  | PyFloat f, PyInt m => float_eq_int f m
  | PyFloat f, PyFloat g => SFeqb f g
  | PyBytes s, PyBytes t => bytes_eqb s t
  | PyList l, PyList m => pairs_eq l m
  | PyObject c l, PyObject d m => bytes_eqb c d && pairs_eq l m
  | PyStr s, PyStr t => String.eqb s t
  | _, _ => false
  end.

(* ================================================================== *)
(** ** class Query: get, set and delete on a structure *)

(** The [for] loop of [_set] over the pairs of a list: every pair whose key
    equals [key] gets its value replaced, and the flag records whether one
    was found. *)
Fixpoint set_loop (key : value) (set_rest : value -> result value)
  (structure modified_data : list (value * value))
  (value_must_be_created : bool) : result (list (value * value) * bool) :=
  match structure with
  | [] => Ok (modified_data, value_must_be_created)
  | (item_key, item_value) :: tl =>
      if py_eq key item_key
      then item_value' <-- set_rest item_value ;;
           set_loop key set_rest tl
             (modified_data ++ [(item_key, item_value')]) false
      else set_loop key set_rest tl
             (modified_data ++ [(item_key, item_value)]) value_must_be_created
  end.

(** [_set].  On an object the source calls itself on [structure[1]], which
    is a list: the list branch is shared by both cases. *)
Fixpoint _set (selector : list value) (v : value) (structure : value)
  {struct selector} : result value :=
  match selector with
  | [] => Ok v
  | key :: rest =>
      let set_in_list (items : list (value * value)) :=
        r <-- set_loop key (_set rest v) items [] true ;;
        let '(modified_data, value_must_be_created) := r in
        if (value_must_be_created : bool)
        then created <-- _set rest v (PyList []) ;;
             Ok (modified_data ++ [(key, created)])
        else Ok modified_data in
      match structure with
      | PyList items =>
          modified_data <-- set_in_list items ;; Ok (PyList modified_data)
      | PyObject class_name properties =>
          modified_data <-- set_in_list properties ;;
          Ok (PyObject class_name modified_data)
      | _ => Raise (ValueError "Expected list of object")
      end
  end.

(** The [for] loop of [_get]: the value of the first pair whose key equals
    [to_get]. *)
Fixpoint get_loop (to_get : value) (structure : list (value * value))
  : option value :=
  match structure with
  | [] => None
  | (key, val) :: tl =>
      if py_eq key to_get then Some val else get_loop to_get tl
  end.

(** [_get] returns [None] (here [PyNone]) when nothing is found; it has no
    [raise].  The object case shares the list branch, as in [_set]. *)
Fixpoint _get (selector : list value) (structure : value)
  {struct selector} : value :=
  match selector with
  | [] => structure
  | to_get :: rest =>
      let get_in_list (items : list (value * value)) :=
        match get_loop to_get items with
        | Some val => _get rest val
        | None => PyNone
        end in
      match structure with
      | PyList items => get_in_list items
      | PyObject _ properties => get_in_list properties
      | _ => PyNone
      end
  end.

Fixpoint _delete (selector : list value) (structure : value)
  {struct selector} : result value :=
  match selector with
  | [] => Ok structure
  | to_delete :: rest =>
      let delete_in_list (items : list (value * value)) :=
        match rest with
        | [] =>
            Ok (filter (fun kv => negb (py_eq (fst kv) to_delete)) items)
        | _ :: _ =>
            mapM (fun kv =>
                    if py_eq (fst kv) to_delete
                    then val <-- _delete rest (snd kv) ;; Ok (fst kv, val)
                    else Ok kv) items
        end in
      match structure with
      | PyList items =>
          modified <-- delete_in_list items ;; Ok (PyList modified)
      | PyObject class_name properties =>
          modified <-- delete_in_list properties ;;
          Ok (PyObject class_name modified)
      | _ => Raise (ValueError "Expected a list or an object")
      end
  end.

(* ================================================================== *)
(** ** class Query: the parser of query expressions *)

(** The number of bytes left to read: it bounds the iterations of the
    [while] loops, each of which reads at least one byte. *)
Definition remaining (p : Parser) : nat := (length (data p) - current p)%nat.

Section QueryParser.

Variable float_of_bytes : bytes -> option spec_float.
Variable str_of_float : spec_float -> bytes.

(** The [while not self.end_of_data()] loop of [_parse_string]. *)
Fixpoint string_loop (n : nat) (escaping : bool) (string : bytes)
  : M bytes := fun p =>
  if end_of_data p then
    if escaping
    then Raise (ParseError (current p) (Text "Incomplete escape sequence"))
    else Raise (ParseError (current p) (Text "Unterminated string"))
  else
    match n with
    | O => OutOfFuel
    | S n' =>
        if escaping
        then (b <- read_bytes 1 ;; string_loop n' false (string ++ b)) p
        else if bytes_eqb (chunk 1 p) QUERY_ESCAPE
        then string_loop n' true string (next_byte 1 p)
        else if bytes_eqb (chunk 1 p) QUERY_END_STRING
        then (read_must QUERY_END_STRING ;;; ret string) p
        else (b <- read_bytes 1 ;; string_loop n' false (string ++ b)) p
    end.

Definition _parse_string : M bytes :=
  read_must QUERY_START_STRING ;;;
  fun p => string_loop (remaining p) false EMPTY p.

(** The two digit loops of [_parse_number]. *)
Fixpoint digits_loop (n : nat) (number_string : bytes) : M bytes := fun p =>
  if end_of_data p then Ok (number_string, p)
  else
    match n with
    | O => OutOfFuel
    | S n' =>
        if negb (bytes_leb DIGIT_ZERO (chunk 1 p)
                 && bytes_leb (chunk 1 p) DIGIT_NINE)
        then Ok (number_string, p)
        else digits_loop n' (number_string ++ chunk 1 p) (next_byte 1 p)
    end.

Definition _parse_number : M value := fun p =>
  let '(number_string, p) :=
    if bytes_eqb (chunk 1 p) MINUS
    then (MINUS, next_byte 1 p)
    else (EMPTY, p) in
  (number_string <- digits_loop (remaining p) number_string ;;
   fun p =>
     if bytes_eqb number_string EMPTY
     then Raise (ParseError (current p) (Text "Expected a digit"))
     else if negb (bytes_eqb (chunk 1 p) DECIMAL_DOT)
     then (n <- lift (int number_string) ;; ret (PyInt n)) p
     else
       let p := next_byte 1 p in
       (number_string <-
          digits_loop (remaining p) (number_string ++ DECIMAL_DOT) ;;
        f <- lift (float float_of_bytes number_string) ;;
        ret (PyFloat f)) p) p.

(** The [while require_selector] loop of [_parse_selector]: one item, then
    either a path separator (and another turn) or the end of the
    selector. *)
Fixpoint selector_loop (n : nat) (selector : list value)
  : M (list value) := fun p =>
  match n with
  | O => OutOfFuel
  | S n' =>
      let current_byte := chunk 1 p in
      (item <-
         (if bytes_eqb current_byte QUERY_START_STRING
          then s <- _parse_string ;; ret (PyBytes s)
          else if is_valid_int_start current_byte
          then _parse_number
          else raise (ParseError (current p)
                        (Text "Expected string or number"))) ;;
       fun p =>
         let selector := selector ++ [item] in
         if negb (end_of_data p) then
           let next := chunk 1 p in
           if bytes_eqb next QUERY_PATH_SEPARATOR
           then (read_must QUERY_PATH_SEPARATOR ;;;
                 selector_loop n' selector) p
           else if bytes_eqb next QUERY_EQUAL
           then Ok (selector, p)
           else Raise (ParseError (current p)
                         (Text "Unexpected char in selector"))
         else Ok (selector, p)) p
  end.

Definition _parse_selector : M (list value) := fun p =>
  if end_of_data p || bytes_eqb (chunk 1 p) QUERY_EQUAL
  then Ok ([], p)
  else selector_loop (S (remaining p)) [] p.

(** The [while] loop of [_parse_array]. *)
Fixpoint array_loop (_parse_value : M value) (n : nat)
  (array : list (value * value)) : M (list (value * value)) := fun p =>
  if negb (end_of_data p) && negb (bytes_eqb (chunk 1 p) QUERY_END_ARRAY)
  then
    match n with
    | O => OutOfFuel
    | S n' =>
        (key <- _parse_value ;;
         read_must QUERY_KEY_VALUE_SEPARATOR ;;;
         val <- _parse_value ;;
         fun p =>
           let array := array ++ [(key, val)] in
           if bytes_eqb (chunk 1 p) QUERY_ITEM_SEPARATOR
           then (read_must QUERY_ITEM_SEPARATOR ;;;
                 array_loop _parse_value n' array) p
           else if negb (bytes_eqb (chunk 1 p) QUERY_END_ARRAY)
           then Raise (ParseError (current p)
                         (Text "Unexpected char in array"))
           else array_loop _parse_value n' array p) p
    end
  else Ok (array, p).

Definition _parse_array (_parse_value : M value)
  : M (list (value * value)) :=
  read_must QUERY_START_ARRAY ;;;
  array <- (fun p => array_loop _parse_value (remaining p) [] p) ;;
  read_must QUERY_END_ARRAY ;;;
  ret array.

Definition _parse_object (_parse_value : M value) : M value :=
  read_must QUERY_START_OBJECT ;;;
  class_name <- _parse_string ;;
  (fun p =>
     if (length class_name =? 0)%nat
     then Raise (ParseError (current p) (Text "Class name can not be empty"))
     else Ok (tt, p)) ;;;
  read_must QUERY_ITEM_SEPARATOR ;;;
  properties <- _parse_array _parse_value ;;
  read_must QUERY_END_OBJECT ;;;
  ret (PyObject class_name properties).

Definition _parse_true : M value := read_must QUERY_TRUE ;;; ret (PyBool true).

Definition _parse_false : M value :=
  read_must QUERY_FALSE ;;; ret (PyBool false).

Definition _parse_null : M value := read_must QUERY_NULL ;;; ret PyNone.

(** [_parse_value]: the table [callbacks], keyed by the first byte, then
    the numbers.  [fuel] bounds the nesting depth. *)
Fixpoint _parse_value (fuel : nat) : M value :=
  match fuel with
  | O => fun _ => OutOfFuel
  | S fuel' => fun p =>
      let c := chunk 1 p in
      if bytes_eqb c QUERY_START_STRING
      then (s <- _parse_string ;; ret (PyBytes s)) p
      else if bytes_eqb c QUERY_START_ARRAY
      then (a <- _parse_array (_parse_value fuel') ;; ret (PyList a)) p
      else if bytes_eqb c QUERY_START_OBJECT
      then _parse_object (_parse_value fuel') p
      else if bytes_eqb c (firstn 1 QUERY_TRUE) then _parse_true p
      else if bytes_eqb c (firstn 1 QUERY_FALSE) then _parse_false p
      else if bytes_eqb c (firstn 1 QUERY_NULL) then _parse_null p
      else if is_valid_int_start c then _parse_number p
      else Raise (ParseError (current p) (Text "Expected a value"))
  end.

Definition _parse_command : M (bytes * list value * value) := fun p =>
  let command_id := chunk 1 p in
  if negb (bytes_eqb command_id QUERY_GET
           || bytes_eqb command_id QUERY_SET
           || bytes_eqb command_id QUERY_DELETE)
  then Raise (ParseError (current p) (UnknownCommand command_id))
  else
    (read_must command_id ;;;
     read_must QUERY_COMMAND_SEPARATOR ;;;
     selector <- _parse_selector ;;
     val <- (if bytes_eqb command_id QUERY_SET
             then read_must QUERY_EQUAL ;;;
                  (fun p => _parse_value (S (remaining p)) p)
             else ret PyNone) ;;
     ret (command_id, selector, val)) p.

(** [Query(structure).run(expression)]. *)
Definition run (structure : value) (expression : bytes) : result value :=
  match _parse_command (reset expression) with
  | Ok ((command, selector, val), _) =>
      if bytes_eqb command QUERY_SET then _set selector val structure
      else if bytes_eqb command QUERY_GET then Ok (_get selector structure)
      else if bytes_eqb command QUERY_DELETE then _delete selector structure
      else Ok PyNone
  | Raise e => Raise e
  | OutOfFuel => OutOfFuel
  end.

Definition php_modify (d expression : bytes) : result bytes :=
  unserialized <-- php_unserialize float_of_bytes d ;;
  modified <-- run unserialized expression ;;
  php_serialize str_of_float modified.

End QueryParser.

(* ================================================================== *)
(** ** Definitions used by the statements *)

(** The parser state after [pre] has been read and with [suf] still to be
    read. *)
Definition cursor (pre suf : bytes) : Parser :=
  mkParser (pre ++ suf) (length pre).

(** The nesting depth of a value. *)
Fixpoint height (v : value) : nat :=
  let pair_height (kv : value * value) :=
    Nat.max (height (fst kv)) (height (snd kv)) in
  match v with
  | PyList items => S (list_max (map pair_height items))
  | PyObject _ properties => S (list_max (map pair_height properties))
  | _ => O
  end.

(** A property of every key and every value of a list of pairs. *)
Definition ForallPairs (P : value -> Prop) (l : list (value * value)) : Prop :=
  Forall (fun kv => P (fst kv) /\ P (snd kv)) l.

(** Induction on values through the pairs of lists and objects. *)
Fixpoint value_induction (P : value -> Prop)
  (HNone : P PyNone)
  (HBool : forall b, P (PyBool b))
  (HInt : forall n, P (PyInt n))
  (HFloat : forall f, P (PyFloat f))
  (HBytes : forall s, P (PyBytes s))
  (HList : forall items, ForallPairs P items -> P (PyList items))
  (HObject : forall c props, ForallPairs P props -> P (PyObject c props))
  (HStr : forall s, P (PyStr s))
  (v : value) {struct v} : P v :=
  let rec := value_induction HNone HBool HInt HFloat HBytes HList HObject HStr in
  let pairs :=
    fix pairs (l : list (value * value)) : ForallPairs P l :=
      match l with
      | [] => Forall_nil _
      | (k, x) :: l' => Forall_cons (k, x) (conj (rec k) (rec x)) (pairs l')
      end in
  match v with
  | PyNone => HNone
  | PyBool b => HBool b
  | PyInt n => HInt n
  | PyFloat f => HFloat f
  | PyBytes s => HBytes s
  | PyList items => HList items (pairs items)
  | PyObject c props => HObject c props (pairs props)
  | PyStr s => HStr s
  end.

(** The values of the data model: everything but a host value of another
    type, at any depth. *)
Fixpoint in_model (v : value) : bool :=
  let pair_in_model (kv : value * value) :=
    in_model (fst kv) && in_model (snd kv) in
  match v with
  | PyStr _ => false
  | PyList items => forallb pair_in_model items
  | PyObject _ properties => forallb pair_in_model properties
  | _ => true
  end.

(** The values in which [None] occurs nowhere. *)
Fixpoint none_free (v : value) : bool :=
  let pair_none_free (kv : value * value) :=
    none_free (fst kv) && none_free (snd kv) in
  match v with
  | PyNone => false
  | PyList items => forallb pair_none_free items
  | PyObject _ properties => forallb pair_none_free properties
  | _ => true
  end.

(** Two values of the same variant. *)
Definition same_variant (a b : value) : bool :=
  match a, b with
  | PyNone, PyNone | PyBool _, PyBool _ | PyInt _, PyInt _
  | PyFloat _, PyFloat _ | PyBytes _, PyBytes _ | PyList _, PyList _
  | PyObject _ _, PyObject _ _ | PyStr _, PyStr _ => true
  | _, _ => false
  end.

Section CanonicalFloats.

Variable float_of_bytes : bytes -> option spec_float.
Variable str_of_float : spec_float -> bytes.

(** A float whose text is read back as the same float, and holds no
    [;]. *)
Definition float_round_trips (f : spec_float) : Prop :=
  float_of_bytes (str_of_float f) = Some f
  /\ ~ In x3b (str_of_float f).

(** Every float of a value round-trips through its text. *)
Fixpoint floats_round_trip (v : value) : Prop :=
  let pairs_ok :=
    fold_right (fun kv rest =>
                  floats_round_trip (fst kv) /\ floats_round_trip (snd kv)
                  /\ rest) True in
  match v with
  | PyFloat f => float_round_trips f
  | PyList items => pairs_ok items
  | PyObject _ properties => pairs_ok properties
  | _ => True
  end.

(** What it means for a value to be read back from its encoding, with
    enough fuel for its depth. *)
Definition reads_back (v : value) : Prop :=
  forall enc, to_bytes str_of_float v = Ok enc ->
  floats_round_trip v ->
  forall fuel pre suf, (height v < fuel)%nat ->
  from_bytes float_of_bytes fuel (cursor pre (enc ++ suf))
  = Ok (v, cursor (pre ++ enc) suf).

End CanonicalFloats.

(** A method is well behaved at a state when it does not run out of fuel
    and, if it returns, leaves the stream untouched and the position not
    before where it was; [within r m] says so of [m] at every state with at
    most [r] bytes left to read. *)
Definition behaves {A : Type} (m : M A) (p : Parser) : Prop :=
  match m p with
  | Ok (_, p') => data p' = data p /\ (current p <= current p')%nat
  | Raise _ => True
  | OutOfFuel => False
  end.

Definition within {A : Type} (r : nat) (m : M A) : Prop :=
  forall p, (remaining p <= r)%nat -> behaves m p.


(** What [_set] builds below a key that it creates: one fresh one-pair
    list per remaining key of the selector, around the literal. *)
Fixpoint created (selector : list value) (v : value) : value :=
  match selector with
  | [] => v
  | key :: rest => PyList [(key, created rest v)]
  end.

(** The update of one pair by [_set]: the value under a matching key is
    replaced by the result of the recursive call. *)
Definition set_pair (key : value) (set_rest : value -> result value)
  (kv : value * value) : result (value * value) :=
  if py_eq key (fst kv)
  then x <-- set_rest (snd kv) ;; Ok (fst kv, x)
  else Ok kv.

(** [Set] as the specification words it: only the first pair whose key
    matches is replaced; without a match a pair is appended. *)
Fixpoint spec_set_pairs (key : value) (set_rest : value -> result value)
  (pairs : list (value * value)) : result (list (value * value)) :=
  match pairs with
  | [] => x <-- set_rest (PyList []) ;; Ok [(key, x)]
  | (k, x) :: tl =>
      if py_eq key k
      then x' <-- set_rest x ;; Ok ((k, x') :: tl)
      else tl' <-- spec_set_pairs key set_rest tl ;; Ok ((k, x) :: tl')
  end.

Fixpoint spec_set (selector : list value) (v : value) (structure : value)
  : result value :=
  match selector with
  | [] => Ok v
  | key :: rest =>
      match structure with
      | PyList items =>
          r <-- spec_set_pairs key (spec_set rest v) items ;; Ok (PyList r)
      | PyObject c props =>
          r <-- spec_set_pairs key (spec_set rest v) props ;;
          Ok (PyObject c r)
      | _ => Raise (ValueError "Expected list of object")
      end
  end.

(* ================================================================== *)
(** ** Sample floats

    The binary64 numbers written [124.56], [3.3], [12.3], [1.0] and [1.5],
    which the tests of the repository use, with the text that the runtime
    prints for them and reads them from.  They instantiate the two
    conversions in the examples; on other texts [sample_float_of_bytes]
    raises, and other floats print as [nan]. *)

Definition float_124_56 : spec_float :=
  S754_finite false 8765130774769828 (-46).
Definition float_3_3 : spec_float := S754_finite false 7430939385161318 (-51).
Definition float_12_3 : spec_float := S754_finite false 6924284427082138 (-49).
Definition float_1_0 : spec_float := S754_finite false 4503599627370496 (-52).
Definition float_1_5 : spec_float := S754_finite false 6755399441055744 (-52).

Definition sample_floats : list (bytes * spec_float) :=
  [ (B "124.56", float_124_56); (B "3.3", float_3_3);
    (B "12.3", float_12_3); (B "1.0", float_1_0); (B "1.5", float_1_5) ].

Definition sample_float_of_bytes (s : bytes) : option spec_float :=
  match List.find (fun e => bytes_eqb (fst e) s) sample_floats with
  | Some e => Some (snd e)
  | None => None
  end.

Definition sample_str_of_float (f : spec_float) : bytes :=
  match List.find (fun e => SFeqb (snd e) f) sample_floats with
  | Some e => fst e
  | None => B "nan"
  end.

(** [l] is [m] with some elements left out, the others in their order. *)
Inductive subsequence {A : Type} : list A -> list A -> Prop :=
| subsequence_nil : subsequence [] []
| subsequence_skip (x : A) (l m : list A) :
    subsequence l m -> subsequence l (x :: m)
| subsequence_keep (x : A) (l m : list A) :
    subsequence l m -> subsequence (x :: l) (x :: m).

(** [isinstance(data, list)]. *)
Definition is_list (data : value) : bool :=
  match data with
  | PyList _ => true
  | _ => false
  end.

(** The outcome is a [ParseError]. *)
Definition is_parse_error {A : Type} (r : result A) : bool :=
  match r with
  | Raise (ParseError _ _) => true
  | _ => false
  end.

(** Values of the tests of the repository. *)
Definition array1 : value := PyList [(PyInt 0, PyInt 0); (PyInt 1, PyInt 1)].

Definition array2 : value :=
  PyList [ (PyInt 0, PyList [ (PyBytes (B "a"), PyBool true);
                              (PyBytes (B "b"), PyBool false) ]);
           (PyInt 1, PyInt 0); (PyInt 2, PyInt 1) ].

Definition object1 : value :=
  PyObject (B "Person")
    [ (PyBytes (B "name"), PyBytes (B "Jane"));
      (PyBytes (B "age"), PyInt 25) ].

Definition nested1 : value :=
  PyList [ (PyInt 0, PyInt 0);
           (PyInt 1, PyList [ (PyBytes (B "a"), PyInt 10);
                              (PyBytes (B "b"), PyInt 12) ]) ].

(* ================================================================== *)
(** ** Definitions used by the further properties *)

(** The pairs of a list or of an object; no pair elsewhere. *)
Definition pairs_of (v : value) : list (value * value) :=
  match v with
  | PyList items => items
  | PyObject _ properties => properties
  | _ => []
  end.

(** A structure with the pairs [pairs] in place of those of [v]: the same
    list or the same class of object. *)
Definition with_pairs (v : value) (pairs : list (value * value)) : value :=
  match v with
  | PyObject class_name _ => PyObject class_name pairs
  | _ => PyList pairs
  end.

(** Lists and objects: the structures that [_set] and [_delete] enter. *)
Definition is_container (v : value) : bool := is_list v || is_object v.

(** The key [k] is bound in [pairs]: some key of [pairs] is equal to it,
    tested as [_set] does, the selector key on the left. *)
Definition bound (k : value) (pairs : list (value * value)) : bool :=
  existsb (fun kv => py_eq k (fst kv)) pairs.

(** What is left to read: [data[current:]]. *)
Definition rest_of (p : Parser) : bytes := skipn (current p) (data p).

(** The seven type bytes of the wire format. *)
Definition type_bytes : bytes := Eval cbv in B "sibNadO".

(** The stream does not start with a type byte. *)
Definition no_type_byte (d : bytes) : bool :=
  match d with
  | [] => true
  | b :: _ => negb (existsb (Byte.eqb b) type_bytes)
  end.

(** The stream of an array with the declared count [count] and the
    encoded pairs [parts]. *)
Definition array_stream (count : Z) (parts : list bytes) : bytes :=
  PHP_ARRAY ++ PHP_FIELD_SEPARATOR ++ str_of_int count
    ++ PHP_FIELD_SEPARATOR ++ PHP_START_ARRAY
    ++ concat parts ++ PHP_END_ARRAY.

(** The text of a string literal of the query language: a backslash in
    front of every double quote and of every backslash. *)
Fixpoint escape (s : bytes) : bytes :=
  match s with
  | [] => []
  | b :: s' =>
      (if Byte.eqb b x22 || Byte.eqb b x5c then [x5c; b] else [b])
        ++ escape s'
  end.

Definition string_literal (s : bytes) : bytes :=
  QUERY_START_STRING ++ escape s ++ QUERY_END_STRING.

(** What may follow a number: the end of the expression, or a byte that
    is neither a digit nor the decimal dot. *)
Definition ends_number (suf : bytes) : bool :=
  match suf with
  | [] => true
  | b :: _ => negb (is_digit b) && negb (Byte.eqb b x2e)
  end.

(** The keys that a selector is written with: integers and strings. *)
Definition is_segment (v : value) : bool :=
  match v with
  | PyInt _ | PyBytes _ => true
  | _ => false
  end.

Definition render_segment (v : value) : bytes :=
  match v with
  | PyInt n => str_of_int n
  | PyBytes s => string_literal s
  | _ => []
  end.

(** A selector as a path: its segments separated by [/]. *)
Fixpoint render_selector (selector : list value) : bytes :=
  match selector with
  | [] => []
  | k :: rest =>
      match rest with
      | [] => render_segment k
      | _ :: _ =>
          render_segment k ++ QUERY_PATH_SEPARATOR ++ render_selector rest
      end
  end.

(** What may follow a selector: the end of the expression or [=]. *)
Definition ends_selector (suf : bytes) : bool :=
  match suf with
  | [] => true
  | b :: _ => Byte.eqb b x3d
  end.

(** The pairs of an array literal: [key:value], separated by commas. *)
Definition render_pairs (render_value : value -> bytes)
  : list (value * value) -> bytes :=
  fix render_pairs (pairs : list (value * value)) : bytes :=
    match pairs with
    | [] => []
    | kv :: tl =>
        render_value (fst kv) ++ QUERY_KEY_VALUE_SEPARATOR
          ++ render_value (snd kv)
          ++ match tl with
             | [] => []
             | _ :: _ => QUERY_ITEM_SEPARATOR ++ render_pairs tl
             end
    end.

(** A value written as a literal of the query language. *)
Fixpoint render_value (v : value) : bytes :=
  match v with
  | PyNone => QUERY_NULL
  | PyBool true => QUERY_TRUE
  | PyBool false => QUERY_FALSE
  | PyInt n => str_of_int n
  | PyBytes s => string_literal s
  | PyList items =>
      QUERY_START_ARRAY ++ render_pairs render_value items ++ QUERY_END_ARRAY
  | PyObject class_name properties =>
      QUERY_START_OBJECT ++ string_literal class_name
        ++ QUERY_ITEM_SEPARATOR
        ++ (QUERY_START_ARRAY ++ render_pairs render_value properties
              ++ QUERY_END_ARRAY)
        ++ QUERY_END_OBJECT
  | PyFloat _ | PyStr _ => []
  end.

(** The values that have such a literal: no float, no host value of
    another type, no object with an empty class name. *)
Fixpoint literal_ok (v : value) : bool :=
  let pair_ok (kv : value * value) :=
    literal_ok (fst kv) && literal_ok (snd kv) in
  match v with
  | PyFloat _ | PyStr _ => false
  | PyList items => forallb pair_ok items
  | PyObject class_name properties =>
      negb (length class_name =? 0)%nat && forallb pair_ok properties
  | _ => true
  end.

(** What it means for a value to be read back from its literal, with
    enough fuel for its depth, whatever follows that can follow a
    number. *)
Definition reads_literal (float_of_bytes : bytes -> option spec_float)
  (v : value) : Prop :=
  literal_ok v = true ->
  forall fuel pre suf,
    (height v < fuel)%nat ->
    ends_number suf = true ->
    _parse_value float_of_bytes fuel (cursor pre (render_value v ++ suf))
    = Ok (v, cursor (pre ++ render_value v) suf).

(** A structure that holds pairs: a list, or an object of the class
    [class_name]. *)
Definition container (class_name : option bytes)
  (pairs : list (value * value)) : value :=
  match class_name with
  | None => PyList pairs
  | Some c => PyObject c pairs
  end.

(** The first part of a value that no test of the encoder accepts, a
    [None] or a text string, in the order in which the encoder visits a
    value: the pairs of a list or of an object from the first to the
    last, the key of a pair before its value, a key or a value before
    the pairs that follow it. *)
Fixpoint first_unencodable (v : value) : option value :=
  let first_in_pairs :=
    fold_right (fun kv rest =>
                  match first_unencodable (fst kv) with
                  | Some w => Some w
                  | None =>
                      match first_unencodable (snd kv) with
                      | Some w => Some w
                      | None => rest
                      end
                  end) None in
  match v with
  | PyNone | PyStr _ => Some v
  | PyList items => first_in_pairs items
  | PyObject _ properties => first_in_pairs properties
  | _ => None
  end.

(* ================================================================== *)
(** * Properties *)

Unset Implicit Arguments.

(** ** Bytes and the cursor *)

Lemma bytes_eqb_refl (a : bytes) : bytes_eqb a a = true.
Proof.
  induction a as [|x a IH]; simpl; [reflexivity|].
  now rewrite (byte_dec_lb (eq_refl x)), IH.
Qed.

Lemma bytes_eqb_eq (a b : bytes) : bytes_eqb a b = true <-> a = b.
Proof.
  split; [|intros ->; apply bytes_eqb_refl].
  revert b; induction a as [|x a IH]; intros [|y b]; simpl;
    try discriminate; [reflexivity|].
  intros H; apply andb_true_iff in H as [Hx Hab].
  apply byte_dec_bl in Hx; apply IH in Hab; now subst.
Qed.

Lemma bytes_eqb_neq (a b : bytes) : bytes_eqb a b = false <-> a <> b.
Proof.
  split.
  - intros H Heq; apply bytes_eqb_eq in Heq; congruence.
  - intros H; destruct (bytes_eqb a b) eqn:E; [|reflexivity].
    apply bytes_eqb_eq in E; contradiction.
Qed.

Lemma is_prefix_app (x s : bytes) : is_prefix x (x ++ s) = true.
Proof.
  induction x as [|b x IH]; simpl; [reflexivity|].
  now rewrite (byte_dec_lb (eq_refl b)), IH.
Qed.

Lemma is_prefix_spec (x s : bytes) :
  is_prefix x s = true <-> exists t, s = x ++ t.
Proof.
  split.
  - revert s; induction x as [|b x IH]; intros s H; simpl in *.
    + now exists s.
    + destruct s as [|c s]; [discriminate|].
      apply andb_true_iff in H as [Hb Hx].
      apply byte_dec_bl in Hb; subst c.
      destruct (IH _ Hx) as [t ->]; now exists t.
  - intros [t ->]; apply is_prefix_app.
Qed.

Lemma firstn_min_length (A : Type) (n : nat) (s : list A) :
  firstn (Nat.min n (length s)) s = firstn n s.
Proof. now rewrite <- firstn_firstn, firstn_all. Qed.

(** [chunk] at a cursor is a prefix of what is left to read. *)
Lemma chunk_cursor (n : nat) (pre suf : bytes) :
  chunk (Z.of_nat n) (cursor pre suf) = firstn n suf.
Proof.
  unfold chunk, slice, cursor; simpl.
  rewrite length_app.
  destruct (Z.ltb_spec (Z.of_nat (length pre) + Z.of_nat n) 0) as [H|_];
    [lia|].
  rewrite skipn_app, skipn_all, Nat.sub_diag; simpl.
  replace (Z.to_nat _ - length pre)%nat with (Nat.min n (length suf)) by lia.
  apply firstn_min_length.
Qed.

Lemma chunk_cursor_app (x pre suf : bytes) :
  chunk (Z.of_nat (length x)) (cursor pre (x ++ suf)) = x.
Proof.
  rewrite chunk_cursor, firstn_app, Nat.sub_diag, firstn_all; simpl.
  apply app_nil_r.
Qed.

Lemma chunk1_cursor (b : byte) (pre suf : bytes) :
  chunk 1 (cursor pre (b :: suf)) = [b].
Proof. exact (chunk_cursor 1 pre (b :: suf)). Qed.

Lemma next_byte_cursor (x pre suf : bytes) :
  next_byte (length x) (cursor pre (x ++ suf)) = cursor (pre ++ x) suf.
Proof.
  unfold next_byte, cursor; simpl.
  now rewrite length_app, app_assoc.
Qed.

Lemma end_of_data_cursor (pre suf : bytes) :
  end_of_data (cursor pre suf) = match suf with [] => true | _ => false end.
Proof.
  unfold end_of_data, cursor; simpl; rewrite length_app.
  destruct suf; simpl.
  - apply Nat.leb_le; lia.
  - apply Nat.leb_gt; lia.
Qed.

Lemma remaining_cursor (pre suf : bytes) :
  remaining (cursor pre suf) = length suf.
Proof. unfold remaining, cursor; simpl; rewrite length_app; lia. Qed.

Lemma reset_cursor (d : bytes) : reset d = cursor [] d.
Proof. reflexivity. Qed.

(** [read_must] consumes the expected bytes when they come next. *)
Lemma read_must_cursor (x pre suf : bytes) :
  read_must x (cursor pre (x ++ suf)) = Ok (tt, cursor (pre ++ x) suf).
Proof.
  unfold read_must.
  destruct (Z.gtb_spec (Z.of_nat (length x))
              (Z.of_nat (length (data (cursor pre (x ++ suf))))
               - Z.of_nat (current (cursor pre (x ++ suf))))) as [H|_].
  - simpl in H; rewrite !length_app in H; lia.
  - now rewrite chunk_cursor_app, bytes_eqb_refl, next_byte_cursor.
Qed.

(** [read_bytes] with a length within what is left. *)
Lemma read_bytes_cursor (x pre suf : bytes) :
  read_bytes (Z.of_nat (length x)) (cursor pre (x ++ suf))
  = Ok (x, cursor (pre ++ x) suf).
Proof.
  unfold read_bytes.
  now rewrite chunk_cursor_app, next_byte_cursor.
Qed.

(** The first occurrence of a one-byte separator. *)
Lemma bytes_find_first (c : byte) (s t : bytes) :
  ~ In c s -> bytes_find [c] (s ++ c :: t) = Some (length s).
Proof.
  induction s as [|b s IH]; intros Hin; simpl.
  - now rewrite (byte_dec_lb (eq_refl c)).
  - destruct (Byte.eqb c b) eqn:E.
    + apply byte_dec_bl in E; subst; exfalso; apply Hin; now left.
    + simpl; rewrite IH; [reflexivity|].
      intros H; apply Hin; now right.
Qed.

(** [read_until] stops in front of the first occurrence of the
    separator. *)
Lemma read_until_cursor (c : byte) (s pre suf : bytes) :
  ~ In c s ->
  read_until [c] (cursor pre (s ++ c :: suf))
  = Ok (s, cursor (pre ++ s) (c :: suf)).
Proof.
  intros Hin; unfold read_until, split1.
  replace (skipn (current (cursor pre (s ++ c :: suf)))
             (data (cursor pre (s ++ c :: suf)))) with (s ++ c :: suf).
  - rewrite (bytes_find_first c s suf Hin).
    rewrite firstn_app, Nat.sub_diag, firstn_all; simpl.
    rewrite app_nil_r.
    now rewrite (next_byte_cursor s pre (c :: suf)).
  - unfold cursor; simpl.
    now rewrite skipn_app, skipn_all, Nat.sub_diag.
Qed.

(** ** [int()] reads back what [str()] prints *)

Lemma digit_byte_is_digit (d : Z) : is_digit (digit_byte d) = true.
Proof.
  destruct d as [|p|p]; try reflexivity.
  do 4 (destruct p as [p|p|]; try reflexivity).
Qed.

Lemma digit_val_digit_byte (d : Z) :
  0 <= d < 10 -> digit_val (digit_byte d) = d.
Proof.
  intros H.
  assert (d = 0 \/ d = 1 \/ d = 2 \/ d = 3 \/ d = 4 \/ d = 5 \/ d = 6
          \/ d = 7 \/ d = 8 \/ d = 9) as C by lia.
  repeat (destruct C as [->|C]; [reflexivity|]); now subst.
Qed.

(** A digit is neither white space, nor a sign, nor a separator of the
    wire format. *)
Lemma is_digit_plain (b : byte) :
  is_digit b = true ->
  is_space b = false /\ Byte.eqb b x2d = false /\ Byte.eqb b x2b = false
  /\ b <> x3a /\ b <> x3b.
Proof. destruct b; (discriminate || (intros _; repeat split; discriminate)). Qed.

Lemma digits_fuel_all_digits (fuel : nat) (n : Z) :
  Forall (fun b => is_digit b = true) (digits_fuel fuel n).
Proof.
  revert n; induction fuel as [|fuel IH]; intros n; simpl; [constructor|].
  apply Forall_app; split.
  - destruct (n <? 10); [constructor | apply IH].
  - constructor; [apply digit_byte_is_digit | constructor].
Qed.

Lemma digits_fuel_not_nil (fuel : nat) (n : Z) : digits_fuel (S fuel) n <> [].
Proof. simpl; intros H; apply app_eq_nil in H as [_ H]; discriminate. Qed.

(** Reading the digits of [n] yields [n]. *)
Lemma digits_value_digits_fuel (fuel : nat) :
  forall (n : Z) (after : bool) (tl : bytes),
    0 <= n < 2 ^ Z.of_nat (S fuel) ->
    digits_value 0 after (digits_fuel (S fuel) n ++ tl)
    = digits_value n true tl.
Proof.
  induction fuel as [|fuel IH]; intros n after tl Hn.
  - cbn [digits_fuel].
    destruct (Z.ltb_spec n 10) as [_|H]; [|simpl in Hn; lia].
    cbn [digits_value app]; rewrite digit_byte_is_digit, digit_val_digit_byte.
    + f_equal; rewrite Z.mod_small; lia.
    + apply Z.mod_pos_bound; lia.
  - remember (S fuel) as f eqn:Ef.
    cbn [digits_fuel].
    destruct (Z.ltb_spec n 10) as [H|H].
    + cbn [digits_value app]; rewrite digit_byte_is_digit, digit_val_digit_byte.
      * f_equal; rewrite Z.mod_small; lia.
      * apply Z.mod_pos_bound; lia.
    + rewrite <- app_assoc; subst f; rewrite IH.
      * cbn [digits_value app]; rewrite digit_byte_is_digit, digit_val_digit_byte.
        -- f_equal; pose proof (Z.div_mod n 10); lia.
        -- apply Z.mod_pos_bound; lia.
      * split; [apply Z.div_pos; lia|].
        apply Z.div_lt_upper_bound; [lia|].
        rewrite Nat2Z.inj_succ, Z.pow_succ_r in Hn by lia. lia.
Qed.

Lemma digits_bound (n : Z) :
  0 <= n -> 0 <= n < 2 ^ Z.of_nat (S (Z.to_nat (Z.log2 n))).
Proof.
  intros H; split; [assumption|].
  rewrite Nat2Z.inj_succ, Z2Nat.id by apply Z.log2_nonneg.
  destruct (Z.eq_dec n 0) as [->|Hn]; [reflexivity|].
  apply Z.log2_spec; lia.
Qed.

Lemma digits_all_digits (n : Z) :
  Forall (fun b => is_digit b = true) (digits n).
Proof. apply digits_fuel_all_digits. Qed.

Lemma digits_not_nil (n : Z) : digits n <> [].
Proof. apply digits_fuel_not_nil. Qed.

Lemma digits_value_digits (n : Z) :
  0 <= n -> digits_value 0 false (digits n) = Some n.
Proof.
  intros H; unfold digits.
  rewrite <- (app_nil_r (digits_fuel _ n)).
  rewrite digits_value_digits_fuel by now apply digits_bound.
  reflexivity.
Qed.

Lemma lstrip_no_space (b : byte) (s : bytes) :
  is_space b = false -> lstrip (b :: s) = b :: s.
Proof. intros H; simpl; now rewrite H. Qed.

Lemma rstrip_no_space (s : bytes) :
  Forall (fun b => is_space b = false) s -> rstrip s = s.
Proof.
  induction 1 as [|b s Hb _ IH]; simpl; [reflexivity|].
  rewrite IH, Hb; now destruct s.
Qed.

(** The text of an integer: its characters, and its first one. *)
Lemma str_of_int_chars (n : Z) :
  Forall (fun b => is_digit b = true \/ b = x2d) (str_of_int n).
Proof.
  unfold str_of_int; destruct (n <? 0).
  - constructor; [now right|].
    eapply Forall_impl; [|apply digits_all_digits]; now left.
  - eapply Forall_impl; [|apply digits_all_digits]; now left.
Qed.

Lemma str_of_int_no_space (n : Z) :
  Forall (fun b => is_space b = false) (str_of_int n).
Proof.
  eapply Forall_impl; [|apply str_of_int_chars].
  intros b [H| ->]; [apply (is_digit_plain b H) | reflexivity].
Qed.

Lemma str_of_int_no_colon (n : Z) : ~ In x3a (str_of_int n).
Proof.
  intros H.
  pose proof (proj1 (Forall_forall _ _) (str_of_int_chars n) _ H) as [D|D];
    [apply is_digit_plain in D; now destruct D as (_ & _ & _ & D & _)
    | discriminate].
Qed.

Lemma str_of_int_no_semicolon (n : Z) : ~ In x3b (str_of_int n).
Proof.
  intros H.
  pose proof (proj1 (Forall_forall _ _) (str_of_int_chars n) _ H) as [D|D];
    [apply is_digit_plain in D; now destruct D as (_ & _ & _ & _ & D)
    | discriminate].
Qed.

Lemma int_of_bytes_str_of_int (n : Z) : int_of_bytes (str_of_int n) = Some n.
Proof.
  unfold int_of_bytes.
  pose proof (str_of_int_no_space n) as Hs.
  destruct (str_of_int n) as [|b t] eqn:E.
  - exfalso; unfold str_of_int in E; destruct (n <? 0); [discriminate|].
    now apply (digits_not_nil n).
  - rewrite lstrip_no_space by now inversion Hs.
    rewrite rstrip_no_space by assumption.
    unfold str_of_int in E; destruct (Z.ltb_spec n 0) as [Hn|Hn].
    + injection E as <- <-; simpl.
      rewrite digits_value_digits by lia; simpl; f_equal; lia.
    + pose proof (digits_all_digits n) as Hd; rewrite E in Hd.
      inversion Hd as [|? ? Hb _]; subst.
      destruct (is_digit_plain b Hb) as (_ & -> & -> & _).
      rewrite <- E; now apply digits_value_digits.
Qed.

Lemma int_str_of_int (n : Z) : int (str_of_int n) = Ok n.
Proof. unfold int; now rewrite int_of_bytes_str_of_int. Qed.

(** ** Steps of a method at a cursor *)

Lemma Ok_inj (A : Type) (a b : A) : Ok a = Ok b -> a = b.
Proof. congruence. Qed.

Lemma step_read_must (x pre suf : bytes) (A : Type) (k : M A) :
  (read_must x ;;; k) (cursor pre (x ++ suf)) = k (cursor (pre ++ x) suf).
Proof. unfold pbind; now rewrite read_must_cursor. Qed.

Lemma step_read_until (c : byte) (s pre suf : bytes) (A : Type)
  (k : bytes -> M A) :
  ~ In c s ->
  pbind (read_until [c]) k (cursor pre (s ++ [c] ++ suf))
  = k s (cursor (pre ++ s) ([c] ++ suf)).
Proof.
  intros H; unfold pbind; simpl app.
  now rewrite (read_until_cursor c s pre suf H).
Qed.

Lemma step_read_until_separator (s pre suf : bytes) (A : Type)
  (k : bytes -> M A) :
  ~ In x3a s ->
  pbind (read_until PHP_FIELD_SEPARATOR) k
    (cursor pre (s ++ PHP_FIELD_SEPARATOR ++ suf))
  = k s (cursor (pre ++ s) (PHP_FIELD_SEPARATOR ++ suf)).
Proof. exact (step_read_until x3a s pre suf A k). Qed.

Lemma step_read_until_end (s pre suf : bytes) (A : Type)
  (k : bytes -> M A) :
  ~ In x3b s ->
  pbind (read_until PHP_END_VALUE) k (cursor pre (s ++ PHP_END_VALUE ++ suf))
  = k s (cursor (pre ++ s) (PHP_END_VALUE ++ suf)).
Proof. exact (step_read_until x3b s pre suf A k). Qed.

Lemma step_read_bytes (x pre suf : bytes) (A : Type) (k : bytes -> M A) :
  pbind (read_bytes (Z.of_nat (length x))) k (cursor pre (x ++ suf))
  = k x (cursor (pre ++ x) suf).
Proof. unfold pbind; now rewrite read_bytes_cursor. Qed.

Lemma step_lift (A C : Type) (a : A) (k : A -> M C) (p : Parser) :
  pbind (lift (Ok a)) k p = k a p.
Proof. reflexivity. Qed.

Lemma step_ok (A C : Type) (m : M A) (k : A -> M C) (p p' : Parser) (a : A) :
  m p = Ok (a, p') -> pbind m k p = k a p'.
Proof. intros H; unfold pbind; now rewrite H. Qed.

(** ** The decoder reads back what the encoder writes *)

Section RoundTrip.

Variable float_of_bytes : bytes -> option spec_float.
Variable str_of_float : spec_float -> bytes.

(** The dispatch of [from_bytes] on each type byte. *)
Ltac dispatch b TAG pre suf :=
  cbn [from_bytes];
  replace (chunk 1 (cursor pre (TAG ++ suf))) with TAG
    by (symmetry; exact (chunk1_cursor b pre suf));
  reflexivity.

Lemma from_bytes_at_string (fuel : nat) (pre suf : bytes) :
  from_bytes float_of_bytes (S fuel) (cursor pre (PHP_STRING ++ suf))
  = _string_from_bytes (cursor pre (PHP_STRING ++ suf)).
Proof. dispatch x73 PHP_STRING pre suf. Qed.

Lemma from_bytes_at_int (fuel : nat) (pre suf : bytes) :
  from_bytes float_of_bytes (S fuel) (cursor pre (PHP_INT ++ suf))
  = _int_from_bytes (cursor pre (PHP_INT ++ suf)).
Proof. dispatch x69 PHP_INT pre suf. Qed.

Lemma from_bytes_at_bool (fuel : nat) (pre suf : bytes) :
  from_bytes float_of_bytes (S fuel) (cursor pre (PHP_BOOL ++ suf))
  = _bool_from_bytes (cursor pre (PHP_BOOL ++ suf)).
Proof. dispatch x62 PHP_BOOL pre suf. Qed.

Lemma from_bytes_at_null (fuel : nat) (pre suf : bytes) :
  from_bytes float_of_bytes (S fuel) (cursor pre (PHP_NULL ++ suf))
  = _null_from_bytes (cursor pre (PHP_NULL ++ suf)).
Proof. dispatch x4e PHP_NULL pre suf. Qed.

Lemma from_bytes_at_decimal (fuel : nat) (pre suf : bytes) :
  from_bytes float_of_bytes (S fuel) (cursor pre (PHP_DECIMAL ++ suf))
  = _decimal_from_bytes float_of_bytes (cursor pre (PHP_DECIMAL ++ suf)).
Proof. dispatch x64 PHP_DECIMAL pre suf. Qed.

Lemma from_bytes_at_array (fuel : nat) (pre suf : bytes) :
  from_bytes float_of_bytes (S fuel) (cursor pre (PHP_ARRAY ++ suf))
  = _array_from_bytes (from_bytes float_of_bytes fuel)
      (cursor pre (PHP_ARRAY ++ suf)).
Proof. dispatch x61 PHP_ARRAY pre suf. Qed.

Lemma from_bytes_at_object (fuel : nat) (pre suf : bytes) :
  from_bytes float_of_bytes (S fuel) (cursor pre (PHP_OBJECT ++ suf))
  = _object_from_bytes (from_bytes float_of_bytes fuel)
      (cursor pre (PHP_OBJECT ++ suf)).
Proof. dispatch x4f PHP_OBJECT pre suf. Qed.

(** Each scalar is read back from its encoding. *)
Lemma from_bytes_string (fuel : nat) (s pre suf : bytes) :
  from_bytes float_of_bytes (S fuel) (cursor pre (_string_to_bytes s ++ suf))
  = Ok (PyBytes s, cursor (pre ++ _string_to_bytes s) suf).
Proof.
  unfold _string_to_bytes; rewrite <- !app_assoc.
  rewrite from_bytes_at_string; unfold _string_from_bytes.
  rewrite !step_read_must.
  rewrite step_read_until_separator by apply str_of_int_no_colon.
  rewrite int_str_of_int, step_lift, !step_read_must, step_read_bytes.
  rewrite !step_read_must; unfold ret.
  now rewrite <- !app_assoc.
Qed.

Lemma from_bytes_int (fuel : nat) (n : Z) (pre suf : bytes) :
  from_bytes float_of_bytes (S fuel) (cursor pre (_int_to_bytes n ++ suf))
  = Ok (PyInt n, cursor (pre ++ _int_to_bytes n) suf).
Proof.
  unfold _int_to_bytes; rewrite <- !app_assoc.
  rewrite from_bytes_at_int; unfold _int_from_bytes.
  rewrite !step_read_must.
  rewrite step_read_until_end by apply str_of_int_no_semicolon.
  rewrite int_str_of_int, step_lift, !step_read_must; unfold ret.
  now rewrite <- !app_assoc.
Qed.

Lemma from_bytes_bool (fuel : nat) (b : bool) (pre suf : bytes) :
  from_bytes float_of_bytes (S fuel) (cursor pre (_bool_to_bytes b ++ suf))
  = Ok (PyBool b, cursor (pre ++ _bool_to_bytes b) suf).
Proof.
  unfold _bool_to_bytes; rewrite <- !app_assoc.
  rewrite from_bytes_at_bool; unfold _bool_from_bytes.
  rewrite !step_read_must.
  rewrite step_read_until_end by apply str_of_int_no_semicolon.
  rewrite int_str_of_int, step_lift, !step_read_must; unfold ret.
  rewrite <- !app_assoc; now destruct b.
Qed.

Lemma from_bytes_float (fuel : nat) (f : spec_float) (pre suf : bytes) :
  float_round_trips float_of_bytes str_of_float f ->
  from_bytes float_of_bytes (S fuel)
    (cursor pre (_float_to_bytes str_of_float f ++ suf))
  = Ok (PyFloat f, cursor (pre ++ _float_to_bytes str_of_float f) suf).
Proof.
  intros [Hf Hsemi].
  unfold _float_to_bytes; rewrite <- !app_assoc.
  rewrite from_bytes_at_decimal; unfold _decimal_from_bytes.
  rewrite !step_read_must.
  rewrite step_read_until_end by assumption.
  unfold float; rewrite Hf, step_lift, !step_read_must; unfold ret.
  now rewrite <- !app_assoc.
Qed.

Lemma height_pairs_cons (k x : value) (l : list (value * value)) :
  height (PyList ((k, x) :: l))
  = Nat.max (S (Nat.max (height k) (height x))) (height (PyList l)).
Proof. simpl; lia. Qed.

Lemma floats_round_trip_pairs_cons (k x : value) (l : list (value * value)) :
  floats_round_trip float_of_bytes str_of_float (PyList ((k, x) :: l))
  <-> floats_round_trip float_of_bytes str_of_float k
      /\ floats_round_trip float_of_bytes str_of_float x
      /\ floats_round_trip float_of_bytes str_of_float (PyList l).
Proof. reflexivity. Qed.

(** The pairs of a list are read back one after the other. *)
Lemma read_pairs_encoded (fuel : nat) (items : list (value * value)) :
  ForallPairs (reads_back float_of_bytes str_of_float) items ->
  forall parts,
    pairs_to_bytes (to_bytes str_of_float) items = Ok parts ->
    floats_round_trip float_of_bytes str_of_float (PyList items) ->
    (height (PyList items) <= fuel)%nat ->
    forall pre suf,
      read_pairs (from_bytes float_of_bytes fuel) (length items)
        (cursor pre (concat parts ++ suf))
      = Ok (items, cursor (pre ++ concat parts) suf).
Proof.
  induction 1 as [|[k x] items [Hk Hx] _ IH]; intros parts Henc Hfl Hh pre suf.
  - injection Henc as <-; simpl; unfold ret; now rewrite app_nil_r.
  - unfold pairs_to_bytes in Henc; cbn [mapM fst snd bind] in Henc.
    destruct (to_bytes str_of_float k) as [ke| |] eqn:Ek; try discriminate.
    destruct (to_bytes str_of_float x) as [xe| |] eqn:Ex; try discriminate.
    cbn [bind] in Henc.
    destruct (mapM _ items) as [parts'| |] eqn:Ep; try discriminate.
    injection Henc as <-.
    destruct (proj1 (floats_round_trip_pairs_cons k x items) Hfl)
      as (Fk & Fx & Fl).
    simpl in Hk, Hx.
    rewrite height_pairs_cons in Hh.
    cbn [length read_pairs concat]; rewrite <- !app_assoc.
    rewrite (step_ok _ _ _ _ _ _ _ (Hk ke Ek Fk fuel pre _ ltac:(lia))).
    rewrite (step_ok _ _ _ _ _ _ _ (Hx xe Ex Fx fuel (pre ++ ke) _ ltac:(lia))).
    rewrite (step_ok _ _ _ _ _ _ _
               (IH parts' Ep Fl ltac:(lia) ((pre ++ ke) ++ xe) suf)).
    unfold ret; now rewrite <- !app_assoc.
Qed.

(** The decoder inverts the encoder, at any position of a stream. *)
Lemma from_bytes_to_bytes (v : value) :
  reads_back float_of_bytes str_of_float v.
Proof.
  induction v as [|b|n|f|s|items IH|c props IH|s] using value_induction;
    intros enc Henc Hfl fuel pre suf Hh;
    (destruct fuel as [|fuel]; [lia|]); cbn [to_bytes] in Henc;
    try discriminate; try (injection Henc as <-).
  - apply from_bytes_bool.
  - apply from_bytes_int.
  - now apply from_bytes_float.
  - apply from_bytes_string.
  - unfold _array_to_bytes in Henc.
    destruct (pairs_to_bytes _ items) as [parts| |] eqn:Ep; try discriminate.
    apply Ok_inj in Henc; subst enc; rewrite <- !app_assoc.
    rewrite from_bytes_at_array; unfold _array_from_bytes.
    rewrite !step_read_must.
    rewrite step_read_until_separator by apply str_of_int_no_colon.
    rewrite int_str_of_int, step_lift, !step_read_must, Nat2Z.id.
    rewrite (step_ok _ _ _ _ _ _ _
               (read_pairs_encoded fuel items IH parts Ep Hfl
                  ltac:(lia) _ _)).
    rewrite !step_read_must; unfold ret.
    now rewrite <- !app_assoc.
  - unfold _object_to_bytes in Henc.
    destruct (pairs_to_bytes _ props) as [parts| |] eqn:Ep; try discriminate.
    apply Ok_inj in Henc; subst enc; rewrite <- !app_assoc.
    rewrite from_bytes_at_object; unfold _object_from_bytes.
    rewrite !step_read_must.
    rewrite step_read_until_separator by apply str_of_int_no_colon.
    rewrite int_str_of_int, step_lift, !step_read_must, step_read_bytes.
    rewrite !step_read_must.
    rewrite step_read_until_separator by apply str_of_int_no_colon.
    rewrite int_str_of_int, step_lift, !step_read_must, Nat2Z.id.
    rewrite (step_ok _ _ _ _ _ _ _
               (read_pairs_encoded fuel props IH parts Ep Hfl
                  ltac:(exact Hh || (simpl in Hh |- *; lia)) _ _)).
    rewrite !step_read_must; unfold ret.
    now rewrite <- !app_assoc.
Qed.

End RoundTrip.

(** ** Round trip through the two entry points *)

Section EntryPoints.

Variable float_of_bytes : bytes -> option spec_float.
Variable str_of_float : spec_float -> bytes.

Lemma pairs_height_le_length (items : list (value * value)) :
  ForallPairs (fun v => forall enc, to_bytes str_of_float v = Ok enc ->
                 (height v <= length enc)%nat) items ->
  forall parts,
    pairs_to_bytes (to_bytes str_of_float) items = Ok parts ->
    (height (PyList items) <= S (length (concat parts)))%nat.
Proof.
  induction 1 as [|[k x] items [Hk Hx] _ IH]; intros parts Henc.
  - simpl; lia.
  - unfold pairs_to_bytes in Henc; cbn [mapM fst snd bind] in Henc.
    destruct (to_bytes str_of_float k) as [ke| |] eqn:Ek; try discriminate.
    destruct (to_bytes str_of_float x) as [xe| |] eqn:Ex; try discriminate.
    cbn [bind] in Henc.
    destruct (mapM _ items) as [parts'| |] eqn:Ep; try discriminate.
    apply Ok_inj in Henc; subst parts.
    rewrite height_pairs_cons; cbn [concat]; rewrite !length_app.
    specialize (IH parts' Ep); simpl in Hk, Hx.
    specialize (Hk ke Ek); specialize (Hx xe Ex); lia.
Qed.

(** An encoding is at least as long as the value is deep. *)
Lemma height_le_length (v : value) :
  forall enc, to_bytes str_of_float v = Ok enc ->
              (height v <= length enc)%nat.
Proof.
  induction v as [|b|n|f|s|items IH|c props IH|s] using value_induction;
    intros enc Henc; cbn [to_bytes] in Henc; try discriminate;
    try (simpl; lia).
  - unfold _array_to_bytes in Henc.
    destruct (pairs_to_bytes _ items) as [parts| |] eqn:Ep; try discriminate.
    apply Ok_inj in Henc; subst enc.
    pose proof (pairs_height_le_length items IH parts Ep) as H.
    rewrite !length_app; simpl length at 1; lia.
  - unfold _object_to_bytes in Henc.
    destruct (pairs_to_bytes _ props) as [parts| |] eqn:Ep; try discriminate.
    apply Ok_inj in Henc; subst enc.
    pose proof (pairs_height_le_length props IH parts Ep) as H.
    change (height (PyObject c props)) with (height (PyList props)).
    rewrite !length_app; simpl length at 1; lia.
Qed.

(** [php_unserialize] inverts [php_serialize]. *)
Lemma php_unserialize_php_serialize (v : value) (b : bytes) :
  php_serialize str_of_float v = Ok b ->
  floats_round_trip float_of_bytes str_of_float v ->
  php_unserialize float_of_bytes b = Ok v.
Proof.
  intros Henc Hfl; unfold php_unserialize.
  pose proof (height_le_length v b Henc) as Hh.
  pose proof (from_bytes_to_bytes float_of_bytes str_of_float v b Henc Hfl
                (S (length b)) [] [] ltac:(lia)) as H.
  rewrite app_nil_r in H; rewrite reset_cursor, H; reflexivity.
Qed.

End EntryPoints.

(** C1, as amended.  For every byte sequence [b] that the encoder produces
    for a value [v] (such a value holds no [None]) whose floats are printed
    as a text that [float()] reads back to the same float, the decoder
    returns [v] from [b], and encoding the decoded value gives [b] again,
    byte for byte. *)
Theorem round_trip_of_encodings
  (float_of_bytes : bytes -> option spec_float)
  (str_of_float : spec_float -> bytes) (v : value) (b : bytes) :
  php_serialize str_of_float v = Ok b ->
  floats_round_trip float_of_bytes str_of_float v ->
  php_unserialize float_of_bytes b = Ok v
  /\ (decoded <-- php_unserialize float_of_bytes b ;;
      php_serialize str_of_float decoded) = Ok b.
Proof.
  intros Henc Hfl.
  pose proof (php_unserialize_php_serialize float_of_bytes str_of_float
                v b Henc Hfl) as H.
  split; [exact H | now rewrite H].
Qed.

(** The round trip of an object that holds a list, a float, a boolean and
    strings. *)
Lemma round_trip_of_encodings_witness :
  let v := PyObject (B "Person")
             [ (PyBytes (B "name"), PyBytes (B "Jane"));
               (PyBytes (B "age"), PyInt 25);
               (PyBytes (B "scores"),
                PyList [ (PyInt 0, PyFloat float_124_56);
                         (PyInt (-1), PyBool true) ]) ] in
  let b := BQ "O:6:'Person':3:{s:4:'name';s:4:'Jane';s:3:'age';i:25;s:6:'scores';a:2:{i:0;d:124.56;i:-1;b:1;}}" in
  php_unserialize sample_float_of_bytes b = Ok v
  /\ (decoded <-- php_unserialize sample_float_of_bytes b ;;
      php_serialize sample_str_of_float decoded) = Ok b.
Proof.
  intros v b.
  apply (round_trip_of_encodings sample_float_of_bytes sample_str_of_float v b).
  - vm_compute; reflexivity.
  - simpl; repeat split; vm_compute; intuition discriminate.
Defined.

(** C1, as stated, fails: the decoder accepts [i:07;], and the decoded
    value is encoded as [i:7;]. *)
Lemma round_trip_counterexample :
  php_unserialize sample_float_of_bytes (B "i:07;") = Ok (PyInt 7)
  /\ (decoded <-- php_unserialize sample_float_of_bytes (B "i:07;") ;;
      php_serialize sample_str_of_float decoded) = Ok (B "i:7;")
  /\ B "i:7;" <> B "i:07;".
Proof. repeat split; vm_compute; (reflexivity || discriminate). Qed.

(** ** The encoder: which values it accepts *)

Section Encoder.

Variable str_of_float : spec_float -> bytes.

Lemma pairs_to_bytes_ok_iff (items : list (value * value)) :
  ForallPairs (fun v => (exists b, to_bytes str_of_float v = Ok b)
                        <-> in_model v && none_free v = true) items ->
  (exists parts, pairs_to_bytes (to_bytes str_of_float) items = Ok parts)
  <-> in_model (PyList items) && none_free (PyList items) = true.
Proof.
  induction 1 as [|[k x] items [Hk Hx] _ IH]; simpl in *.
  - split; [reflexivity | now exists []].
  - unfold pairs_to_bytes in *; cbn [mapM fst snd].
    rewrite !andb_true_iff in *.
    split.
    + intros [parts Hp].
      destruct (to_bytes str_of_float k) as [ke| |]; try discriminate.
      destruct (to_bytes str_of_float x) as [xe| |]; try discriminate.
      cbn [bind] in Hp.
      destruct (mapM _ items) as [parts'| |]; try discriminate.
      destruct (proj1 Hk (ex_intro _ ke eq_refl)) as [-> ->].
      destruct (proj1 Hx (ex_intro _ xe eq_refl)) as [-> ->].
      destruct (proj1 IH (ex_intro _ parts' eq_refl)) as [-> ->].
      now repeat split.
    + intros [[[Mk Mx] Ml] [[Nk Nx] Nl]].
      destruct (proj2 Hk (conj Mk Nk)) as [ke ->].
      destruct (proj2 Hx (conj Mx Nx)) as [xe ->].
      destruct (proj2 IH (conj Ml Nl)) as [parts' ->].
      now eexists.
Qed.

(** [to_bytes] succeeds exactly on the values of the data model that hold
    no [None]. *)
Lemma to_bytes_ok_iff (v : value) :
  (exists b, to_bytes str_of_float v = Ok b)
  <-> in_model v && none_free v = true.
Proof.
  induction v as [|b|n|f|s|items IH|c props IH|s] using value_induction;
    cbn [to_bytes];
    try (split; [reflexivity | intros _; now eexists]);
    try (split; [intros [? H]; discriminate | discriminate]).
  - rewrite <- (pairs_to_bytes_ok_iff items IH); unfold _array_to_bytes.
    split.
    + intros [b Hb].
      destruct (pairs_to_bytes _ items) as [parts| |]; try discriminate.
      now exists parts.
    + intros [parts ->]; now eexists.
  - change (in_model (PyObject c props)) with (in_model (PyList props)).
    change (none_free (PyObject c props)) with (none_free (PyList props)).
    rewrite <- (pairs_to_bytes_ok_iff props IH); unfold _object_to_bytes.
    split.
    + intros [b Hb].
      destruct (pairs_to_bytes _ props) as [parts| |]; try discriminate.
      now exists parts.
    + intros [parts ->]; now eexists.
Qed.

(** When [to_bytes] fails, it raises [SerializeError] for a [None] or for
    a host value of another type found in the value. *)
Lemma to_bytes_failure (v : value) :
  match to_bytes str_of_float v with
  | Ok _ => True
  | Raise (SerializeError w) => w = PyNone \/ exists s, w = PyStr s
  | Raise _ | OutOfFuel => False
  end.
Proof.
  induction v as [|b|n|f|s|items IH|c props IH|s] using value_induction;
    cbn [to_bytes]; try exact I; try (now left); try (right; now eexists).
  - unfold _array_to_bytes, pairs_to_bytes.
    induction IH as [|[k x] items [Hk Hx] _ IHl]; [exact I|].
    cbn [mapM fst snd] in *.
    destruct (to_bytes str_of_float k) as [ke|[]|]; cbn [bind];
      try assumption.
    destruct (to_bytes str_of_float x) as [xe|[]|]; cbn [bind];
      try assumption.
    destruct (mapM _ items) as [parts|[]|]; cbn [bind] in *;
      try assumption; exact I.
  - unfold _object_to_bytes, pairs_to_bytes.
    induction IH as [|[k x] props [Hk Hx] _ IHl]; [exact I|].
    cbn [mapM fst snd] in *.
    destruct (to_bytes str_of_float k) as [ke|[]|]; cbn [bind];
      try assumption.
    destruct (to_bytes str_of_float x) as [xe|[]|]; cbn [bind];
      try assumption.
    destruct (mapM _ props) as [parts|[]|]; cbn [bind] in *;
      try assumption; exact I.
Qed.

End Encoder.

(** C2, at the failing input.  [None] belongs to the data model, the
    decoder returns it for [N;] and the query parser for [null], but the
    encoder has no case for it: [php_serialize(None)] raises
    [SerializeError], alone or inside a list, and so does [php_modify] on
    a stream that holds a null. *)
Theorem serialize_none_raises
  (float_of_bytes : bytes -> option spec_float)
  (str_of_float : spec_float -> bytes) :
  in_model PyNone = true
  /\ php_unserialize float_of_bytes (B "N;") = Ok PyNone
  /\ php_serialize str_of_float PyNone = Raise (SerializeError PyNone)
  /\ php_serialize str_of_float (PyList [(PyInt 0, PyNone)])
     = Raise (SerializeError PyNone)
  /\ php_modify float_of_bytes str_of_float (B "N;") (B "G:")
     = Raise (SerializeError PyNone).
Proof. repeat split. Qed.

(** ** [_set] *)

(** The loop of [_set] updates every pair independently of the others. *)
Lemma set_loop_mapM (key : value) (set_rest : value -> result value)
  (structure : list (value * value)) :
  forall modified_data value_must_be_created,
    set_loop key set_rest structure modified_data value_must_be_created
    = (updated <-- mapM (set_pair key set_rest) structure ;;
       Ok (modified_data ++ updated,
           value_must_be_created
           && negb (existsb (fun kv => py_eq key (fst kv)) structure))).
Proof.
  induction structure as [|[k x] tl IH]; intros acc flag; cbn [set_loop].
  - simpl; now rewrite app_nil_r, andb_true_r.
  - cbn [mapM existsb fst]; unfold set_pair at 1; cbn [fst snd].
    destruct (py_eq key k).
    + destruct (set_rest x) as [x'| |]; cbn [bind]; try reflexivity.
      rewrite IH.
      destruct (mapM _ tl); cbn [bind]; try reflexivity.
      now rewrite <- app_assoc, andb_false_r.
    + cbn [bind]; rewrite IH.
      destruct (mapM _ tl); cbn [bind]; try reflexivity.
      now rewrite <- app_assoc.
Qed.

Lemma mapM_set_pair_no_match (key : value) (set_rest : value -> result value)
  (items : list (value * value)) :
  existsb (fun kv => py_eq key (fst kv)) items = false ->
  mapM (set_pair key set_rest) items = Ok items.
Proof.
  induction items as [|kv tl IH]; cbn [existsb mapM]; [reflexivity|].
  intros H; apply orb_false_iff in H as [Hk Htl].
  unfold set_pair at 1; rewrite Hk; cbn [bind]; now rewrite IH.
Qed.

(** On the empty list [_set] creates the whole path. *)
Lemma _set_creates (selector : list value) (v : value) :
  _set selector v (PyList []) = Ok (created selector v).
Proof.
  induction selector as [|key rest IH]; [reflexivity|].
  cbn [_set set_loop bind created]; now rewrite IH.
Qed.

(** C3, as amended.  On a list and a non-empty selector, [_set] replaces
    the value of every pair whose key equals the first key of the selector
    by the result of the recursive call (whose exception, if any, is the
    outcome); when no key matches it appends one pair, the first key with
    the path that the rest of the selector creates from an empty list. *)
Theorem set_on_array (key : value) (rest : list value) (v : value)
  (items : list (value * value)) :
  _set (key :: rest) v (PyList items)
  = (if existsb (fun kv => py_eq key (fst kv)) items
     then modified <-- mapM (set_pair key (_set rest v)) items ;;
          Ok (PyList modified)
     else Ok (PyList (items ++ [(key, created rest v)])))
  /\ _set [PyInt 2; PyInt 1] (PyInt 3)
       (PyList [(PyInt 0, PyInt 0); (PyInt 1, PyInt 1)])
     = Ok (PyList [(PyInt 0, PyInt 0); (PyInt 1, PyInt 1);
                   (PyInt 2, PyList [(PyInt 1, PyInt 3)])]).
Proof.
  split; [|reflexivity].
  cbn [_set]; rewrite set_loop_mapM.
  destruct (existsb _ items) eqn:E.
  - destruct (mapM _ items); reflexivity.
  - rewrite (mapM_set_pair_no_match key (_set rest v) items E).
    cbn [bind app andb negb]; now rewrite _set_creates.
Qed.

(** C3, as stated, fails when a key occurs twice: the source replaces both
    values, the specification only the first. *)
Lemma set_first_match_counterexample :
  _set [PyInt 0] (PyInt 9) (PyList [(PyInt 0, PyInt 1); (PyInt 0, PyInt 2)])
  = Ok (PyList [(PyInt 0, PyInt 9); (PyInt 0, PyInt 9)])
  /\ spec_set [PyInt 0] (PyInt 9)
       (PyList [(PyInt 0, PyInt 1); (PyInt 0, PyInt 2)])
     = Ok (PyList [(PyInt 0, PyInt 9); (PyInt 0, PyInt 2)])
  /\ _set [PyInt 0] (PyInt 9)
       (PyList [(PyInt 0, PyInt 1); (PyInt 0, PyInt 2)])
     <> spec_set [PyInt 0] (PyInt 9)
          (PyList [(PyInt 0, PyInt 1); (PyInt 0, PyInt 2)]).
Proof. repeat split; discriminate. Qed.

(** ** Key equality *)

Lemma get_loop_none (seg : value) (items : list (value * value)) :
  (forall kv, In kv items -> py_eq (fst kv) seg = false) ->
  get_loop seg items = None.
Proof.
  induction items as [|[k x] tl IH]; intros H; cbn [get_loop];
    [reflexivity|].
  pose proof (H (k, x) (or_introl eq_refl)) as Hk; simpl in Hk.
  rewrite Hk; apply IH.
  intros kv Hin; apply H; now right.
Qed.

(** The loop of [_get] finds the first pair whose key is equal to the
    segment. *)
Lemma get_loop_find (seg : value) (items : list (value * value)) :
  get_loop seg items
  = option_map snd (find (fun kv => py_eq (fst kv) seg) items).
Proof.
  induction items as [|[k x] tl IH]; cbn [get_loop find fst];
    [reflexivity|].
  now destruct (py_eq k seg).
Qed.

(** C4, as amended.  Get, Set and Delete compare a key with a selector
    segment by the equality of Python values, on every pair of a list
    and of an object alike.  The first six parts say what this equality
    is on strings and numbers: a [bytes] is equal only to a [bytes] with
    the same content, so that the key [1] never matches the segment
    [b"1"]; [bool], [int] and [float] compare by numeric value across
    the three types, [True] counting as 1 and [False] as 0.  The next
    four say that it is the test of the three operations: Get returns
    from the first pair whose key is equal to the segment, Set replaces
    under every key that the segment is equal to and appends when there
    is none, Delete removes (one segment) or enters (more segments) every
    pair whose key is equal to the segment.  The last say what follows
    for a pair that is not the first, in a list or in an object: the key
    [1] is found by the segments [True] and [1.0], the key [True] by the
    segment [1], and the key [1] is not found by the segment [b"1"]. *)
Theorem key_equality :
  (forall s v, py_eq (PyBytes s) v
               = match v with PyBytes t => bytes_eqb s t | _ => false end)
  /\ (forall s v, py_eq v (PyBytes s)
                  = match v with PyBytes t => bytes_eqb t s | _ => false end)
  /\ (forall n m b c,
        py_eq (PyInt n) (PyInt m) = (n =? m)
        /\ py_eq (PyInt n) (PyBool b) = (n =? Z.b2z b)
        /\ py_eq (PyBool b) (PyInt n) = (Z.b2z b =? n)
        /\ py_eq (PyBool b) (PyBool c) = (Z.b2z b =? Z.b2z c))
  /\ (forall n b f g,
        py_eq (PyInt n) (PyFloat f) = float_eq_int f n
        /\ py_eq (PyFloat f) (PyInt n) = float_eq_int f n
        /\ py_eq (PyBool b) (PyFloat f) = float_eq_int f (Z.b2z b)
        /\ py_eq (PyFloat f) (PyBool b) = float_eq_int f (Z.b2z b)
        /\ py_eq (PyFloat f) (PyFloat g) = SFeqb f g)
  /\ (float_eq_int float_1_0 1 = true
      /\ forall n, float_eq_int float_1_0 n = (n =? 1))
  /\ (py_eq (PyInt 1) (PyBytes (B "1")) = false
      /\ py_eq (PyInt 1) (PyBool true) = true
      /\ py_eq (PyInt 1) (PyFloat float_1_0) = true
      /\ py_eq (PyBool true) (PyInt 1) = true
      /\ py_eq (PyBool true) (PyFloat float_1_0) = true)
  /\ (forall class_name seg rest items,
        _get (seg :: rest) (container class_name items)
        = match find (fun kv => py_eq (fst kv) seg) items with
          | Some kv => _get rest (snd kv)
          | None => PyNone
          end)
  /\ (forall class_name seg rest v items,
        _set (seg :: rest) v (container class_name items)
        = if existsb (fun kv => py_eq seg (fst kv)) items
          then modified <-- mapM (set_pair seg (_set rest v)) items ;;
               Ok (container class_name modified)
          else Ok (container class_name
                     (items ++ [(seg, created rest v)])))
  /\ (forall class_name seg items,
        _delete [seg] (container class_name items)
        = Ok (container class_name
                (filter (fun kv => negb (py_eq (fst kv) seg)) items)))
  /\ (forall class_name seg seg' rest items,
        _delete (seg :: seg' :: rest) (container class_name items)
        = (modified <--
             mapM (fun kv =>
                     if py_eq (fst kv) seg
                     then x <-- _delete (seg' :: rest) (snd kv) ;;
                          Ok (fst kv, x)
                     else Ok kv) items ;;
           Ok (container class_name modified)))
  /\ (forall class_name x0 x v,
        let first := (PyBytes (B "a"), x0) in
        _get [PyBool true] (container class_name [first; (PyInt 1, x)]) = x
        /\ _get [PyFloat float_1_0]
             (container class_name [first; (PyInt 1, x)]) = x
        /\ _get [PyInt 1] (container class_name [first; (PyBool true, x)])
           = x
        /\ _get [PyBytes (B "1")]
             (container class_name [first; (PyInt 1, x)]) = PyNone
        /\ _set [PyBool true] v (container class_name [first; (PyInt 1, x)])
           = Ok (container class_name [first; (PyInt 1, v)])
        /\ _set [PyInt 1] v
             (container class_name [first; (PyBool true, x)])
           = Ok (container class_name [first; (PyBool true, v)])
        /\ _set [PyBytes (B "1")] v
             (container class_name [first; (PyInt 1, x)])
           = Ok (container class_name
                   [first; (PyInt 1, x); (PyBytes (B "1"), v)])
        /\ _delete [PyBool true]
             (container class_name [first; (PyInt 1, x)])
           = Ok (container class_name [first])
        /\ _delete [PyInt 1]
             (container class_name [first; (PyBool true, x)])
           = Ok (container class_name [first])
        /\ _delete [PyBytes (B "1")]
             (container class_name [first; (PyInt 1, x)])
           = Ok (container class_name [first; (PyInt 1, x)])).
Proof.
  split; [intros s v; now destruct v|].
  split; [intros s v; now destruct v|].
  split; [intros n m b c; repeat split; now destruct b, c|].
  split; [intros n b f g; repeat split|].
  split.
  { split; [reflexivity|].
    intros n; unfold float_eq_int, float_1_0.
    change (0 <=? -52) with false; cbv iota.
    change (- -52) with 52.
    change (Z.pos 4503599627370496 mod 2 ^ 52 =? 0) with true.
    change (Z.pos 4503599627370496 / 2 ^ 52) with 1.
    reflexivity. }
  split; [repeat split|].
  split.
  { intros [c|] seg rest items; cbn [container _get];
      rewrite get_loop_find;
      now destruct (find (fun kv => py_eq (fst kv) seg) items). }
  split.
  { intros [c|] seg rest v items; cbn [container _set];
      rewrite set_loop_mapM;
      (destruct (existsb _ items) eqn:E;
       [destruct (mapM _ items); reflexivity
       |rewrite (mapM_set_pair_no_match seg (_set rest v) items E);
        cbn [bind app andb negb]; now rewrite _set_creates]). }
  split; [intros [c|] seg items; reflexivity|].
  split.
  { intros [c|] seg seg' rest items; cbn [container _delete];
      now destruct (mapM _ items). }
  intros [c|] x0 x v first; repeat split.
Qed.

(** C4, as stated, fails: the key [1] and the segment [True], or the
    segment [1.0], are of different variants and match; the same happens
    on a decoded stream queried with a parsed expression. *)
Lemma key_equality_counterexample :
  same_variant (PyInt 1) (PyBool true) = false
  /\ _get [PyBool true] (PyList [(PyInt 1, PyInt 5)]) = PyInt 5
  /\ same_variant (PyInt 1) (PyFloat float_1_0) = false
  /\ _get [PyFloat float_1_0] (PyList [(PyInt 1, PyInt 5)]) = PyInt 5
  /\ php_unserialize sample_float_of_bytes (B "a:1:{b:1;i:5;}")
     = Ok (PyList [(PyBool true, PyInt 5)])
  /\ run sample_float_of_bytes (PyList [(PyBool true, PyInt 5)]) (B "G:1")
     = Ok (PyInt 5).
Proof. repeat split. Qed.

(** ** [_delete] and [_get] *)

Lemma filter_subsequence (A : Type) (f : A -> bool) (l : list A) :
  subsequence (filter f l) l.
Proof.
  induction l as [|x l IH]; cbn [filter]; [constructor|].
  destruct (f x); now constructor.
Qed.

(** C5.  With a selector of one key, [_delete] on a list returns the pairs
    whose key is not equal to that key: every matching pair is removed,
    not only the first, and the pairs that are left are all the others, in
    their order.  In particular, for a key [k] equal to itself and a key
    [j] not equal to it, deleting [k] from [[(k, a), (k, b), (j, c)]]
    leaves [[(j, c)]]. *)
Theorem delete_removes_all_matches (k : value)
  (items : list (value * value)) :
  (exists survivors,
      _delete [k] (PyList items) = Ok (PyList survivors)
      /\ survivors = filter (fun kv => negb (py_eq (fst kv) k)) items
      /\ Forall (fun kv => py_eq (fst kv) k = false) survivors
      /\ (forall kv, In kv survivors
                     <-> In kv items /\ py_eq (fst kv) k = false)
      /\ subsequence survivors items)
  /\ (forall j a b c,
        py_eq k k = true -> py_eq j k = false ->
        _delete [k] (PyList [(k, a); (k, b); (j, c)])
        = Ok (PyList [(j, c)])).
Proof.
  split.
  - eexists; split; [reflexivity|]; split; [reflexivity|].
    split; [|split].
    + apply Forall_forall; intros kv H; apply filter_In in H as [_ H].
      now apply negb_true_iff.
    + intros kv; rewrite filter_In, negb_true_iff; reflexivity.
    + apply filter_subsequence.
  - intros j a b c Hk Hj; cbn [_delete filter fst bind].
    now rewrite Hk, Hj.
Qed.

Lemma delete_removes_all_matches_witness :
  py_eq (PyBytes (B "k")) (PyBytes (B "k")) = true
  /\ py_eq (PyBytes (B "j")) (PyBytes (B "k")) = false
  /\ _delete [PyBytes (B "k")]
       (PyList [(PyBytes (B "k"), PyInt 1); (PyBytes (B "k"), PyInt 2);
                (PyBytes (B "j"), PyInt 3)])
     = Ok (PyList [(PyBytes (B "j"), PyInt 3)]).
Proof.
  split; [reflexivity | split; [reflexivity|]].
  apply (proj2 (delete_removes_all_matches (PyBytes (B "k")) [])
           (PyBytes (B "j")) (PyInt 1) (PyInt 2) (PyInt 3));
    reflexivity.
Defined.

(** C6.  With the empty selector, [_get] returns the structure itself and
    [_delete] returns it unchanged, without an exception. *)
Theorem empty_selector_identities (T : value) :
  _get [] T = T /\ _delete [] T = Ok T.
Proof. split; reflexivity. Qed.

(** C7.  With a non-empty selector, [_get] returns [None] on a list none
    of whose keys equals the first key of the selector, and on every
    structure that is neither a list nor an object.  [_get] is a total
    function to values: it has no exceptional outcome. *)
Theorem get_absent_is_none (seg : value) (rest : list value) (tree : value) :
  (exists items, tree = PyList items
                 /\ forall kv, In kv items -> py_eq (fst kv) seg = false)
  \/ (is_list tree = false /\ is_object tree = false) ->
  _get (seg :: rest) tree = PyNone.
Proof.
  intros [(items & -> & H) | [Hl Ho]].
  - cbn [_get]; now rewrite (get_loop_none seg items H).
  - destruct tree; try reflexivity; discriminate.
Qed.

(** [Get([1], Array([])) == Null]. *)
Lemma get_absent_is_none_witness : _get [PyInt 1] (PyList []) = PyNone.
Proof.
  apply (get_absent_is_none (PyInt 1) [] (PyList [])).
  left; exists []; split; [reflexivity|].
  intros kv H; destruct H.
Defined.

(** ** [read_until] *)

Lemma bytes_find_some (sub s : bytes) (i : nat) :
  bytes_find sub s = Some i ->
  (i <= length s)%nat
  /\ is_prefix sub (skipn i s) = true
  /\ forall j, (j < i)%nat -> is_prefix sub (skipn j s) = false.
Proof.
  revert i; induction s as [|b s IH]; intros i; cbn [bytes_find].
  - destruct (is_prefix sub []) eqn:E; [|discriminate].
    intros [= <-]; repeat split; [lia | assumption | lia].
  - destruct (is_prefix sub (b :: s)) eqn:E.
    + intros [= <-]; repeat split; [simpl; lia | assumption | lia].
    + destruct (bytes_find sub s) as [i'|]; [|discriminate].
      intros [= <-]; destruct (IH i' eq_refl) as (Hl & Hp & Hj).
      repeat split; [simpl; lia | assumption |].
      intros [|j] Hlt; [assumption | apply Hj; lia].
Qed.

Lemma bytes_find_none (sub s : bytes) :
  bytes_find sub s = None ->
  forall j, (j <= length s)%nat -> is_prefix sub (skipn j s) = false.
Proof.
  induction s as [|b s IH]; cbn [bytes_find].
  - destruct (is_prefix sub []) eqn:E; [discriminate|].
    intros _ j Hj; now rewrite skipn_nil.
  - destruct (is_prefix sub (b :: s)) eqn:E; [discriminate|].
    destruct (bytes_find sub s); [discriminate|].
    intros _ [|j] Hj; [assumption | apply IH; [reflexivity | simpl in Hj; lia]].
Qed.

(** When the marker occurs in what is left, [read_until] returns the
    bytes in front of its first occurrence and stops there: the marker is
    what comes next. *)
Lemma read_until_found (stop : bytes) (p : Parser) (i : nat) :
  stop <> [] ->
  bytes_find stop (skipn (current p) (data p)) = Some i ->
  read_until stop p
  = Ok (firstn i (skipn (current p) (data p)), next_byte i p)
  /\ is_prefix stop (skipn (current (next_byte i p)) (data p)) = true.
Proof.
  intros Hs Hf; destruct (bytes_find_some _ _ _ Hf) as (Hl & Hp & _).
  unfold read_until, split1; destruct stop as [|c stop]; [contradiction|].
  rewrite Hf, length_firstn, Nat.min_l by assumption.
  split; [reflexivity|].
  simpl; now rewrite Nat.add_comm, <- skipn_skipn.
Qed.

(** When it does not occur, the unpacking of the result of [split] raises
    [ValueError]; no [ParseError] is raised. *)
Lemma read_until_missing (stop : bytes) (p : Parser) :
  bytes_find stop (skipn (current p) (data p)) = None ->
  exists text, read_until stop p = Raise (ValueError text).
Proof.
  intros Hf; unfold read_until, split1.
  destruct stop; [now eexists|].
  rewrite Hf; now eexists.
Qed.

(** C8, at the failing input.  In [i:12] no [;] follows the digits:
    [read_until(b";")] raises the [ValueError] of a failed unpacking, and
    so does [php_unserialize], where [read_must] at the end of the same
    stream raises a [ParseError] with the position. *)
Theorem read_until_missing_marker
  (float_of_bytes : bytes -> option spec_float) :
  read_until PHP_END_VALUE (mkParser (B "i:12") 2)
  = Raise (ValueError "not enough values to unpack (expected 2, got 1)")
  /\ php_unserialize float_of_bytes (B "i:12")
     = Raise (ValueError "not enough values to unpack (expected 2, got 1)")
  /\ read_must PHP_END_VALUE (mkParser (B "i:12") 4)
     = Raise (ParseError 4 (NotEnoughBytes PHP_END_VALUE)).
Proof. repeat split. Qed.

(** ** [_parse_number] *)

Lemma digit_range (b : byte) :
  bytes_leb DIGIT_ZERO [b] && bytes_leb [b] DIGIT_NINE = is_digit b.
Proof. destruct b; reflexivity. Qed.

Lemma digits_loop_stops (n : nat) (number_string pre suf : bytes) :
  match suf with [] => True | b :: _ => is_digit b = false end ->
  digits_loop (S n) number_string (cursor pre suf)
  = Ok (number_string, cursor pre suf).
Proof.
  intros H; cbn [digits_loop]; rewrite end_of_data_cursor.
  destruct suf as [|b suf]; [reflexivity|].
  now rewrite chunk1_cursor, digit_range, H.
Qed.

Lemma digits_loop_end (n : nat) (number_string pre : bytes) :
  digits_loop n number_string (cursor pre [])
  = Ok (number_string, cursor pre []).
Proof. destruct n; cbn [digits_loop]; now rewrite end_of_data_cursor. Qed.

Section Numbers.

Variable float_of_bytes : bytes -> option spec_float.

(** A minus sign followed by neither a digit nor a dot: the text given to
    [int()] is [b"-"], and [int()] raises [ValueError]. *)
Lemma parse_number_lone_minus (pre suf : bytes) :
  match suf with
  | [] => True
  | b :: _ => is_digit b = false /\ b <> x2e
  end ->
  _parse_number float_of_bytes (cursor pre (MINUS ++ suf))
  = Raise (ValueError "invalid literal for int() with base 10").
Proof.
  intros H; unfold _parse_number.
  rewrite (chunk1_cursor x2d pre suf : chunk 1 (cursor pre (MINUS ++ suf)) = MINUS).
  rewrite bytes_eqb_refl.
  rewrite (next_byte_cursor MINUS pre suf : next_byte 1 _ = _).
  unfold pbind.
  destruct suf as [|b suf].
  - rewrite digits_loop_end; cbv beta iota.
    now rewrite (chunk_cursor 1).
  - destruct H as [Hd Hdot].
    rewrite remaining_cursor; cbn [length].
    rewrite digits_loop_stops by assumption.
    rewrite chunk1_cursor.
    replace (bytes_eqb [b] DECIMAL_DOT) with false; [reflexivity|].
    symmetry; apply bytes_eqb_neq; intros [= ->]; now apply Hdot.
Qed.

(** Neither a minus sign nor a digit: the guard of the source raises
    [ParseError] at the current position. *)
Lemma parse_number_no_digit (pre suf : bytes) :
  match suf with
  | [] => True
  | b :: _ => is_digit b = false /\ b <> x2d
  end ->
  _parse_number float_of_bytes (cursor pre suf)
  = Raise (ParseError (length pre) (Text "Expected a digit")).
Proof.
  intros H; unfold _parse_number.
  replace (bytes_eqb (chunk 1 (cursor pre suf)) MINUS) with false.
  - unfold pbind; rewrite remaining_cursor.
    destruct suf as [|b suf]; [now rewrite digits_loop_end|].
    cbn [length]; now rewrite digits_loop_stops.
  - symmetry; apply bytes_eqb_neq.
    destruct suf as [|b suf].
    + now rewrite (chunk_cursor 1).
    + rewrite chunk1_cursor; intros [= ->]; now apply (proj2 H).
Qed.

End Numbers.

(** C9, at the failing input.  A number token that is a lone [-] is not
    refused by the guard of [_parse_number], whose text is then [b"-"] and
    not empty: [int(b"-")] raises [ValueError], not [ParseError], in a
    selector and in a value, where a token without digit and without
    minus sign raises the [ParseError] of the guard with its position. *)
Theorem parse_number_lone_minus_raises
  (float_of_bytes : bytes -> option spec_float) :
  _parse_number float_of_bytes (reset (B "-"))
  = Raise (ValueError "invalid literal for int() with base 10")
  /\ run float_of_bytes (PyList []) (B "G:-")
     = Raise (ValueError "invalid literal for int() with base 10")
  /\ run float_of_bytes (PyList []) (B "S:=-")
     = Raise (ValueError "invalid literal for int() with base 10")
  /\ _parse_number float_of_bytes (mkParser (B "G:x") 2)
     = Raise (ParseError 2 (Text "Expected a digit")).
Proof. repeat split. Qed.

(** ** Object literals of the query language *)

Lemma chunk1_inside (p : Parser) (b : byte) (t : bytes) :
  chunk 1 p = b :: t -> (current p < length (data p))%nat.
Proof.
  unfold chunk, slice; intros H.
  destruct (Nat.lt_ge_cases (current p) (length (data p))) as [|Hge];
    [assumption|].
  rewrite skipn_all2 in H by assumption.
  now rewrite firstn_nil in H.
Qed.

(** [read_must] of the byte that [chunk()] has just shown. *)
Lemma read_must_chunk1 (p : Parser) (b : byte) :
  chunk 1 p = [b] -> read_must [b] p = Ok (tt, next_byte 1 p).
Proof.
  intros H; pose proof (chunk1_inside p b [] H) as Hin.
  unfold read_must; cbn [length].
  destruct (Z.gtb_spec (Z.of_nat 1)
              (Z.of_nat (length (data p)) - Z.of_nat (current p)));
    [lia|].
  change (Z.of_nat 1) with 1; now rewrite H, bytes_eqb_refl.
Qed.

(** C10.  A value of the query language that starts with [{] is parsed
    as an object literal: [{], a string (the class name), [,], an array
    (the properties), [}].  The result is the object of that class name
    and those properties; an empty class name raises [ParseError] at the
    position that follows the string. *)
Theorem object_literal
  (float_of_bytes : bytes -> option spec_float) (fuel : nat) (p : Parser)
  (class_name : bytes) (p1 : Parser) :
  chunk 1 p = QUERY_START_OBJECT ->
  _parse_string (next_byte 1 p) = Ok (class_name, p1) ->
  (class_name = [] ->
   _parse_value float_of_bytes (S fuel) p
   = Raise (ParseError (current p1) (Text "Class name can not be empty")))
  /\ (forall p2 properties p3 p4,
        class_name <> [] ->
        read_must QUERY_ITEM_SEPARATOR p1 = Ok (tt, p2) ->
        _parse_array (_parse_value float_of_bytes fuel) p2
        = Ok (properties, p3) ->
        read_must QUERY_END_OBJECT p3 = Ok (tt, p4) ->
        _parse_value float_of_bytes (S fuel) p
        = Ok (PyObject class_name properties, p4)).
Proof.
  intros Hc Hs.
  assert (_parse_value float_of_bytes (S fuel) p
          = _parse_object (_parse_value float_of_bytes fuel) p) as ->
    by (cbn [_parse_value]; now rewrite Hc).
  pose proof (read_must_chunk1 p x7b Hc
              : read_must QUERY_START_OBJECT p = Ok (tt, next_byte 1 p))
    as Hstart.
  unfold _parse_object; split.
  - intros ->.
    now rewrite (step_ok _ _ _ _ _ _ _ Hstart), (step_ok _ _ _ _ _ _ _ Hs).
  - intros p2 properties p3 p4 Hne Hsep Harr Hend.
    rewrite (step_ok _ _ _ _ _ _ _ Hstart), (step_ok _ _ _ _ _ _ _ Hs).
    destruct class_name as [|b cn]; [contradiction|].
    unfold pbind at 1; cbn [length Nat.eqb]; cbv beta iota.
    rewrite (step_ok _ _ _ _ _ _ _ Hsep), (step_ok _ _ _ _ _ _ _ Harr).
    now rewrite (step_ok _ _ _ _ _ _ _ Hend).
Qed.

(** The literal [{"Person",["name":"Jane"]}], and the same literal given
    as the value of a Set command. *)
Lemma object_literal_witness :
  let e := BQ "{'Person',['name':'Jane']}" in
  _parse_value sample_float_of_bytes 2 (reset e)
  = Ok (PyObject (B "Person") [(PyBytes (B "name"), PyBytes (B "Jane"))],
        mkParser e 26)
  /\ run sample_float_of_bytes (PyInt 1)
       (BQ "S:={'Person',['name':'Jane']}")
     = Ok (PyObject (B "Person") [(PyBytes (B "name"), PyBytes (B "Jane"))])
  /\ run sample_float_of_bytes (PyInt 1) (BQ "S:={'',[]}")
     = Raise (ParseError 6 (Text "Class name can not be empty")).
Proof.
  intros e; split; [|split; reflexivity].
  apply (proj2 (object_literal sample_float_of_bytes 1 (reset e)
                  (B "Person") (mkParser e 9) eq_refl eq_refl)
           (mkParser e 10)
           [(PyBytes (B "name"), PyBytes (B "Jane"))]
           (mkParser e 25) (mkParser e 26));
    (reflexivity || discriminate).
Defined.

(** ** The fuel of the embedding is never exhausted

    A method is well behaved at a state when it does not run out of fuel
    and, if it returns, leaves the stream untouched and the position not
    before where it was.  [within r m] says so of [m] at every state with
    at most [r] bytes left to read. *)

Lemma remaining_le (p p' : Parser) :
  data p' = data p -> (current p <= current p')%nat ->
  (remaining p' <= remaining p)%nat.
Proof. unfold remaining; intros -> H; lia. Qed.

Lemma within_weaken (A : Type) (r r' : nat) (m : M A) :
  (r' <= r)%nat -> within r m -> within r' m.
Proof. intros Hr H p Hp; apply H; lia. Qed.

Lemma within_ret (A : Type) (r : nat) (a : A) : within r (ret a).
Proof. intros p _; unfold behaves, ret; split; [reflexivity | lia]. Qed.

Lemma within_raise (A : Type) (r : nat) (e : exn) : within r (@raise A e).
Proof. intros p _; exact I. Qed.

Lemma within_lift (A : Type) (r : nat) (x : result A) :
  x <> OutOfFuel -> within r (lift x).
Proof.
  intros Hx p _; unfold behaves, lift.
  destruct x; [split; [reflexivity | lia] | exact I | contradiction].
Qed.

Lemma within_bind (A C : Type) (r : nat) (m : M A) (k : A -> M C) :
  within r m -> (forall a, within r (k a)) -> within r (pbind m k).
Proof.
  intros Hm Hk p Hp; specialize (Hm p Hp).
  unfold behaves, pbind in *.
  destruct (m p) as [[a p1]| |]; [|exact I | contradiction].
  destruct Hm as [Hd Hc].
  specialize (Hk a p1 ltac:(pose proof (remaining_le p p1 Hd Hc); lia)).
  unfold behaves in Hk.
  destruct (k a p1) as [[c p2]| |]; [|exact I | contradiction].
  destruct Hk as [Hd' Hc']; split; [congruence | lia].
Qed.

Lemma int_fueled (s : bytes) : int s <> OutOfFuel.
Proof. unfold int; now destruct (int_of_bytes s). Qed.

Lemma float_fueled (float_of_bytes : bytes -> option spec_float) (s : bytes) :
  float float_of_bytes s <> OutOfFuel.
Proof. unfold float; now destruct (float_of_bytes s). Qed.

Lemma within_read_must (r : nat) (x : bytes) : within r (read_must x).
Proof.
  intros p _; unfold behaves, read_must.
  destruct (_ >? _); [exact I|].
  destruct (negb _); [exact I|].
  split; [reflexivity | simpl; lia].
Qed.

Lemma within_read_until (r : nat) (stop : bytes) : within r (read_until stop).
Proof.
  intros p _; unfold behaves, read_until, split1.
  destruct stop; [exact I|].
  destruct (bytes_find _ _); [|exact I].
  split; [reflexivity | simpl; lia].
Qed.

Lemma within_read_bytes (r : nat) (len : Z) : within r (read_bytes len).
Proof.
  intros p _; unfold behaves, read_bytes.
  split; [reflexivity | simpl; lia].
Qed.

(** After a successful [read_must] of at least one byte, fewer bytes are
    left. *)
Lemma within_after_read_must (A : Type) (r : nat) (x : bytes) (k : M A) :
  x <> [] ->
  (forall r', (r' < r)%nat -> within r' k) ->
  within r (read_must x ;;; k).
Proof.
  intros Hx Hk p Hp; unfold behaves, pbind, read_must.
  destruct (Z.gtb_spec (Z.of_nat (length x))
              (Z.of_nat (length (data p)) - Z.of_nat (current p)));
    [exact I|].
  destruct (negb _); [exact I|].
  assert (0 < length x)%nat by (destruct x; [contradiction | simpl; lia]).
  assert (Hr : (remaining (next_byte (length x) p) < r)%nat)
    by (unfold remaining in *; simpl; lia).
  specialize (Hk _ Hr (next_byte (length x) p) (Nat.le_refl _)).
  unfold behaves in Hk.
  destruct (k (next_byte (length x) p)) as [[a p']| |];
    [|exact I | contradiction].
  simpl in Hk; destruct Hk; split; [assumption | lia].
Qed.

Section Totality.

Variable float_of_bytes : bytes -> option spec_float.

Ltac chain :=
  repeat first
    [ apply within_bind; [|intro]
    | apply within_read_must
    | apply within_read_until
    | apply within_read_bytes
    | apply within_ret
    | apply within_lift; first [apply int_fueled | apply float_fueled] ].

Lemma within_string_from_bytes (r : nat) : within r _string_from_bytes.
Proof. unfold _string_from_bytes; chain. Qed.

Lemma within_int_from_bytes (r : nat) : within r _int_from_bytes.
Proof. unfold _int_from_bytes; chain. Qed.

Lemma within_decimal_from_bytes (r : nat) :
  within r (_decimal_from_bytes float_of_bytes).
Proof. unfold _decimal_from_bytes; chain. Qed.

Lemma within_bool_from_bytes (r : nat) : within r _bool_from_bytes.
Proof. unfold _bool_from_bytes; chain. Qed.

Lemma within_null_from_bytes (r : nat) : within r _null_from_bytes.
Proof. unfold _null_from_bytes; chain. Qed.

Lemma within_read_pairs (r : nat) (from_bytes : M value) (n : nat) :
  within r from_bytes -> within r (read_pairs from_bytes n).
Proof. intros H; induction n; cbn [read_pairs]; chain; assumption. Qed.

Lemma within_array_from_bytes (r : nat) (from_bytes : M value) :
  (forall r', (r' < r)%nat -> within r' from_bytes) ->
  within r (_array_from_bytes from_bytes).
Proof.
  intros H; unfold _array_from_bytes.
  apply within_after_read_must; [discriminate|]; intros r' Hr'.
  chain; apply within_read_pairs, H, Hr'.
Qed.

Lemma within_object_from_bytes (r : nat) (from_bytes : M value) :
  (forall r', (r' < r)%nat -> within r' from_bytes) ->
  within r (_object_from_bytes from_bytes).
Proof.
  intros H; unfold _object_from_bytes.
  apply within_after_read_must; [discriminate|]; intros r' Hr'.
  chain; apply within_read_pairs, H, Hr'.
Qed.

(** [from_bytes] with more fuel than bytes left to read. *)
Lemma within_from_bytes (fuel : nat) :
  forall r, (r < fuel)%nat -> within r (from_bytes float_of_bytes fuel).
Proof.
  induction fuel as [|fuel IH]; intros r Hr; [lia|].
  intros p Hp; unfold behaves; cbn [from_bytes].
  repeat match goal with
         | |- context [if bytes_eqb ?a ?b then _ else _] =>
             destruct (bytes_eqb a b)
         end;
    try exact I.
  - exact (within_string_from_bytes r p Hp).
  - exact (within_int_from_bytes r p Hp).
  - exact (within_bool_from_bytes r p Hp).
  - exact (within_null_from_bytes r p Hp).
  - refine (within_array_from_bytes r _ _ p Hp).
    intros r' Hr'; apply IH; lia.
  - exact (within_decimal_from_bytes r p Hp).
  - refine (within_object_from_bytes r _ _ p Hp).
    intros r' Hr'; apply IH; lia.
Qed.

(** The decoder always returns or raises. *)
Lemma php_unserialize_total (d : bytes) :
  php_unserialize float_of_bytes d <> OutOfFuel.
Proof.
  unfold php_unserialize.
  pose proof (within_from_bytes (S (length d)) (length d) ltac:(lia)
                (reset d) ltac:(unfold remaining; simpl; lia)) as H.
  unfold behaves in H.
  now destruct (from_bytes float_of_bytes (S (length d)) (reset d))
    as [[v p]| |].
Qed.

End Totality.

(** *** The loops of the query parser *)

Lemma inside_not_end (p : Parser) :
  end_of_data p = false -> (current p < length (data p))%nat.
Proof. unfold end_of_data; intros H; apply Nat.leb_gt in H; lia. Qed.

Lemma chunk1_length (p : Parser) :
  (current p < length (data p))%nat -> length (chunk 1 p) = 1%nat.
Proof.
  intros H; unfold chunk, slice.
  destruct (Z.ltb_spec (Z.of_nat (current p) + 1) 0); [lia|].
  rewrite length_firstn, length_skipn; lia.
Qed.

(** A method run one byte further on behaves at the present state. *)
Lemma behaves_next_byte (A : Type) (r : nat) (m : M A) (p : Parser) :
  end_of_data p = false -> (remaining p <= r)%nat ->
  (forall r', (r' < r)%nat -> within r' m) ->
  behaves (fun q => m (next_byte 1 q)) p.
Proof.
  intros He Hp Hm; apply inside_not_end in He.
  assert (Hr : (remaining (next_byte 1 p) < r)%nat)
    by (unfold remaining in *; simpl; lia).
  specialize (Hm _ Hr (next_byte 1 p) (Nat.le_refl _)).
  unfold behaves in *.
  destruct (m (next_byte 1 p)) as [[a p']| |]; [|exact I | contradiction].
  simpl in Hm; destruct Hm; split; [assumption | lia].
Qed.

(** The same after [read_bytes()] of one byte. *)
Lemma behaves_after_read_byte (A : Type) (r : nat) (k : bytes -> M A)
  (p : Parser) :
  end_of_data p = false -> (remaining p <= r)%nat ->
  (forall b r', (r' < r)%nat -> within r' (k b)) ->
  behaves (pbind (read_bytes 1) k) p.
Proof.
  intros He Hp Hk.
  pose proof (chunk1_length p (inside_not_end p He)) as Hl.
  pose proof (behaves_next_byte A r (k (chunk 1 p)) p He Hp (Hk (chunk 1 p)))
    as H.
  unfold behaves, pbind, read_bytes in *; cbv zeta; now rewrite Hl.
Qed.

Lemma within_string_loop (n : nat) :
  forall r escaping string,
    (r <= n)%nat -> within r (string_loop n escaping string).
Proof.
  induction n as [|n IH]; intros r escaping string Hr p Hp;
    unfold behaves; cbn [string_loop];
    destruct (end_of_data p) eqn:He;
    try (destruct escaping; exact I).
  - apply inside_not_end in He; unfold remaining in Hp; lia.
  - assert (Hread : forall s,
               behaves (pbind (read_bytes 1)
                          (fun b => string_loop n false (s ++ b))) p).
    { intros s; apply (behaves_after_read_byte _ r); try assumption.
      intros b r' Hr'; apply IH; lia. }
    destruct escaping; [exact (Hread string)|].
    destruct (bytes_eqb (chunk 1 p) QUERY_ESCAPE).
    + apply (behaves_next_byte _ r (string_loop n true string) p He Hp).
      intros r' Hr'; apply IH; lia.
    + destruct (bytes_eqb (chunk 1 p) QUERY_END_STRING);
        [|exact (Hread string)].
      refine (within_bind _ _ r _ _ (within_read_must r _) _ p Hp).
      intros _; apply within_ret.
Qed.

Lemma within_parse_string (r : nat) : within r _parse_string.
Proof.
  unfold _parse_string; apply within_bind; [apply within_read_must|].
  intros _ p Hp.
  exact (within_string_loop (remaining p) (remaining p) false EMPTY
           (Nat.le_refl _) p (Nat.le_refl _)).
Qed.

Lemma within_digits_loop (n : nat) :
  forall r number_string,
    (r <= n)%nat -> within r (digits_loop n number_string).
Proof.
  induction n as [|n IH]; intros r number_string Hr p Hp;
    unfold behaves; cbn [digits_loop];
    destruct (end_of_data p) eqn:He;
    try (split; [reflexivity | lia]).
  - apply inside_not_end in He; unfold remaining in Hp; lia.
  - destruct (negb _); [split; [reflexivity | lia]|].
    apply (behaves_next_byte _ r
             (digits_loop n (number_string ++ chunk 1 p)) p He Hp).
    intros r' Hr'; apply IH; lia.
Qed.

Lemma within_digits_loop_remaining (r : nat) (number_string : bytes) :
  within r (fun p => digits_loop (remaining p) number_string p).
Proof.
  intros p Hp.
  exact (within_digits_loop (remaining p) (remaining p) number_string
           (Nat.le_refl _) p (Nat.le_refl _)).
Qed.

Section QueryTotality.

Variable float_of_bytes : bytes -> option spec_float.

(** What follows the first digit loop of [_parse_number]. *)
Lemma within_number_tail (r : nat) (number_string : bytes) :
  within r
    (fun p =>
       if bytes_eqb number_string EMPTY
       then Raise (ParseError (current p) (Text "Expected a digit"))
       else if negb (bytes_eqb (chunk 1 p) DECIMAL_DOT)
       then (n <- lift (int number_string) ;; ret (PyInt n)) p
       else
         let p := next_byte 1 p in
         (number_string <-
            digits_loop (remaining p) (number_string ++ DECIMAL_DOT) ;;
          f <- lift (float float_of_bytes number_string) ;;
          ret (PyFloat f)) p).
Proof.
  intros p Hp; unfold behaves.
  destruct (bytes_eqb number_string EMPTY); [exact I|].
  destruct (bytes_eqb (chunk 1 p) DECIMAL_DOT) eqn:Hdot; cbn [negb].
  - apply bytes_eqb_eq in Hdot.
    pose proof (chunk1_inside p _ _ Hdot) as Hin.
    assert (W : within (remaining p)
                  (number_string0 <-
                     (fun q => digits_loop (remaining q)
                                 (number_string ++ DECIMAL_DOT) q) ;;
                   f <- lift (float float_of_bytes number_string0) ;;
                   ret (PyFloat f))).
    { apply within_bind; [apply within_digits_loop_remaining|]; intro.
      apply within_bind; [apply within_lift, float_fueled|]; intro.
      apply within_ret. }
    specialize (W (next_byte 1 p)
                  ltac:(unfold remaining; simpl; lia)).
    unfold behaves in W; cbv zeta.
    match goal with
    | |- match ?t with _ => _ end =>
        match type of W with
        | match ?u with _ => _ end =>
            change t with u; destruct u as [[a p']| |]
        end
    end; [|exact I | contradiction].
    simpl in W; destruct W; split; [assumption | lia].
  - refine (within_bind _ _ r _ _ (within_lift _ r _ (int_fueled _)) _ p Hp).
    intro; apply within_ret.
Qed.

Lemma within_parse_number (r : nat) :
  within r (_parse_number float_of_bytes).
Proof.
  intros p Hp; unfold behaves, _parse_number.
  destruct (bytes_eqb (chunk 1 p) MINUS) eqn:Hm.
  - apply bytes_eqb_eq in Hm.
    pose proof (chunk1_inside p _ _ Hm) as Hin.
    pose proof (within_bind _ _ r _ _
                  (within_digits_loop_remaining r MINUS)
                  (within_number_tail r) (next_byte 1 p)
                  ltac:(unfold remaining in *; simpl; lia)) as W.
    unfold behaves in W.
    destruct (pbind _ _ (next_byte 1 p)) as [[a p']| |];
      [|exact I | contradiction].
    simpl in W; destruct W; split; [assumption | lia].
  - exact (within_bind _ _ r _ _
             (within_digits_loop_remaining r EMPTY)
             (within_number_tail r) p Hp).
Qed.

End QueryTotality.

Ltac fold_behaves :=
  match goal with
  | |- match ?m ?p with Ok _ => _ | Raise _ => _ | OutOfFuel => _ end =>
      change (behaves m p)
  end.

Section ParserTotality.

Variable float_of_bytes : bytes -> option spec_float.

Lemma within_selector_loop (n : nat) :
  forall r selector,
    (r < n)%nat -> within r (selector_loop float_of_bytes n selector).
Proof.
  induction n as [|n IH]; intros r selector Hr; [lia|].
  intros p Hp; unfold behaves; cbn [selector_loop]; cbv zeta.
  fold_behaves.
  refine (within_bind _ _ r _ _ _ _ p Hp).
  - destruct (bytes_eqb (chunk 1 p) QUERY_START_STRING).
    + apply within_bind; [apply within_parse_string|].
      intro; apply within_ret.
    + destruct (is_valid_int_start (chunk 1 p));
        [apply within_parse_number | apply within_raise].
  - intros item q Hq; unfold behaves.
    destruct (end_of_data q); cbn [negb]; [split; [reflexivity | lia]|].
    destruct (bytes_eqb (chunk 1 q) QUERY_PATH_SEPARATOR).
    + refine (within_after_read_must _ r _ _ _ _ q Hq); [discriminate|].
      intros r' Hr'; apply IH; lia.
    + destruct (bytes_eqb (chunk 1 q) QUERY_EQUAL);
        [split; [reflexivity | lia] | exact I].
Qed.

Lemma within_parse_selector (r : nat) :
  within r (_parse_selector float_of_bytes).
Proof.
  intros p Hp; unfold behaves, _parse_selector.
  destruct (end_of_data p || bytes_eqb (chunk 1 p) QUERY_EQUAL);
    [split; [reflexivity | lia]|].
  exact (within_selector_loop (S (remaining p)) (remaining p) []
           (Nat.lt_succ_diag_r _) p (Nat.le_refl _)).
Qed.

Lemma within_array_loop (_parse_value : M value) (n : nat) :
  forall r array,
    (r <= n)%nat -> within r _parse_value ->
    within r (array_loop _parse_value n array).
Proof.
  induction n as [|n IH]; intros r array Hr Hv p Hp;
    unfold behaves; cbn [array_loop];
    destruct (end_of_data p) eqn:He; cbn [negb andb];
    try (split; [reflexivity | lia]);
    (destruct (bytes_eqb (chunk 1 p) QUERY_END_ARRAY); cbn [negb];
     [split; [reflexivity | lia]|]).
  - apply inside_not_end in He; unfold remaining in Hp; lia.
  - refine (within_bind _ _ r _ _ Hv _ p Hp); intros key.
    apply within_after_read_must; [discriminate|]; intros r' Hr'.
    assert (Hv' : within r' _parse_value)
      by (apply (within_weaken _ r); [lia | assumption]).
    apply within_bind; [assumption|]; intros val q Hq; unfold behaves.
    destruct (bytes_eqb (chunk 1 q) QUERY_ITEM_SEPARATOR).
    + refine (within_bind _ _ r' _ _ (within_read_must r' _) _ q Hq).
      intros _; apply IH; [lia | assumption].
    + destruct (bytes_eqb (chunk 1 q) QUERY_END_ARRAY); cbn [negb];
        [|exact I].
      exact (IH r' _ ltac:(lia) Hv' q Hq).
Qed.

Lemma within_parse_array (r : nat) (_parse_value : M value) :
  (forall r', (r' < r)%nat -> within r' _parse_value) ->
  within r (_parse_array _parse_value).
Proof.
  intros Hv; unfold _parse_array.
  apply within_after_read_must; [discriminate|]; intros r' Hr'.
  apply within_bind.
  - intros p Hp.
    apply (within_array_loop _parse_value (remaining p) (remaining p) []
             (Nat.le_refl _)); [|apply Nat.le_refl].
    apply (within_weaken _ r'); [assumption | now apply Hv].
  - intro; apply within_bind; [apply within_read_must|].
    intro; apply within_ret.
Qed.

Lemma within_parse_object (r : nat) (_parse_value : M value) :
  (forall r', (r' < r)%nat -> within r' _parse_value) ->
  within r (_parse_object _parse_value).
Proof.
  intros Hv; unfold _parse_object.
  apply within_after_read_must; [discriminate|]; intros r' Hr'.
  apply within_bind; [apply within_parse_string|]; intros class_name.
  apply within_bind.
  - intros p _; unfold behaves.
    destruct (length class_name =? 0)%nat;
      [exact I | split; [reflexivity | lia]].
  - intros _; apply within_bind; [apply within_read_must|]; intros _.
    apply within_bind.
    + apply within_parse_array; intros r'' Hr''; apply Hv; lia.
    + intro; apply within_bind; [apply within_read_must|].
      intro; apply within_ret.
Qed.

Lemma within_parse_keyword (r : nat) (word : bytes) (v : value) :
  within r (read_must word ;;; ret v).
Proof. apply within_bind; [apply within_read_must | intro; apply within_ret]. Qed.

(** [_parse_value] with more fuel than bytes left to read. *)
Lemma within_parse_value (fuel : nat) :
  forall r, (r < fuel)%nat -> within r (_parse_value float_of_bytes fuel).
Proof.
  induction fuel as [|fuel IH]; intros r Hr; [lia|].
  intros p Hp; unfold behaves; cbn [_parse_value].
  repeat match goal with
         | |- context [if bytes_eqb ?a ?b then _ else _] =>
             destruct (bytes_eqb a b)
         end.
  - refine (within_bind _ _ r _ _ (within_parse_string r) _ p Hp).
    intro; apply within_ret.
  - refine (within_bind _ _ r _ _ _ _ p Hp); [|intro; apply within_ret].
    apply within_parse_array; intros r' Hr'; apply IH; lia.
  - refine (within_parse_object r _ _ p Hp).
    intros r' Hr'; apply IH; lia.
  - exact (within_parse_keyword r QUERY_TRUE (PyBool true) p Hp).
  - exact (within_parse_keyword r QUERY_FALSE (PyBool false) p Hp).
  - exact (within_parse_keyword r QUERY_NULL PyNone p Hp).
  - destruct (is_valid_int_start (chunk 1 p)); [|exact I].
    exact (within_parse_number float_of_bytes r p Hp).
Qed.

Lemma within_parse_command (r : nat) :
  within r (_parse_command float_of_bytes).
Proof.
  intros p Hp; unfold behaves, _parse_command.
  destruct (negb _); [exact I|].
  refine (within_bind _ _ r _ _ (within_read_must r _) _ p Hp); intros _.
  apply within_bind; [apply within_read_must|]; intros _.
  apply within_bind; [apply within_parse_selector|]; intros selector.
  apply within_bind; [|intro; apply within_ret].
  destruct (bytes_eqb (chunk 1 p) QUERY_SET); [|apply within_ret].
  apply within_bind; [apply within_read_must|]; intros _ q Hq.
  exact (within_parse_value (S (remaining q)) (remaining q)
           (Nat.lt_succ_diag_r _) q (Nat.le_refl _)).
Qed.

End ParserTotality.

(** *** The editor and the entry points *)

Lemma mapM_fueled (A C : Type) (f : A -> result C) (l : list A) :
  Forall (fun x => f x <> OutOfFuel) l -> mapM f l <> OutOfFuel.
Proof.
  induction 1 as [|x l Hx _ IH]; cbn [mapM]; [discriminate|].
  destruct (f x); cbn [bind]; [|discriminate | contradiction].
  now destruct (mapM f l).
Qed.

Lemma set_loop_fueled (key : value) (set_rest : value -> result value)
  (structure : list (value * value)) :
  (forall x, set_rest x <> OutOfFuel) ->
  forall acc flag, set_loop key set_rest structure acc flag <> OutOfFuel.
Proof.
  intros Hf; induction structure as [|[k x] tl IH]; intros acc flag;
    cbn [set_loop]; [discriminate|].
  destruct (py_eq key k); [|apply IH].
  specialize (Hf x); destruct (set_rest x); cbn [bind];
    [apply IH | discriminate | contradiction].
Qed.

Lemma _set_fueled (selector : list value) (v : value) :
  forall structure, _set selector v structure <> OutOfFuel.
Proof.
  induction selector as [|key rest IH]; intros structure; cbn [_set];
    [discriminate|].
  assert (H : forall items acc flag,
             (r <-- set_loop key (_set rest v) items acc flag ;;
              (let '(modified_data, value_must_be_created) := r in
               if (value_must_be_created : bool)
               then created <-- _set rest v (PyList []) ;;
                    Ok (modified_data ++ [(key, created)])
               else Ok modified_data)) <> OutOfFuel).
  { intros items acc flag.
    pose proof (set_loop_fueled key (_set rest v) items IH acc flag) as Hl.
    destruct (set_loop _ _ items acc flag) as [[m [|]]| |]; cbn [bind];
      try discriminate; [|contradiction].
    specialize (IH (PyList [])).
    now destruct (_set rest v (PyList [])). }
  destruct structure; try discriminate.
  - specialize (H items [] true); cbv zeta.
    destruct (bind _ _); cbn [bind]; [discriminate.. | contradiction].
  - specialize (H properties [] true); cbv zeta.
    destruct (bind _ _); cbn [bind]; [discriminate.. | contradiction].
Qed.

Lemma _delete_fueled (selector : list value) :
  forall structure, _delete selector structure <> OutOfFuel.
Proof.
  induction selector as [|to_delete rest IH]; intros structure;
    cbn [_delete]; [discriminate|].
  assert (H : forall items : list (value * value),
             match rest with
             | [] => Ok (filter (fun kv => negb (py_eq (fst kv) to_delete))
                           items)
             | _ :: _ =>
                 mapM (fun kv =>
                         if py_eq (fst kv) to_delete
                         then val <-- _delete rest (snd kv) ;;
                              Ok (fst kv, val)
                         else Ok kv) items
             end <> OutOfFuel).
  { intros items; destruct rest as [|k rest']; [discriminate|].
    apply mapM_fueled, Forall_forall; intros kv _.
    destruct (py_eq (fst kv) to_delete); [|discriminate].
    specialize (IH (snd kv)); now destruct (_delete (k :: rest') (snd kv)). }
  destruct structure; try discriminate.
  - specialize (H items); cbv zeta.
    destruct rest; (destruct (_ : result (list (value * value)));
      cbn [bind]; [discriminate.. | contradiction]).
  - specialize (H properties); cbv zeta.
    destruct rest; (destruct (_ : result (list (value * value)));
      cbn [bind]; [discriminate.. | contradiction]).
Qed.

Lemma to_bytes_fueled (str_of_float : spec_float -> bytes) (v : value) :
  to_bytes str_of_float v <> OutOfFuel.
Proof.
  induction v as [|b|n|f|s|items IH|c props IH|s] using value_induction;
    cbn [to_bytes]; try discriminate.
  - unfold _array_to_bytes, pairs_to_bytes.
    assert (H : mapM (fun kv => k <-- to_bytes str_of_float (fst kv) ;;
                                v <-- to_bytes str_of_float (snd kv) ;;
                                Ok (k ++ v)) items <> OutOfFuel).
    { apply mapM_fueled; eapply Forall_impl; [|exact IH].
      intros [k x] [Hk Hx]; simpl in *.
      destruct (to_bytes str_of_float k); cbn [bind];
        [|discriminate | contradiction].
      now destruct (to_bytes str_of_float x). }
    now destruct (mapM _ items).
  - unfold _object_to_bytes, pairs_to_bytes.
    assert (H : mapM (fun kv => k <-- to_bytes str_of_float (fst kv) ;;
                                v <-- to_bytes str_of_float (snd kv) ;;
                                Ok (k ++ v)) props <> OutOfFuel).
    { apply mapM_fueled; eapply Forall_impl; [|exact IH].
      intros [k x] [Hk Hx]; simpl in *.
      destruct (to_bytes str_of_float k); cbn [bind];
        [|discriminate | contradiction].
      now destruct (to_bytes str_of_float x). }
    now destruct (mapM _ props).
Qed.

(** The query always returns or raises, and so does [php_modify]. *)
Lemma run_total (float_of_bytes : bytes -> option spec_float)
  (structure : value) (expression : bytes) :
  run float_of_bytes structure expression <> OutOfFuel.
Proof.
  unfold run.
  pose proof (within_parse_command float_of_bytes (length expression)
                (reset expression)
                ltac:(unfold remaining; simpl; lia)) as H.
  unfold behaves in H.
  destruct (_parse_command float_of_bytes (reset expression))
    as [[[[command selector] val] p]| |]; [|discriminate | contradiction].
  destruct (bytes_eqb command QUERY_SET); [apply _set_fueled|].
  destruct (bytes_eqb command QUERY_GET); [discriminate|].
  destruct (bytes_eqb command QUERY_DELETE);
    [apply _delete_fueled | discriminate].
Qed.

Lemma php_modify_total (float_of_bytes : bytes -> option spec_float)
  (str_of_float : spec_float -> bytes) (d expression : bytes) :
  php_modify float_of_bytes str_of_float d expression <> OutOfFuel.
Proof.
  unfold php_modify.
  pose proof (php_unserialize_total float_of_bytes d) as Hu.
  destruct (php_unserialize float_of_bytes d) as [v| |]; cbn [bind];
    [|discriminate | contradiction].
  pose proof (run_total float_of_bytes v expression) as Hr.
  destruct (run float_of_bytes v expression) as [m| |]; cbn [bind];
    [|discriminate | contradiction].
  apply to_bytes_fueled.
Qed.

(** ** The tests of the repository, run on the embedding

    The cases of [tests/test_php_serialize_edit.py], with the sample
    floats for the conversions of the runtime. *)

Example test_php_unserialize :
  php_unserialize sample_float_of_bytes (B "i:124;") = Ok (PyInt 124)
  /\ php_unserialize sample_float_of_bytes (B "d:124.56;")
     = Ok (PyFloat float_124_56)
  /\ php_unserialize sample_float_of_bytes (B "b:0;") = Ok (PyBool false)
  /\ php_unserialize sample_float_of_bytes (B "b:1;") = Ok (PyBool true)
  /\ php_unserialize sample_float_of_bytes (B "a:2:{i:0;i:0;i:1;i:1;}")
     = Ok array1
  /\ php_unserialize sample_float_of_bytes
       (BQ "a:3:{i:0;a:2:{s:1:'a';b:1;s:1:'b';b:0;}i:1;i:0;i:2;i:1;}")
     = Ok array2
  /\ php_unserialize sample_float_of_bytes
       (BQ "O:6:'Person':2:{s:4:'name';s:4:'Jane';s:3:'age';i:25;}")
     = Ok object1.
Proof. repeat split. Qed.

Example test_idempotence :
  Forall (fun serialized =>
            (v <-- php_unserialize sample_float_of_bytes serialized ;;
             php_serialize sample_str_of_float v) = Ok serialized)
    [ B "i:124;"; B "d:124.56;"; B "b:0;"; B "b:1;";
      B "a:2:{i:0;i:0;i:1;i:1;}";
      BQ "a:3:{i:0;a:2:{s:1:'a';b:1;s:1:'b';b:0;}i:1;i:0;i:2;i:1;}";
      BQ "O:6:'Person':2:{s:4:'name';s:4:'Jane';s:3:'age';i:25;}" ].
Proof. repeat constructor. Qed.

Example test_query_get :
  run sample_float_of_bytes array1 (B "G:1") = Ok (PyInt 1)
  /\ run sample_float_of_bytes nested1 (BQ "G:1/'b'") = Ok (PyInt 12)
  /\ run sample_float_of_bytes (PyFloat float_12_3) (B "G:")
     = Ok (PyFloat float_12_3)
  /\ run sample_float_of_bytes (PyFloat float_12_3) (B "G:1") = Ok PyNone
  /\ run sample_float_of_bytes (PyList []) (B "G:1") = Ok PyNone
  /\ run sample_float_of_bytes (PyList []) (B "G:") = Ok (PyList [])
  /\ run sample_float_of_bytes object1 (BQ "G:'name'")
     = Ok (PyBytes (B "Jane")).
Proof. repeat split. Qed.

Example test_query_set :
  run sample_float_of_bytes array1 (B "S:2/1=3")
  = Ok (PyList [(PyInt 0, PyInt 0); (PyInt 1, PyInt 1);
                (PyInt 2, PyList [(PyInt 1, PyInt 3)])])
  /\ run sample_float_of_bytes array1 (B "S:=3") = Ok (PyInt 3)
  /\ run sample_float_of_bytes array1 (BQ "S:='xyz'")
     = Ok (PyBytes (B "xyz"))
  /\ run sample_float_of_bytes array1 (BQ "S:0='xyz'")
     = Ok (PyList [(PyInt 0, PyBytes (B "xyz")); (PyInt 1, PyInt 1)])
  /\ run sample_float_of_bytes array1 (B "S:0=false")
     = Ok (PyList [(PyInt 0, PyBool false); (PyInt 1, PyInt 1)])
  /\ run sample_float_of_bytes array1 (B "S:1=true")
     = Ok (PyList [(PyInt 0, PyInt 0); (PyInt 1, PyBool true)])
  /\ run sample_float_of_bytes array1 (B "S:0=[0:0,1:1]")
     = Ok (PyList [(PyInt 0, array1); (PyInt 1, PyInt 1)])
  /\ run sample_float_of_bytes PyNone (BQ "S:=[['a':'b','c':'d']:true]")
     = Ok (PyList [ (PyList [ (PyBytes (B "a"), PyBytes (B "b"));
                              (PyBytes (B "c"), PyBytes (B "d")) ],
                     PyBool true) ])
  /\ run sample_float_of_bytes array1 (B "S:=3.3") = Ok (PyFloat float_3_3)
  /\ run sample_float_of_bytes
       (PyList [(PyFloat float_3_3, PyInt 0); (PyInt 1, PyInt 1)])
       (B "S:3.3=1")
     = Ok (PyList [(PyFloat float_3_3, PyInt 1); (PyInt 1, PyInt 1)])
  /\ run sample_float_of_bytes object1 (BQ "S:'name'='John'")
     = Ok (PyObject (B "Person")
             [ (PyBytes (B "name"), PyBytes (B "John"));
               (PyBytes (B "age"), PyInt 25) ]).
Proof. repeat split. Qed.

Example test_query_delete :
  run sample_float_of_bytes array1 (B "D:0")
  = Ok (PyList [(PyInt 1, PyInt 1)])
  /\ run sample_float_of_bytes nested1 (BQ "D:1/'b'")
     = Ok (PyList [ (PyInt 0, PyInt 0);
                    (PyInt 1, PyList [(PyBytes (B "a"), PyInt 10)]) ])
  /\ run sample_float_of_bytes object1 (BQ "D:'name'")
     = Ok (PyObject (B "Person") [(PyBytes (B "age"), PyInt 25)]).
Proof. repeat split. Qed.

Example test_php_modify :
  php_modify sample_float_of_bytes sample_str_of_float
    (B "i:124;") (B "S:=125") = Ok (B "i:125;")
  /\ php_modify sample_float_of_bytes sample_str_of_float
       (B "b:0;") (BQ "S:=[['a':'b','c':'d']:true]")
     = Ok (BQ "a:1:{a:2:{s:1:'a';s:1:'b';s:1:'c';s:1:'d';}b:1;}")
  /\ php_modify sample_float_of_bytes sample_str_of_float
       (B "a:2:{i:0;i:0;i:1;i:1;}") (B "D:1") = Ok (B "a:1:{i:0;i:0;}")
  /\ php_modify sample_float_of_bytes sample_str_of_float
       (BQ "a:3:{i:0;a:2:{s:1:'a';b:1;s:1:'b';b:0;}i:1;i:0;i:2;i:1;}")
       (BQ "S:0/'a'=12")
     = Ok (BQ "a:3:{i:0;a:2:{s:1:'a';i:12;s:1:'b';b:0;}i:1;i:0;i:2;i:1;}")
  /\ php_modify sample_float_of_bytes sample_str_of_float
       (BQ "O:6:'Person':2:{s:4:'name';s:4:'Jane';s:3:'age';i:25;}")
       (BQ "S:'name'='John'")
     = Ok (BQ "O:6:'Person':2:{s:4:'name';s:4:'John';s:3:'age';i:25;}").
Proof. repeat split. Qed.

Example test_invalid :
  forallb (fun expression =>
             is_parse_error (run sample_float_of_bytes (PyList []) expression))
    [ B "G=123"; B "S:123=abc"; B "S:key:value"; B "D:abc.def";
      B "D:123 456"; BQ "G:'abc\"; B "x "; B "S = null"; B "G: ";
      B "S:=fals"; B "G"; B ":"; B "Gx"; B " G:"; B "S:  =-x";
      B ":xtrue"; B "G:x" ] = true.
Proof. reflexivity. Qed.

Example test_valid :
  forallb (fun expression =>
             negb (is_parse_error
                     (run sample_float_of_bytes (PyList []) expression)))
    [ B "D:-0"; B "S:=68220622"; BQ "D:'4r'"; B "S:=false"; B "G:37";
      B "S:-806019849199162=null"; B "D:-06345"; B "S:=-82"; B "S:=true";
      BQ "S:'Kep3'=-292768"; B "G:"; B "G:-8666936/5705859/1"; B "S:=null";
      BQ "D:-3/'+/Zi'"; BQ "D:'\\}'/'{u|USymFF.p'" ] = true.
Proof. reflexivity. Qed.

(** The malformed stream of the specification: an unknown type byte at
    position 0. *)
Example unserialize_unknown_type :
  php_unserialize sample_float_of_bytes (B "x:1;")
  = Raise (ParseError 0 (UnknownType (B "x"))).
Proof. reflexivity. Qed.

(* ================================================================== *)
(** * Further properties *)

(** ** Equality of values is symmetric *)

Lemma SFeqb_sym (f g : spec_float) : SFeqb f g = SFeqb g f.
Proof.
  unfold SFeqb, SFcompare.
  destruct f as [s1|s1| |s1 m1 e1], g as [s2|s2| |s2 m2 e2];
    try reflexivity;
    try (destruct s1, s2; reflexivity);
    try (destruct s1; reflexivity);
    try (destruct s2; reflexivity).
  destruct s1, s2; try reflexivity;
    rewrite (Z.compare_antisym e1 e2);
    destruct (e1 ?= e2) eqn:E; cbn [CompOpp]; try reflexivity;
    change (Pos.compare_cont Eq m2 m1) with (m2 ?= m1)%positive;
    change (Pos.compare_cont Eq m1 m2) with (m1 ?= m2)%positive;
    rewrite (Pos.compare_antisym m1 m2);
    now destruct (m1 ?= m2)%positive.
Qed.

Lemma bytes_eqb_sym (a b : bytes) : bytes_eqb a b = bytes_eqb b a.
Proof.
  destruct (bytes_eqb a b) eqn:E.
  - apply bytes_eqb_eq in E; subst; now rewrite bytes_eqb_refl.
  - symmetry; apply bytes_eqb_neq; apply bytes_eqb_neq in E; congruence.
Qed.

Lemma py_eq_pairs_cons (k x k' x' : value) (l m : list (value * value)) :
  py_eq (PyList ((k, x) :: l)) (PyList ((k', x') :: m))
  = py_eq k k' && py_eq x x' && py_eq (PyList l) (PyList m).
Proof. reflexivity. Qed.

Lemma py_eq_pairs_sym (l : list (value * value)) :
  ForallPairs (fun a => forall b, py_eq a b = py_eq b a) l ->
  forall m, py_eq (PyList l) (PyList m) = py_eq (PyList m) (PyList l).
Proof.
  induction 1 as [|[k x] l [Hk Hx] _ IH]; intros [|[k' x'] m];
    try reflexivity.
  rewrite !py_eq_pairs_cons; simpl in Hk, Hx.
  now rewrite Hk, Hx, IH.
Qed.

Lemma py_eq_sym (a : value) : forall b, py_eq a b = py_eq b a.
Proof.
  induction a as [|x|n|f|s|items IH|c props IH|s] using value_induction;
    intros [|y|m|g|t|items'|c' props'|t]; try reflexivity.
  - now destruct x, y.
  - apply Z.eqb_sym.
  - apply Z.eqb_sym.
  - apply Z.eqb_sym.
  - apply SFeqb_sym.
  - apply bytes_eqb_sym.
  - now apply py_eq_pairs_sym.
  - change (bytes_eqb c c' && py_eq (PyList props) (PyList props')
            = bytes_eqb c' c && py_eq (PyList props') (PyList props)).
    now rewrite bytes_eqb_sym, (py_eq_pairs_sym props IH).
  - apply String.eqb_sym.
Qed.

(** ** Set, Get and Delete together *)

Lemma _get_cons (k : value) (rest : list value) (T : value) :
  _get (k :: rest) T
  = match get_loop k (pairs_of T) with
    | Some x => _get rest x
    | None => PyNone
    end.
Proof. now destruct T. Qed.

Lemma with_pairs_container (T : value) (pairs : list (value * value)) :
  is_container (with_pairs T pairs) = true
  /\ pairs_of (with_pairs T pairs) = pairs.
Proof. now destruct T. Qed.

(** [_set] on a list or an object, by the pairs it works on. *)
Lemma _set_in_container (k : value) (rest : list value) (v T : value) :
  is_container T = true ->
  _set (k :: rest) v T
  = (if bound k (pairs_of T)
     then modified <-- mapM (set_pair k (_set rest v)) (pairs_of T) ;;
          Ok (with_pairs T modified)
     else Ok (with_pairs T (pairs_of T ++ [(k, created rest v)]))).
Proof.
  intros HT; unfold bound.
  destruct T; try discriminate; cbn [_set pairs_of with_pairs];
    rewrite set_loop_mapM;
    (destruct (existsb _ _) eqn:E;
     [ destruct (mapM _ _); reflexivity
     | rewrite (mapM_set_pair_no_match _ _ _ E);
       cbn [bind app andb negb]; now rewrite _set_creates ]).
Qed.

Lemma _set_outside_container (k : value) (rest : list value) (v T : value) :
  is_container T = false ->
  _set (k :: rest) v T = Raise (ValueError "Expected list of object").
Proof. now destruct T. Qed.

Lemma mapM_set_pair_keys (k : value) (f : value -> result value)
  (items : list (value * value)) :
  forall modified,
    mapM (set_pair k f) items = Ok modified ->
    map fst modified = map fst items.
Proof.
  induction items as [|[ik x] tl IH]; intros modified; cbn [mapM].
  - now intros [= <-].
  - unfold set_pair at 1; cbn [fst snd].
    destruct (py_eq k ik); [destruct (f x); try discriminate|];
      cbn [bind]; (destruct (mapM _ tl) as [m| |]; try discriminate);
      intros [= <-]; cbn [map fst]; now rewrite (IH m eq_refl).
Qed.

Lemma get_loop_unbound (k : value) (items : list (value * value)) :
  bound k items = false -> get_loop k items = None.
Proof.
  unfold bound; induction items as [|[ik x] tl IH]; cbn [existsb get_loop fst];
    [reflexivity|].
  intros H; apply orb_false_iff in H as [Hk Htl].
  now rewrite py_eq_sym, Hk, IH.
Qed.

Lemma get_loop_app (j : value) (l m : list (value * value)) :
  get_loop j (l ++ m)
  = match get_loop j l with
    | Some x => Some x
    | None => get_loop j m
    end.
Proof.
  induction l as [|[ik x] tl IH]; cbn [app get_loop]; [reflexivity|].
  now destruct (py_eq ik j).
Qed.

(** After the update of the pairs, the first pair bound to [k] holds the
    result of the recursive call on its former value. *)
Lemma get_loop_modified (k : value) (f : value -> result value)
  (items : list (value * value)) :
  forall modified,
    mapM (set_pair k f) items = Ok modified ->
    bound k items = true ->
    exists x x', get_loop k modified = Some x' /\ f x = Ok x'.
Proof.
  unfold bound; induction items as [|[ik x] tl IH]; intros modified;
    cbn [mapM existsb fst]; [discriminate|].
  unfold set_pair at 1; cbn [fst snd].
  destruct (py_eq k ik) eqn:Hk.
  - destruct (f x) as [x'| |] eqn:Hf; try discriminate; cbn [bind].
    destruct (mapM _ tl) as [m| |]; try discriminate.
    intros [= <-] _; exists x, x'; cbn [get_loop].
    now rewrite py_eq_sym, Hk.
  - cbn [bind orb]; destruct (mapM _ tl) as [m| |]; try discriminate.
    intros [= <-] Hb; cbn [get_loop].
    rewrite py_eq_sym, Hk; now apply IH.
Qed.

Lemma get_created (rest : list value) (v : value) :
  Forall (fun k => py_eq k k = true) rest -> _get rest (created rest v) = v.
Proof.
  induction 1 as [|k rest Hk _ IH]; [reflexivity|].
  cbn [created _get get_loop]; now rewrite Hk.
Qed.

(** X1.  Set then Get: when [_set] succeeds with a selector whose keys are
    each equal to themselves, [_get] with the same selector on the result
    returns the value that was set. *)
Theorem set_then_get (selector : list value) :
  forall v T T',
    Forall (fun k => py_eq k k = true) selector ->
    _set selector v T = Ok T' ->
    _get selector T' = v.
Proof.
  induction selector as [|k rest IH]; intros v T T' Hrefl Hset.
  - now injection Hset as <-.
  - inversion Hrefl as [|? ? Hk Hrest]; subst.
    destruct (is_container T) eqn:HT;
      [|rewrite _set_outside_container in Hset by assumption; discriminate].
    rewrite _set_in_container in Hset by assumption.
    rewrite _get_cons.
    destruct (bound k (pairs_of T)) eqn:Hb.
    + destruct (mapM _ (pairs_of T)) as [modified| |] eqn:Hm;
        try discriminate.
      apply Ok_inj in Hset; subst T'.
      rewrite (proj2 (with_pairs_container T modified)).
      destruct (get_loop_modified _ _ _ _ Hm Hb) as (x & x' & -> & Hx).
      exact (IH v x x' Hrest Hx).
    + apply Ok_inj in Hset; subst T'.
      rewrite (proj2 (with_pairs_container T _)), get_loop_app.
      rewrite (get_loop_unbound _ _ Hb); cbn [get_loop].
      rewrite Hk; now apply get_created.
Qed.

Lemma set_then_get_witness :
  _get [PyInt 2; PyBytes (B "a")]
    (PyList [ (PyInt 0, PyInt 0);
              (PyInt 2, PyList [(PyBytes (B "a"), PyInt 7)]) ])
  = PyInt 7.
Proof.
  apply (set_then_get [PyInt 2; PyBytes (B "a")] (PyInt 7)
           (PyList [(PyInt 0, PyInt 0)])).
  - repeat constructor.
  - reflexivity.
Defined.

Lemma get_loop_set_other (k j : value) (f : value -> result value)
  (items : list (value * value)) :
  forall modified,
    mapM (set_pair k f) items = Ok modified ->
    forallb (fun kv => negb (py_eq k (fst kv) && py_eq (fst kv) j)) items
    = true ->
    get_loop j modified = get_loop j items.
Proof.
  induction items as [|[ik x] tl IH]; intros modified;
    cbn [mapM forallb fst].
  - now intros [= <-].
  - unfold set_pair at 1; cbn [fst snd].
    intros Hm Hd; apply andb_true_iff in Hd as [Hd Htl].
    destruct (py_eq k ik) eqn:Hk.
    + cbn [andb] in Hd; apply negb_true_iff in Hd.
      destruct (f x) as [x'| |]; try discriminate; cbn [bind] in Hm.
      destruct (mapM _ tl) as [m| |]; try discriminate.
      injection Hm as <-; cbn [get_loop]; rewrite Hd; now apply IH.
    + cbn [bind] in Hm; destruct (mapM _ tl) as [m| |]; try discriminate.
      injection Hm as <-; cbn [get_loop].
      destruct (py_eq ik j); [reflexivity | now apply IH].
Qed.

(** X2.  Set leaves the other keys alone: after a successful [_set] under
    the key [k], [_get] under a key [j] that [k] is not equal to returns
    what it returned before, provided no key of the structure is equal to
    both. *)
Theorem set_keeps_other_keys (k j : value) (r1 r2 : list value)
  (v T T' : value) :
  _set (k :: r1) v T = Ok T' ->
  py_eq k j = false ->
  forallb (fun kv => negb (py_eq k (fst kv) && py_eq (fst kv) j))
    (pairs_of T) = true ->
  _get (j :: r2) T' = _get (j :: r2) T.
Proof.
  intros Hset Hkj Hd.
  destruct (is_container T) eqn:HT;
    [|rewrite _set_outside_container in Hset by assumption; discriminate].
  rewrite _set_in_container in Hset by assumption.
  rewrite !_get_cons.
  destruct (bound k (pairs_of T)).
  - destruct (mapM _ (pairs_of T)) as [modified| |] eqn:Hm; try discriminate.
    apply Ok_inj in Hset; subst T'.
    rewrite (proj2 (with_pairs_container T modified)).
    now rewrite (get_loop_set_other _ _ _ _ _ Hm Hd).
  - apply Ok_inj in Hset; subst T'.
    rewrite (proj2 (with_pairs_container T _)), get_loop_app.
    cbn [get_loop]; rewrite Hkj.
    now destruct (get_loop j (pairs_of T)).
Qed.

Lemma set_keeps_other_keys_witness :
  _get [PyBytes (B "age")]
    (PyObject (B "Person")
       [ (PyBytes (B "name"), PyBytes (B "John"));
         (PyBytes (B "age"), PyInt 25) ])
  = _get [PyBytes (B "age")] object1.
Proof.
  apply (set_keeps_other_keys (PyBytes (B "name")) (PyBytes (B "age"))
           [] [] (PyBytes (B "John")) object1);
    reflexivity.
Defined.

(** X3.  Set never removes nor reorders pairs: a successful [_set] with a
    non-empty selector returns a structure of the same kind (a list, or an
    object of the same class) whose keys are the former keys in their
    order, followed by the first key of the selector when it was bound to
    nothing. *)
Theorem set_keeps_keys (k : value) (rest : list value) (v T T' : value) :
  _set (k :: rest) v T = Ok T' ->
  T' = with_pairs T (pairs_of T')
  /\ map fst (pairs_of T')
     = map fst (pairs_of T) ++ (if bound k (pairs_of T) then [] else [k]).
Proof.
  intros Hset.
  destruct (is_container T) eqn:HT;
    [|rewrite _set_outside_container in Hset by assumption; discriminate].
  rewrite _set_in_container in Hset by assumption.
  destruct (bound k (pairs_of T)).
  - destruct (mapM _ (pairs_of T)) as [modified| |] eqn:Hm; try discriminate.
    apply Ok_inj in Hset; subst T'.
    rewrite (proj2 (with_pairs_container T modified)), app_nil_r.
    split; [now destruct T | exact (mapM_set_pair_keys _ _ _ _ Hm)].
  - apply Ok_inj in Hset; subst T'.
    rewrite (proj2 (with_pairs_container T _)), map_app.
    split; [now destruct T | reflexivity].
Qed.

Lemma set_keeps_keys_witness :
  let T' := PyList [ (PyInt 0, PyInt 0); (PyInt 1, PyInt 1);
                     (PyInt 2, PyList [(PyInt 1, PyInt 3)]) ] in
  T' = with_pairs array1 (pairs_of T')
  /\ map fst (pairs_of T')
     = map fst (pairs_of array1)
         ++ (if bound (PyInt 2) (pairs_of array1) then [] else [PyInt 2]).
Proof.
  intros T'.
  apply (set_keeps_keys (PyInt 2) [PyInt 1] (PyInt 3) array1 T').
  reflexivity.
Defined.

(** [_delete] on a list or an object, by the pairs it works on. *)
Lemma _delete_in_container (k : value) (rest : list value) (T : value) :
  is_container T = true ->
  _delete (k :: rest) T
  = (modified <--
       match rest with
       | [] => Ok (filter (fun kv => negb (py_eq (fst kv) k)) (pairs_of T))
       | _ :: _ =>
           mapM (fun kv =>
                   if py_eq (fst kv) k
                   then val <-- _delete rest (snd kv) ;; Ok (fst kv, val)
                   else Ok kv) (pairs_of T)
       end ;;
     Ok (with_pairs T modified)).
Proof. intros HT; destruct T; try discriminate; reflexivity. Qed.

Lemma _delete_outside_container (k : value) (rest : list value) (T : value) :
  is_container T = false ->
  _delete (k :: rest) T = Raise (ValueError "Expected a list or an object").
Proof. now destruct T. Qed.

Lemma get_loop_filtered (k : value) (items : list (value * value)) :
  get_loop k (filter (fun kv => negb (py_eq (fst kv) k)) items) = None.
Proof.
  induction items as [|[ik x] tl IH]; cbn [filter fst]; [reflexivity|].
  destruct (py_eq ik k) eqn:E; cbn [negb]; [assumption|].
  cbn [get_loop]; now rewrite E.
Qed.

Lemma filter_filter_same (A : Type) (f : A -> bool) (l : list A) :
  filter f (filter f l) = filter f l.
Proof.
  induction l as [|x l IH]; cbn [filter]; [reflexivity|].
  destruct (f x) eqn:E; cbn [filter]; [rewrite E; f_equal|]; assumption.
Qed.

(** X4.  Delete then Get: after a successful [_delete] with a selector
    of one key, [_get] under that key returns [None], whatever follows
    the key in its selector; and deleting the key once more changes
    nothing. *)
Theorem delete_then_get (k : value) (T T' : value) :
  _delete [k] T = Ok T' ->
  (forall rest, _get (k :: rest) T' = PyNone)
  /\ _delete [k] T' = Ok T'.
Proof.
  intros Hdel.
  destruct (is_container T) eqn:HT;
    [|rewrite _delete_outside_container in Hdel by assumption; discriminate].
  rewrite _delete_in_container in Hdel by assumption; cbn [bind] in Hdel.
  apply Ok_inj in Hdel; subst T'; split.
  - intros rest; rewrite _get_cons.
    rewrite (proj2 (with_pairs_container T _)).
    now rewrite get_loop_filtered.
  - rewrite _delete_in_container
      by apply (proj1 (with_pairs_container T _)).
    rewrite (proj2 (with_pairs_container T _)), filter_filter_same.
    cbn [bind]; now destruct T.
Qed.

Lemma delete_then_get_witness :
  (forall rest,
      _get (PyBytes (B "name") :: rest)
        (PyObject (B "Person") [(PyBytes (B "age"), PyInt 25)]) = PyNone)
  /\ _delete [PyBytes (B "name")]
       (PyObject (B "Person") [(PyBytes (B "age"), PyInt 25)])
     = Ok (PyObject (B "Person") [(PyBytes (B "age"), PyInt 25)]).
Proof.
  apply (delete_then_get (PyBytes (B "name")) object1).
  reflexivity.
Defined.

Lemma mapM_delete_pairs (k : value) (f : value -> result value)
  (items : list (value * value)) :
  forall modified,
    mapM (fun kv => if py_eq (fst kv) k
                    then val <-- f (snd kv) ;; Ok (fst kv, val)
                    else Ok kv) items = Ok modified ->
    Forall2 (fun kv kv' =>
               fst kv' = fst kv
               /\ (if py_eq (fst kv) k then f (snd kv) = Ok (snd kv')
                   else kv' = kv)) items modified.
Proof.
  induction items as [|[ik x] tl IH]; intros modified; cbn [mapM fst snd].
  - intros [= <-]; constructor.
  - destruct (py_eq ik k) eqn:Hk.
    + destruct (f x) as [x'| |] eqn:Hf; try discriminate; cbn [bind].
      destruct (mapM _ tl) as [m| |]; try discriminate.
      intros [= <-]; constructor; [|now apply IH].
      cbn [fst snd]; now rewrite Hk.
    + cbn [bind]; destruct (mapM _ tl) as [m| |]; try discriminate.
      intros [= <-]; constructor; [|now apply IH].
      cbn [fst snd]; now rewrite Hk.
Qed.

(** X5.  Delete with a selector of two keys or more removes no pair of
    the structure it is applied to: the result is the same kind of
    structure, with as many pairs and the same keys in the same order;
    a pair whose key is not equal to the first key of the selector is
    unchanged, and the value of a pair whose key is equal to it is the
    result of [_delete] with the rest of the selector on its former
    value. *)
Theorem deep_delete_keeps_pairs (k k2 : value) (rest : list value)
  (T T' : value) :
  _delete (k :: k2 :: rest) T = Ok T' ->
  T' = with_pairs T (pairs_of T')
  /\ Forall2 (fun kv kv' =>
                fst kv' = fst kv
                /\ (if py_eq (fst kv) k
                    then _delete (k2 :: rest) (snd kv) = Ok (snd kv')
                    else kv' = kv))
       (pairs_of T) (pairs_of T').
Proof.
  intros Hdel.
  destruct (is_container T) eqn:HT;
    [|rewrite _delete_outside_container in Hdel by assumption; discriminate].
  rewrite _delete_in_container in Hdel by assumption.
  destruct (mapM _ (pairs_of T)) as [modified| |] eqn:Hm; try discriminate.
  apply Ok_inj in Hdel; subst T'.
  rewrite (proj2 (with_pairs_container T modified)).
  split; [now destruct T|].
  exact (mapM_delete_pairs k (_delete (k2 :: rest)) _ _ Hm).
Qed.

Lemma deep_delete_keeps_pairs_witness :
  let T' := PyList [ (PyInt 0, PyInt 0);
                     (PyInt 1, PyList [(PyBytes (B "a"), PyInt 10)]) ] in
  T' = with_pairs nested1 (pairs_of T')
  /\ Forall2 (fun kv kv' =>
                fst kv' = fst kv
                /\ (if py_eq (fst kv) (PyInt 1)
                    then _delete [PyBytes (B "b")] (snd kv) = Ok (snd kv')
                    else kv' = kv))
       (pairs_of nested1) (pairs_of T').
Proof.
  intros T'.
  apply (deep_delete_keeps_pairs (PyInt 1) (PyBytes (B "b")) [] nested1 T').
  reflexivity.
Defined.

(** X6.  The only exception of [_set] and of [_delete] is the
    [ValueError] of a structure that is neither a list nor an object: it is
    raised with a non-empty selector on such a structure, and any
    exception of either function is this one. *)
Theorem set_delete_errors (selector : list value) (v T : value) :
  (selector <> [] -> is_container T = false ->
   _set selector v T = Raise (ValueError "Expected list of object")
   /\ _delete selector T
      = Raise (ValueError "Expected a list or an object"))
  /\ (forall e, _set selector v T = Raise e ->
                e = ValueError "Expected list of object")
  /\ (forall e, _delete selector T = Raise e ->
                e = ValueError "Expected a list or an object").
Proof.
  split; [|split].
  - intros Hs HT; destruct selector as [|k rest]; [contradiction|].
    now rewrite _set_outside_container, _delete_outside_container.
  - revert T; induction selector as [|k rest IH]; intros T e;
      [discriminate|].
    destruct (is_container T) eqn:HT;
      [|rewrite _set_outside_container by assumption; congruence].
    rewrite _set_in_container by assumption.
    destruct (bound k (pairs_of T)); [|discriminate].
    destruct (mapM _ (pairs_of T)) as [m|e'|] eqn:Hm; cbn [bind];
      try discriminate.
    intros [= <-]; clear HT.
    induction (pairs_of T) as [|[ik x] tl IHl] in Hm |- *;
      cbn [mapM] in Hm; [discriminate|].
    unfold set_pair at 1 in Hm; cbn [fst snd] in Hm.
    destruct (py_eq k ik).
    + destruct (_set rest v x) as [x'|e''|] eqn:Hx; cbn [bind] in Hm;
        try discriminate; [|injection Hm as <-; exact (IH x e'' Hx)].
      destruct (mapM _ tl) as [m'|e''|]; cbn [bind] in Hm; try discriminate.
      injection Hm as <-; exact (IHl eq_refl).
    + cbn [bind] in Hm.
      destruct (mapM _ tl) as [m'|e''|]; cbn [bind] in Hm; try discriminate.
      injection Hm as <-; exact (IHl eq_refl).
  - revert T; induction selector as [|k rest IH]; intros T e;
      [discriminate|].
    destruct (is_container T) eqn:HT;
      [|rewrite _delete_outside_container by assumption; congruence].
    rewrite _delete_in_container by assumption.
    destruct rest as [|k2 rest]; [discriminate|].
    destruct (mapM _ (pairs_of T)) as [m|e'|] eqn:Hm; cbn [bind];
      try discriminate.
    intros [= <-]; clear HT.
    induction (pairs_of T) as [|[ik x] tl IHl] in Hm |- *;
      cbn [mapM fst snd] in Hm; [discriminate|].
    destruct (py_eq ik k).
    + destruct (_delete (k2 :: rest) x) as [x'|e''|] eqn:Hx;
        cbn [bind] in Hm; try discriminate;
        [|injection Hm as <-; exact (IH x e'' Hx)].
      destruct (mapM _ tl) as [m'|e''|]; cbn [bind] in Hm; try discriminate.
      injection Hm as <-; exact (IHl eq_refl).
    + cbn [bind] in Hm.
      destruct (mapM _ tl) as [m'|e''|]; cbn [bind] in Hm; try discriminate.
      injection Hm as <-; exact (IHl eq_refl).
Qed.

Lemma set_delete_errors_witness :
  _set [PyInt 1] (PyInt 3) (PyInt 124)
  = Raise (ValueError "Expected list of object")
  /\ _delete [PyInt 1] (PyInt 124)
     = Raise (ValueError "Expected a list or an object").
Proof.
  apply (proj1 (set_delete_errors [PyInt 1] (PyInt 3) (PyInt 124)));
    [discriminate | reflexivity].
Defined.

(** ** The byte cursor *)

Lemma chunk_nat (n : nat) (p : Parser) :
  chunk (Z.of_nat n) p = firstn n (rest_of p).
Proof.
  unfold chunk, slice, rest_of.
  destruct (Z.ltb_spec (Z.of_nat (current p) + Z.of_nat n) 0); [lia|].
  destruct (Nat.le_gt_cases (current p) (length (data p))) as [Hle|Hgt].
  - replace (Z.to_nat _ - current p)%nat
      with (Nat.min n (length (skipn (current p) (data p))))
      by (rewrite length_skipn; lia).
    apply firstn_min_length.
  - rewrite skipn_all2 by lia; now rewrite !firstn_nil.
Qed.

Lemma length_rest_of (p : Parser) :
  length (rest_of p) = (length (data p) - current p)%nat.
Proof. unfold rest_of; apply length_skipn. Qed.

Lemma is_prefix_firstn (x s : bytes) :
  is_prefix x s = true
  <-> (length x <= length s)%nat /\ firstn (length x) s = x.
Proof.
  rewrite is_prefix_spec; split.
  - intros [t ->]; rewrite length_app; split; [lia|].
    now rewrite firstn_app, Nat.sub_diag, firstn_all, app_nil_r.
  - intros [_ H]; exists (skipn (length x) s).
    now rewrite <- H at 1; rewrite firstn_skipn.
Qed.

(** X7.  At a position within the stream, [read_must] succeeds exactly
    when the expected bytes are the next ones; it then advances by their
    number.  Otherwise it raises [ParseError] with the current position:
    for want of bytes when fewer are left than expected, else with the
    bytes found instead. *)
Theorem read_must_outcome (expected : bytes) (p : Parser) :
  (current p <= length (data p))%nat ->
  read_must expected p
  = if is_prefix expected (rest_of p)
    then Ok (tt, next_byte (length expected) p)
    else Raise (ParseError (current p)
                  (if (length (rest_of p) <? length expected)%nat
                   then NotEnoughBytes expected
                   else ExpectedBut expected
                          (firstn (length expected) (rest_of p)))).
Proof.
  intros Hin; unfold read_must; rewrite chunk_nat.
  pose proof (length_rest_of p) as Hl.
  destruct (Z.gtb_spec (Z.of_nat (length expected))
              (Z.of_nat (length (data p)) - Z.of_nat (current p)))
    as [Hgt|Hle].
  - replace (is_prefix expected (rest_of p)) with false.
    + replace (length (rest_of p) <? length expected)%nat with true;
        [reflexivity|].
      symmetry; apply Nat.ltb_lt; lia.
    + symmetry; destruct (is_prefix expected (rest_of p)) eqn:E;
        [|reflexivity].
      apply is_prefix_firstn in E; lia.
  - replace (length (rest_of p) <? length expected)%nat with false
      by (symmetry; apply Nat.ltb_ge; lia).
    destruct (bytes_eqb (firstn (length expected) (rest_of p)) expected)
      eqn:E; cbn [negb].
    + apply bytes_eqb_eq in E.
      replace (is_prefix expected (rest_of p)) with true; [reflexivity|].
      symmetry; apply is_prefix_firstn; split; [lia | assumption].
    + replace (is_prefix expected (rest_of p)) with false; [reflexivity|].
      symmetry; destruct (is_prefix expected (rest_of p)) eqn:E';
        [|reflexivity].
      apply is_prefix_firstn in E' as [_ E'].
      apply bytes_eqb_neq in E; contradiction.
Qed.

Lemma read_must_outcome_witness :
  read_must PHP_END_VALUE (mkParser (B "i:12;") 4)
  = Ok (tt, mkParser (B "i:12;") 5)
  /\ read_must PHP_END_VALUE (mkParser (B "i:12}") 4)
     = Raise (ParseError 4 (ExpectedBut PHP_END_VALUE (B "}")))
  /\ read_must PHP_END_VALUE (mkParser (B "i:12") 4)
     = Raise (ParseError 4 (NotEnoughBytes PHP_END_VALUE)).
Proof.
  split; [|split].
  - rewrite (read_must_outcome PHP_END_VALUE (mkParser (B "i:12;") 4));
      [reflexivity | simpl; lia].
  - rewrite (read_must_outcome PHP_END_VALUE (mkParser (B "i:12}") 4));
      [reflexivity | simpl; lia].
  - rewrite (read_must_outcome PHP_END_VALUE (mkParser (B "i:12") 4));
      [reflexivity | simpl; lia].
Defined.

(** X8.  [chunk] and [read_bytes] never raise: asked for [n >= 0] bytes,
    both return the next [n] bytes of the stream, or all that is left
    when fewer are; [chunk] leaves the position where it is and
    [read_bytes] advances it by the number of bytes returned. *)
Theorem read_bytes_outcome (n : nat) (p : Parser) :
  chunk (Z.of_nat n) p = firstn n (rest_of p)
  /\ read_bytes (Z.of_nat n) p
     = Ok (firstn n (rest_of p),
           next_byte (Nat.min n (length (rest_of p))) p)
  /\ (length (firstn n (rest_of p)) <= n)%nat.
Proof.
  split; [apply chunk_nat|]; split.
  - unfold read_bytes; rewrite chunk_nat, length_firstn; reflexivity.
  - rewrite length_firstn; lia.
Qed.

Lemma bytes_find_complete (sub s : bytes) :
  forall i,
    (i <= length s)%nat ->
    is_prefix sub (skipn i s) = true ->
    (forall j, (j < i)%nat -> is_prefix sub (skipn j s) = false) ->
    bytes_find sub s = Some i.
Proof.
  induction s as [|b s IH]; intros i Hi Hp Hj.
  - assert (i = 0)%nat as -> by (simpl in Hi; lia).
    cbn [bytes_find]; simpl in Hp; now rewrite Hp.
  - cbn [bytes_find]; destruct i as [|i].
    + simpl in Hp; now rewrite Hp.
    + rewrite (Hj 0%nat ltac:(lia) : is_prefix sub (b :: s) = false).
      rewrite (IH i); [reflexivity | simpl in Hi; lia | exact Hp|].
      intros j Hlt; exact (Hj (S j) ltac:(lia)).
Qed.

(** X9.  When what is left to read is [before ++ stop ++ after], with a
    non-empty [stop] that does not occur earlier, [read_until(stop)]
    returns [before] and stops in front of the marker: the position has
    moved by the length of [before], and the stream is unchanged. *)
Theorem read_until_outcome (stop before after : bytes) (p : Parser) :
  stop <> [] ->
  rest_of p = before ++ stop ++ after ->
  (forall j, (j < length before)%nat ->
             is_prefix stop (skipn j (rest_of p)) = false) ->
  read_until stop p = Ok (before, next_byte (length before) p)
  /\ rest_of (next_byte (length before) p) = stop ++ after.
Proof.
  intros Hs Hr Hj.
  assert (Hf : bytes_find stop (rest_of p) = Some (length before)).
  { apply bytes_find_complete.
    - rewrite Hr, length_app; lia.
    - rewrite Hr, skipn_app, skipn_all, Nat.sub_diag; simpl.
      apply is_prefix_app.
    - exact Hj. }
  destruct (read_until_found stop p (length before) Hs Hf) as [-> _].
  fold (rest_of p); rewrite Hr.
  rewrite firstn_app, Nat.sub_diag, firstn_all; simpl; rewrite app_nil_r.
  split; [reflexivity|].
  unfold rest_of, next_byte; simpl.
  rewrite Nat.add_comm, <- skipn_skipn; fold (rest_of p); rewrite Hr.
  now rewrite skipn_app, skipn_all, Nat.sub_diag.
Qed.

Lemma read_until_outcome_witness :
  let p := mkParser (BQ "s:12:'a;b'") 2 in
  read_until PHP_FIELD_SEPARATOR p = Ok (B "12", mkParser (data p) 4)
  /\ rest_of (mkParser (data p) 4) = BQ ":'a;b'".
Proof.
  intros p.
  apply (read_until_outcome PHP_FIELD_SEPARATOR (B "12") (BQ "'a;b'") p).
  - discriminate.
  - reflexivity.
  - intros [|[|j]] Hj; [reflexivity | reflexivity | simpl in Hj; lia].
Defined.

(** ** The decoder and the encoder *)

Section CodecMore.

Variable float_of_bytes : bytes -> option spec_float.
Variable str_of_float : spec_float -> bytes.

Lemma no_type_byte_dispatch (b : byte) :
  negb (existsb (Byte.eqb b) type_bytes) = true ->
  bytes_eqb [b] PHP_STRING = false /\ bytes_eqb [b] PHP_INT = false
  /\ bytes_eqb [b] PHP_BOOL = false /\ bytes_eqb [b] PHP_NULL = false
  /\ bytes_eqb [b] PHP_ARRAY = false /\ bytes_eqb [b] PHP_DECIMAL = false
  /\ bytes_eqb [b] PHP_OBJECT = false.
Proof. destruct b; (discriminate || (intros _; repeat split)). Qed.

Lemma from_bytes_no_type_byte (fuel : nat) (pre d : bytes) :
  no_type_byte d = true ->
  from_bytes float_of_bytes (S fuel) (cursor pre d)
  = Raise (ParseError (length pre) (UnknownType (firstn 1 d))).
Proof.
  intros Hd; cbn [from_bytes]; rewrite (chunk_cursor 1).
  destruct d as [|b d]; [reflexivity|].
  cbn [firstn].
  destruct (no_type_byte_dispatch b Hd)
    as (-> & -> & -> & -> & -> & -> & ->).
  reflexivity.
Qed.

(** X10.  A stream that does not start with one of the seven type bytes,
    the empty stream included, is refused with [ParseError] at the
    position where a value was expected, naming the byte found there;
    [php_unserialize] refuses it at position 0. *)
Theorem unknown_type_is_refused (fuel : nat) (pre d : bytes) :
  no_type_byte d = true ->
  from_bytes float_of_bytes (S fuel) (cursor pre d)
  = Raise (ParseError (length pre) (UnknownType (firstn 1 d)))
  /\ php_unserialize float_of_bytes d
     = Raise (ParseError 0 (UnknownType (firstn 1 d))).
Proof.
  intros Hd; split; [now apply from_bytes_no_type_byte|].
  unfold php_unserialize.
  now rewrite reset_cursor, from_bytes_no_type_byte.
Qed.

(** X11.  The decoder reads one value and stops: whatever bytes follow
    the encoding of a value are ignored by [php_unserialize], which
    returns the value. *)
Theorem trailing_bytes_are_ignored (v : value) (b junk : bytes) :
  php_serialize str_of_float v = Ok b ->
  floats_round_trip float_of_bytes str_of_float v ->
  php_unserialize float_of_bytes (b ++ junk) = Ok v.
Proof.
  intros Henc Hfl; unfold php_unserialize.
  pose proof (height_le_length str_of_float v b Henc) as Hh.
  rewrite reset_cursor.
  rewrite (from_bytes_to_bytes float_of_bytes str_of_float v b Henc Hfl
             (S (length (b ++ junk))) [] junk
             ltac:(rewrite length_app; lia)).
  reflexivity.
Qed.

(** X12.  The encoding is self-delimiting: if the encodings of two
    values, each followed by arbitrary bytes, are the same stream, then
    the values are the same and so are the bytes that follow.  In
    particular two values with the same encoding are equal. *)
Theorem encoding_is_prefix_free (v w : value) (bv bw s1 s2 : bytes) :
  to_bytes str_of_float v = Ok bv ->
  to_bytes str_of_float w = Ok bw ->
  floats_round_trip float_of_bytes str_of_float v ->
  floats_round_trip float_of_bytes str_of_float w ->
  bv ++ s1 = bw ++ s2 ->
  v = w /\ bv = bw /\ s1 = s2.
Proof.
  intros Hv Hw Fv Fw Heq.
  pose proof (from_bytes_to_bytes float_of_bytes str_of_float v bv Hv Fv
                (S (Nat.max (height v) (height w))) [] s1 ltac:(lia)) as H1.
  pose proof (from_bytes_to_bytes float_of_bytes str_of_float w bw Hw Fw
                (S (Nat.max (height v) (height w))) [] s2 ltac:(lia)) as H2.
  rewrite Heq, H2 in H1.
  injection H1 as Hvw Hd Hl.
  subst w; rewrite Hv in Hw; injection Hw as <-.
  repeat split; now apply app_inv_head in Heq.
Qed.

End CodecMore.

Lemma unknown_type_is_refused_witness :
  from_bytes sample_float_of_bytes 1 (cursor (B "a:1:{") (B "x:1;}"))
  = Raise (ParseError 5 (UnknownType (B "x")))
  /\ php_unserialize sample_float_of_bytes (B "x:1;}")
     = Raise (ParseError 0 (UnknownType (B "x"))).
Proof.
  apply (unknown_type_is_refused sample_float_of_bytes 0
           (B "a:1:{") (B "x:1;}")).
  reflexivity.
Defined.

Lemma trailing_bytes_are_ignored_witness :
  php_unserialize sample_float_of_bytes (B "a:1:{i:0;d:1.5;}i:124;garbage")
  = Ok (PyList [(PyInt 0, PyFloat float_1_5)]).
Proof.
  apply (trailing_bytes_are_ignored sample_float_of_bytes sample_str_of_float
           (PyList [(PyInt 0, PyFloat float_1_5)])
           (B "a:1:{i:0;d:1.5;}") (B "i:124;garbage")).
  - reflexivity.
  - simpl; repeat split; vm_compute; intuition discriminate.
Defined.

Lemma encoding_is_prefix_free_witness :
  PyInt 12 = PyInt 12 /\ B "i:12;" = B "i:12;" /\ B "i:3;" = B "i:3;".
Proof.
  apply (encoding_is_prefix_free sample_float_of_bytes sample_str_of_float
           (PyInt 12) (PyInt 12) (B "i:12;") (B "i:12;")
           (B "i:3;") (B "i:3;"));
    (reflexivity || exact I).
Defined.

Section CodecCounts.

Variable float_of_bytes : bytes -> option spec_float.
Variable str_of_float : spec_float -> bytes.

(** The encoder on the pairs of a list or of an object: the first part
    that it cannot encode stops it. *)
Lemma pairs_to_bytes_outcome (items : list (value * value)) :
  ForallPairs
    (fun v => match first_unencodable v with
              | Some w => to_bytes str_of_float v = Raise (SerializeError w)
              | None => exists b, to_bytes str_of_float v = Ok b
              end) items ->
  match first_unencodable (PyList items) with
  | Some w =>
      pairs_to_bytes (to_bytes str_of_float) items
      = Raise (SerializeError w)
  | None =>
      exists parts, pairs_to_bytes (to_bytes str_of_float) items = Ok parts
  end.
Proof.
  induction 1 as [|[k x] items [Hk Hx] _ IH]; [now exists []|].
  change (first_unencodable (PyList ((k, x) :: items)))
    with (match first_unencodable k with
          | Some w => Some w
          | None =>
              match first_unencodable x with
              | Some w => Some w
              | None => first_unencodable (PyList items)
              end
          end).
  unfold pairs_to_bytes in *; cbn [mapM fst snd] in *.
  destruct (first_unencodable k) as [w|]; [now rewrite Hk|].
  destruct Hk as [ke ->]; cbn [bind].
  destruct (first_unencodable x) as [w|]; [now rewrite Hx|].
  destruct Hx as [xe ->]; cbn [bind].
  destruct (first_unencodable (PyList items)) as [w|].
  - now rewrite IH.
  - destruct IH as [parts ->]; now eexists.
Qed.

Lemma to_bytes_outcome (v : value) :
  match first_unencodable v with
  | Some w => to_bytes str_of_float v = Raise (SerializeError w)
  | None => exists b, to_bytes str_of_float v = Ok b
  end.
Proof.
  induction v as [|b|n|f|s|items IH|c props IH|s] using value_induction;
    try reflexivity; try (now eexists).
  - pose proof (pairs_to_bytes_outcome items IH) as H.
    cbn [to_bytes]; unfold _array_to_bytes.
    destruct (first_unencodable (PyList items)) as [w|].
    + now rewrite H.
    + destruct H as [parts ->]; now eexists.
  - pose proof (pairs_to_bytes_outcome props IH) as H.
    change (first_unencodable (PyObject c props))
      with (first_unencodable (PyList props)).
    cbn [to_bytes]; unfold _object_to_bytes.
    destruct (first_unencodable (PyList props)) as [w|].
    + now rewrite H.
    + destruct H as [parts ->]; now eexists.
Qed.

(** X13.  On a value made of [None], booleans, integers, floats, byte
    strings, text strings, lists of pairs and objects, the encoder
    succeeds exactly when the value holds neither a [None] nor a text
    string, at any depth.  Otherwise it raises [SerializeError], and the
    value it names is the first [None] or text string of the value in the
    order of encoding: the pairs from the first to the last, the key of a
    pair before its value. *)
Theorem serialize_outcome (v : value) :
  if in_model v && none_free v
  then first_unencodable v = None
       /\ exists b, php_serialize str_of_float v = Ok b
  else exists w, first_unencodable v = Some w
                 /\ php_serialize str_of_float v = Raise (SerializeError w).
Proof.
  unfold php_serialize.
  pose proof (to_bytes_ok_iff str_of_float v) as Hok.
  pose proof (to_bytes_outcome v) as Hout.
  destruct (in_model v && none_free v).
  - destruct (proj2 Hok eq_refl) as [b Hb].
    destruct (first_unencodable v) as [w|]; [congruence|].
    split; [reflexivity | now exists b].
  - destruct (first_unencodable v) as [w|]; [now exists w|].
    assert (false = true) by (now apply Hok); discriminate.
Qed.

(** X14.  A boolean is read as an integer and is true when that integer
    is not zero: [b:<n>;] decodes to [True] for every [n] other than 0,
    not only for 1. *)
Theorem bool_is_nonzero (n : Z) (junk : bytes) :
  php_unserialize float_of_bytes
    (PHP_BOOL ++ PHP_FIELD_SEPARATOR ++ str_of_int n ++ PHP_END_VALUE ++ junk)
  = Ok (PyBool (negb (n =? 0))).
Proof.
  unfold php_unserialize; rewrite reset_cursor.
  rewrite from_bytes_at_bool; unfold _bool_from_bytes.
  rewrite !step_read_must.
  rewrite step_read_until_end by apply str_of_int_no_semicolon.
  now rewrite int_str_of_int, step_lift, !step_read_must.
Qed.

Lemma to_bytes_head (v : value) (enc : bytes) :
  to_bytes str_of_float v = Ok enc ->
  exists t tl, enc = t :: tl /\ t <> x7d.
Proof.
  destruct v; cbn [to_bytes]; try discriminate;
    try (intros [= <-]; eexists; eexists; split;
         [reflexivity | discriminate]).
  - unfold _array_to_bytes; destruct (pairs_to_bytes _ _); try discriminate.
    intros [= <-]; eexists; eexists; split; [reflexivity | discriminate].
  - unfold _object_to_bytes; destruct (pairs_to_bytes _ _); try discriminate.
    intros [= <-]; eexists; eexists; split; [reflexivity | discriminate].
Qed.

Lemma mapM_firstn (A C : Type) (f : A -> result C) (n : nat) :
  forall l r, mapM f l = Ok r -> mapM f (firstn n l) = Ok (firstn n r).
Proof.
  induction n as [|n IH]; intros [|x l] r; cbn [mapM firstn];
    try (intros [= <-]; reflexivity); try reflexivity.
  destruct (f x) as [y| |]; try discriminate; cbn [bind].
  destruct (mapM f l) as [ys| |] eqn:E; try discriminate; cbn [bind].
  intros [= <-]; cbn [firstn]; now rewrite (IH l ys E).
Qed.

Lemma mapM_length (A C : Type) (f : A -> result C) :
  forall l r, mapM f l = Ok r -> length r = length l.
Proof.
  induction l as [|x l IH]; intros r; cbn [mapM].
  - now intros [= <-].
  - destruct (f x) as [y| |]; try discriminate; cbn [bind].
    destruct (mapM f l) as [ys| |] eqn:E; try discriminate; cbn [bind].
    intros [= <-]; simpl; now rewrite (IH ys eq_refl).
Qed.

Lemma floats_round_trip_firstn (n : nat) :
  forall items,
    floats_round_trip float_of_bytes str_of_float (PyList items) ->
    floats_round_trip float_of_bytes str_of_float (PyList (firstn n items)).
Proof.
  induction n as [|n IH]; intros [|[k x] items] H; cbn [firstn];
    try exact I.
  apply floats_round_trip_pairs_cons in H as (Hk & Hx & Hl).
  apply floats_round_trip_pairs_cons; repeat split; try assumption.
  now apply IH.
Qed.

Lemma height_firstn (n : nat) :
  forall items,
    (height (PyList (firstn n items)) <= height (PyList items))%nat.
Proof.
  induction n as [|n IH]; intros [|[k x] items]; cbn [firstn];
    try (simpl; lia).
  rewrite !height_pairs_cons; specialize (IH items); lia.
Qed.

(** Reading fewer pairs than the stream holds. *)
Lemma read_pairs_some (fuel n : nat) (items : list (value * value))
  (parts : list bytes) (pre suf : bytes) :
  pairs_to_bytes (to_bytes str_of_float) items = Ok parts ->
  floats_round_trip float_of_bytes str_of_float (PyList items) ->
  (height (PyList items) <= fuel)%nat ->
  (n <= length items)%nat ->
  read_pairs (from_bytes float_of_bytes fuel) n
    (cursor pre (concat parts ++ suf))
  = Ok (firstn n items,
        cursor (pre ++ concat (firstn n parts))
          (concat (skipn n parts) ++ suf)).
Proof.
  intros Henc Hfl Hh Hn.
  pose proof (read_pairs_encoded float_of_bytes str_of_float fuel
                (firstn n items)) as H.
  rewrite length_firstn, Nat.min_l in H by assumption.
  rewrite <- (firstn_skipn n parts) at 1.
  rewrite concat_app, <- app_assoc.
  apply H.
  - apply Forall_forall; intros kv _; split; apply from_bytes_to_bytes.
  - now apply mapM_firstn.
  - now apply floats_round_trip_firstn.
  - pose proof (height_firstn n items); lia.
Qed.

Lemma read_pairs_add (f : M value) (a b : nat) (p : Parser) :
  read_pairs f (a + b) p
  = (x <- read_pairs f a ;; y <- read_pairs f b ;; ret (x ++ y)) p.
Proof.
  revert p; induction a as [|a IH]; intros p; cbn [Nat.add read_pairs];
    unfold pbind, ret in *.
  - simpl; destruct (read_pairs f b p) as [[y p']| |]; reflexivity.
  - destruct (f p) as [[k p1]| |]; try reflexivity.
    destruct (f p1) as [[x p2]| |]; try reflexivity.
    rewrite IH.
    destruct (read_pairs f a p2) as [[xs p3]| |]; try reflexivity.
    destruct (read_pairs f b p3) as [[ys p4]| |]; reflexivity.
Qed.

Lemma read_must_mismatch (b c : byte) (pre suf : bytes) :
  b <> c ->
  read_must [c] (cursor pre (b :: suf))
  = Raise (ParseError (length pre) (ExpectedBut [c] [b])).
Proof.
  intros Hbc; unfold read_must; cbn [length].
  destruct (Z.gtb_spec (Z.of_nat 1)
              (Z.of_nat (length (data (cursor pre (b :: suf))))
               - Z.of_nat (current (cursor pre (b :: suf))))) as [H|_].
  - simpl in H; rewrite length_app in H; simpl in H; lia.
  - rewrite (chunk_cursor 1); cbn [firstn].
    replace (bytes_eqb [b] [c]) with false; [reflexivity|].
    symmetry; apply bytes_eqb_neq; congruence.
Qed.

(** X15.  The declared count of an array must be the number of pairs
    that follow: the stream of an array whose pairs are the encodings of
    [items] decodes to [items] when the count it declares (a negative
    count standing for 0) is their number, and is refused with
    [ParseError] when it is any other number. *)
Theorem array_count_is_checked (count : Z) (items : list (value * value))
  (parts : list bytes) :
  pairs_to_bytes (to_bytes str_of_float) items = Ok parts ->
  floats_round_trip float_of_bytes str_of_float (PyList items) ->
  (Z.to_nat count = length items ->
   php_unserialize float_of_bytes (array_stream count parts)
   = Ok (PyList items))
  /\ (Z.to_nat count <> length items ->
      is_parse_error
        (php_unserialize float_of_bytes (array_stream count parts)) = true).
Proof.
  intros Henc Hfl.
  assert (Hh : (height (PyList items)
                <= length (array_stream count parts))%nat).
  { pose proof (pairs_height_le_length str_of_float items
                  ltac:(apply Forall_forall; intros kv _; split;
                        apply height_le_length) parts Henc).
    unfold array_stream; rewrite !length_app; simpl length at 1; lia. }
  assert (Hlen : length parts = length items)
    by exact (mapM_length _ _ _ _ _ Henc).
  unfold php_unserialize; rewrite reset_cursor.
  rewrite <- (app_nil_r (array_stream count parts)) at 2 4.
  unfold array_stream at 2 4; rewrite <- !app_assoc.
  rewrite from_bytes_at_array; unfold _array_from_bytes.
  rewrite !step_read_must.
  rewrite step_read_until_separator by apply str_of_int_no_colon.
  rewrite int_str_of_int, step_lift, !step_read_must.
  set (fuel := length (array_stream count parts)) in *.
  set (pre := (([] ++ PHP_ARRAY) ++ PHP_FIELD_SEPARATOR) ++ _).
  split; intros Hc.
  - rewrite Hc.
    rewrite (step_ok _ _ _ _ _ _ _
               (read_pairs_some fuel (length items) items parts _ _
                  Henc Hfl Hh (Nat.le_refl _))).
    rewrite skipn_all2 by lia; cbn [concat app].
    now rewrite step_read_must, firstn_all.
  - destruct (Nat.lt_ge_cases (Z.to_nat count) (length items)) as [Hlt|Hge].
    + rewrite (step_ok _ _ _ _ _ _ _
                 (read_pairs_some fuel (Z.to_nat count) items parts _ _
                    Henc Hfl Hh (Nat.lt_le_incl _ _ Hlt))).
      destruct (skipn (Z.to_nat count) parts) as [|part tl] eqn:Hs.
      * apply (f_equal (@length _)) in Hs; rewrite length_skipn in Hs.
        simpl in Hs; lia.
      * assert (Hpart : exists t tl', part = t :: tl' /\ t <> x7d).
        { assert (Hin : In part parts)
            by (rewrite <- (firstn_skipn (Z.to_nat count) parts), Hs;
                apply in_or_app; right; now left).
          clear - Henc Hin.
          unfold pairs_to_bytes in Henc.
          revert parts Henc Hin.
          induction items as [|[k x] items IH]; intros parts;
            cbn [mapM fst snd].
          - intros [= <-] [].
          - destruct (to_bytes str_of_float k) as [ke| |] eqn:Ek;
              try discriminate; cbn [bind].
            destruct (to_bytes str_of_float x) as [xe| |]; try discriminate.
            cbn [bind]; destruct (mapM _ items) as [ps| |];
              try discriminate.
            intros [= <-] [<-|Hin]; [|exact (IH ps eq_refl Hin)].
            destruct (to_bytes_head k ke Ek) as (t & tl' & -> & Ht).
            now exists t, (tl' ++ xe). }
        destruct Hpart as (t & tl' & -> & Ht).
        cbn [concat app]; unfold pbind.
        match goal with
        | |- context [read_must PHP_END_ARRAY (cursor ?a (t :: ?b))] =>
            rewrite (read_must_mismatch t x7d a b Ht
                     : read_must PHP_END_ARRAY (cursor a (t :: b)) = _)
        end.
        reflexivity.
    + replace (Z.to_nat count)
        with (length items + S (Z.to_nat count - S (length items)))%nat
        by lia.
      unfold pbind at 1; rewrite read_pairs_add.
      rewrite (step_ok _ _ _ _ _ _ _
                 (read_pairs_some fuel (length items) items parts _ _
                    Henc Hfl Hh (Nat.le_refl _))).
      rewrite skipn_all2 by lia; cbn [concat app read_pairs].
      unfold pbind at 1 2.
      assert (Hf : (0 < fuel)%nat)
        by (unfold fuel, array_stream; rewrite length_app; simpl; lia).
      destruct fuel as [|fuel']; [lia|].
      match goal with
      | |- context [from_bytes float_of_bytes (S fuel') (cursor ?a ?b)] =>
          rewrite (from_bytes_no_type_byte float_of_bytes fuel' a b eq_refl)
      end.
      reflexivity.
Qed.

End CodecCounts.

Lemma array_count_is_checked_witness :
  php_unserialize sample_float_of_bytes (B "a:2:{i:0;i:0;i:1;i:1;}")
  = Ok array1
  /\ is_parse_error
       (php_unserialize sample_float_of_bytes (B "a:1:{i:0;i:0;i:1;i:1;}"))
     = true
  /\ is_parse_error
       (php_unserialize sample_float_of_bytes (B "a:3:{i:0;i:0;i:1;i:1;}"))
     = true.
Proof.
  split; [|split].
  - apply (proj1 (array_count_is_checked sample_float_of_bytes
                    sample_str_of_float 2 (pairs_of array1)
                    [B "i:0;i:0;"; B "i:1;i:1;"] eq_refl
                    (conj I (conj I (conj I (conj I I)))))).
    reflexivity.
  - apply (proj2 (array_count_is_checked sample_float_of_bytes
                    sample_str_of_float 1 (pairs_of array1)
                    [B "i:0;i:0;"; B "i:1;i:1;"] eq_refl
                    (conj I (conj I (conj I (conj I I)))))).
    discriminate.
  - apply (proj2 (array_count_is_checked sample_float_of_bytes
                    sample_str_of_float 3 (pairs_of array1)
                    [B "i:0;i:0;"; B "i:1;i:1;"] eq_refl
                    (conj I (conj I (conj I (conj I I)))))).
    discriminate.
Defined.

(** ** The parser of query expressions *)

Lemma read_bytes1_cursor (b : byte) (pre suf : bytes) :
  read_bytes 1 (cursor pre (b :: suf)) = Ok ([b], cursor (pre ++ [b]) suf).
Proof. exact (read_bytes_cursor [b] pre suf). Qed.

Lemma next_byte1_cursor (b : byte) (pre suf : bytes) :
  next_byte 1 (cursor pre (b :: suf)) = cursor (pre ++ [b]) suf.
Proof. exact (next_byte_cursor [b] pre suf). Qed.

(** The loop of [_parse_string] on the escaped text of [s], closed by a
    double quote. *)
Lemma string_loop_escape (s : bytes) :
  forall acc n pre suf,
    (length (escape s) < n)%nat ->
    string_loop n false acc
      (cursor pre (escape s ++ QUERY_END_STRING ++ suf))
    = Ok (acc ++ s, cursor (pre ++ escape s ++ QUERY_END_STRING) suf).
Proof.
  induction s as [|b s IH]; intros acc n pre suf Hn.
  - destruct n as [|n]; [simpl in Hn; lia|].
    change (escape [] ++ QUERY_END_STRING ++ suf) with (x22 :: suf).
    cbn [string_loop].
    rewrite end_of_data_cursor, (chunk1_cursor x22).
    change (bytes_eqb [x22] QUERY_ESCAPE) with false.
    change (bytes_eqb [x22] QUERY_END_STRING) with true; cbv beta iota.
    unfold pbind.
    rewrite (read_must_cursor [x22] pre suf
             : read_must QUERY_END_STRING (cursor pre (x22 :: suf)) = _).
    unfold ret; now rewrite app_nil_r.
  - cbn [escape] in Hn |- *.
    destruct (Byte.eqb b x22 || Byte.eqb b x5c) eqn:E.
    + destruct n as [|[|n]]; try (simpl in Hn; lia).
      cbn [app string_loop].
      rewrite end_of_data_cursor, (chunk1_cursor x5c).
      change (bytes_eqb [x5c] QUERY_ESCAPE) with true; cbv beta iota.
      rewrite next_byte1_cursor; cbn [string_loop].
      rewrite end_of_data_cursor.
      unfold pbind at 1; rewrite read_bytes1_cursor.
      rewrite IH by (simpl in Hn; lia).
      now rewrite <- !app_assoc.
    + destruct n as [|n]; [simpl in Hn; lia|].
      apply orb_false_iff in E as [Eq Eb].
      cbn [app string_loop].
      rewrite end_of_data_cursor, chunk1_cursor.
      replace (bytes_eqb [b] QUERY_ESCAPE) with false
        by (simpl; now rewrite Eb).
      replace (bytes_eqb [b] QUERY_END_STRING) with false
        by (simpl; now rewrite Eq).
      unfold pbind at 1; rewrite read_bytes1_cursor.
      rewrite IH by (simpl in Hn; lia).
      now rewrite <- !app_assoc.
Qed.

(** A string literal is read back as the string it was written from. *)
Lemma parse_string_literal (s pre suf : bytes) :
  _parse_string (cursor pre (string_literal s ++ suf))
  = Ok (s, cursor (pre ++ string_literal s) suf).
Proof.
  unfold _parse_string, string_literal; rewrite <- !app_assoc.
  rewrite step_read_must, remaining_cursor.
  rewrite string_loop_escape by (rewrite !length_app; simpl; lia).
  now rewrite <- !app_assoc.
Qed.

(** The digit loop of [_parse_number] reads all the digits in front of
    it. *)
Lemma digits_loop_reads (ds : bytes) :
  Forall (fun b => is_digit b = true) ds ->
  forall acc n pre suf,
    match suf with [] => True | b :: _ => is_digit b = false end ->
    (length (ds ++ suf) <= n)%nat ->
    digits_loop n acc (cursor pre (ds ++ suf))
    = Ok (acc ++ ds, cursor (pre ++ ds) suf).
Proof.
  induction 1 as [|d ds Hd _ IH]; intros acc n pre suf Hsuf Hn.
  - cbn [app]; rewrite !app_nil_r.
    destruct suf as [|b suf]; [apply digits_loop_end|].
    destruct n as [|n]; [simpl in Hn; lia|].
    now apply digits_loop_stops.
  - destruct n as [|n]; [simpl in Hn; lia|].
    cbn [app digits_loop].
    rewrite end_of_data_cursor, chunk1_cursor, digit_range, Hd.
    cbn [negb]; rewrite next_byte1_cursor.
    rewrite IH by (assumption || (simpl in Hn; lia)).
    now rewrite <- !app_assoc.
Qed.

Lemma ends_number_no_digit (suf : bytes) :
  ends_number suf = true ->
  match suf with [] => True | b :: _ => is_digit b = false end.
Proof.
  destruct suf as [|b suf]; [trivial|]; cbn [ends_number].
  intros H; apply andb_true_iff in H as [H _]; now apply negb_true_iff.
Qed.

Lemma ends_number_no_dot (pre suf : bytes) :
  ends_number suf = true ->
  bytes_eqb (chunk 1 (cursor pre suf)) DECIMAL_DOT = false.
Proof.
  destruct suf as [|b suf]; [now rewrite (chunk_cursor 1)|].
  cbn [ends_number]; intros H; apply andb_true_iff in H as [_ H].
  apply negb_true_iff in H; rewrite chunk1_cursor; simpl; now rewrite H.
Qed.

Lemma digit_dispatch (b : byte) :
  is_digit b = true \/ b = x2d ->
  bytes_eqb [b] QUERY_START_STRING = false
  /\ bytes_eqb [b] QUERY_START_ARRAY = false
  /\ bytes_eqb [b] QUERY_START_OBJECT = false
  /\ bytes_eqb [b] (firstn 1 QUERY_TRUE) = false
  /\ bytes_eqb [b] (firstn 1 QUERY_FALSE) = false
  /\ bytes_eqb [b] (firstn 1 QUERY_NULL) = false
  /\ is_valid_int_start [b] = true.
Proof.
  intros [H| ->]; [|repeat split].
  destruct b; (discriminate || (repeat split)).
Qed.

Lemma digit_not_minus (b : byte) :
  is_digit b = true -> bytes_eqb [b] MINUS = false.
Proof. destruct b; (discriminate || reflexivity). Qed.

Lemma str_of_int_head (n : Z) :
  exists b tl, str_of_int n = b :: tl /\ (is_digit b = true \/ b = x2d).
Proof.
  pose proof (str_of_int_chars n) as H.
  destruct (str_of_int n) as [|b tl] eqn:E.
  - exfalso; unfold str_of_int in E; destruct (n <? 0); [discriminate|].
    now apply (digits_not_nil n).
  - exists b, tl; split; [reflexivity | now inversion H].
Qed.

Section ParserMore.

Variable float_of_bytes : bytes -> option spec_float.

(** The text of an integer, followed by neither a digit nor a dot, is
    read back by [_parse_number] as that integer. *)
Lemma parse_number_int (n : Z) (pre suf : bytes) :
  ends_number suf = true ->
  _parse_number float_of_bytes (cursor pre (str_of_int n ++ suf))
  = Ok (PyInt n, cursor (pre ++ str_of_int n) suf).
Proof.
  intros Hsuf.
  pose proof (ends_number_no_digit suf Hsuf) as Hnd.
  pose proof (int_str_of_int n) as Hint.
  unfold _parse_number, str_of_int in *.
  destruct (n <? 0).
  - rewrite <- app_assoc.
    rewrite (chunk1_cursor x2d pre (digits (- n) ++ suf)
             : chunk 1 (cursor pre (MINUS ++ digits (- n) ++ suf)) = MINUS).
    rewrite bytes_eqb_refl.
    rewrite (next_byte1_cursor x2d pre (digits (- n) ++ suf)
             : next_byte 1 (cursor pre (MINUS ++ _)) = _).
    unfold pbind at 1.
    rewrite remaining_cursor.
    rewrite (digits_loop_reads _ (digits_all_digits (- n)))
      by (assumption || lia).
    change (bytes_eqb (MINUS ++ digits (- n)) EMPTY) with false.
    cbv beta iota.
    rewrite ends_number_no_dot by assumption; cbn [negb].
    rewrite Hint, step_lift; unfold ret.
    now rewrite <- app_assoc.
  - pose proof (digits_all_digits n) as Hd.
    destruct (digits n) as [|d ds] eqn:E;
      [now apply digits_not_nil in E|].
    rewrite (chunk1_cursor d pre (ds ++ suf)
             : chunk 1 (cursor pre ((d :: ds) ++ suf)) = [d]).
    rewrite digit_not_minus by now inversion Hd.
    unfold pbind at 1.
    rewrite remaining_cursor.
    rewrite (digits_loop_reads _ Hd) by (assumption || lia).
    cbn [app bytes_eqb EMPTY]; cbv beta iota.
    rewrite ends_number_no_dot by assumption; cbn [negb].
    now rewrite Hint, step_lift.
Qed.

End ParserMore.

Lemma ends_selector_ends_number (suf : bytes) :
  ends_selector suf = true -> ends_number suf = true.
Proof.
  destruct suf as [|b suf]; [reflexivity|]; cbn [ends_selector ends_number].
  intros H; apply byte_dec_bl in H; now subst.
Qed.

Lemma render_segment_head (k : value) :
  is_segment k = true ->
  exists b tl, render_segment k = b :: tl
               /\ (b = x22 \/ is_digit b = true \/ b = x2d).
Proof.
  destruct k; try discriminate; intros _; cbn [render_segment].
  - destruct (str_of_int_head n) as (b & tl & -> & H).
    exists b, tl; split; [reflexivity | now right].
  - exists x22, (escape s ++ QUERY_END_STRING); split;
      [reflexivity | now left].
Qed.

Lemma segment_not_equal_sign (b : byte) :
  b = x22 \/ is_digit b = true \/ b = x2d ->
  bytes_eqb [b] QUERY_EQUAL = false.
Proof.
  intros [->|[H| ->]]; try reflexivity.
  destruct b; (discriminate || reflexivity).
Qed.

(** A step of [read_must] on a one-byte constant [C] whose byte is [b]. *)
Ltac step_byte b C :=
  match goal with
  | |- context [(read_must C ;;; ?k) (cursor ?a (b :: ?t))] =>
      rewrite (step_read_must [b] a t _ k
               : (read_must C ;;; k) (cursor a (b :: t))
                 = k (cursor (a ++ [b]) t))
  end.

Lemma render_selector_cons (k k2 : value) (rest : list value) :
  render_selector (k :: k2 :: rest)
  = render_segment k ++ QUERY_PATH_SEPARATOR ++ render_selector (k2 :: rest).
Proof. reflexivity. Qed.

Section SelectorMore.

Variable float_of_bytes : bytes -> option spec_float.

(** One segment of a selector, as the loop of [_parse_selector] reads
    it. *)
Lemma parse_segment (k : value) (pre suf : bytes) :
  is_segment k = true ->
  ends_number suf = true ->
  let p := cursor pre (render_segment k ++ suf) in
  (if bytes_eqb (chunk 1 p) QUERY_START_STRING
   then s <- _parse_string ;; ret (PyBytes s)
   else if is_valid_int_start (chunk 1 p)
   then _parse_number float_of_bytes
   else raise (ParseError (current p) (Text "Expected string or number"))) p
  = Ok (k, cursor (pre ++ render_segment k) suf).
Proof.
  intros Hk Hsuf p; subst p.
  destruct k; try discriminate; cbn [render_segment].
  - destruct (str_of_int_head n) as (b & tl & E & Hb).
    pose proof (parse_number_int float_of_bytes n pre suf Hsuf) as H.
    rewrite E in *; cbn [app] in *.
    rewrite chunk1_cursor.
    destruct (digit_dispatch b Hb) as (-> & _ & _ & _ & _ & _ & ->).
    exact H.
  - rewrite (chunk1_cursor x22 pre ((escape s ++ QUERY_END_STRING) ++ suf)
             : chunk 1 (cursor pre (string_literal s ++ suf)) = [x22]).
    change (bytes_eqb [x22] QUERY_START_STRING) with true; cbv beta iota.
    now rewrite (step_ok _ _ _ _ _ _ _ (parse_string_literal s pre suf)).
Qed.

Lemma selector_loop_rendered (rest : list value) :
  forall k acc n pre suf,
    forallb is_segment (k :: rest) = true ->
    ends_selector suf = true ->
    (length rest < n)%nat ->
    selector_loop float_of_bytes n acc
      (cursor pre (render_selector (k :: rest) ++ suf))
    = Ok (acc ++ k :: rest,
          cursor (pre ++ render_selector (k :: rest)) suf).
Proof.
  induction rest as [|k2 rest IH]; intros k acc n pre suf Hseg Hsuf Hn;
    (destruct n as [|n]; [simpl in Hn; lia|]);
    cbn [forallb] in Hseg; apply andb_true_iff in Hseg as [Hk Hrest];
    [change (render_selector [k]) with (render_segment k)
    |rewrite render_selector_cons];
    cbn [selector_loop]; cbv zeta.
  - pose proof (parse_segment k pre suf Hk
                  (ends_selector_ends_number suf Hsuf)) as H.
    cbv zeta in H; unfold pbind at 1; rewrite H.
    rewrite end_of_data_cursor.
    destruct suf as [|b suf]; [reflexivity|].
    cbn [ends_selector] in Hsuf; apply byte_dec_bl in Hsuf; subst b.
    cbn [negb]; now rewrite chunk1_cursor.
  - pose proof (parse_segment k pre
                  (QUERY_PATH_SEPARATOR ++ render_selector (k2 :: rest)
                     ++ suf) Hk eq_refl) as H.
    cbv zeta in H; rewrite <- !app_assoc.
    unfold pbind at 1; rewrite H.
    rewrite end_of_data_cursor.
    change (QUERY_PATH_SEPARATOR ++ render_selector (k2 :: rest) ++ suf)
      with (x2f :: render_selector (k2 :: rest) ++ suf).
    cbn [negb]; rewrite chunk1_cursor.
    change (bytes_eqb [x2f] QUERY_PATH_SEPARATOR) with true; cbv beta iota.
    step_byte x2f QUERY_PATH_SEPARATOR.
    rewrite IH by (assumption || (simpl in Hn; lia)).
    now rewrite <- !app_assoc.
Qed.

Lemma parse_selector_reads (selector : list value) (pre suf : bytes) :
  forallb is_segment selector = true ->
  ends_selector suf = true ->
  _parse_selector float_of_bytes
    (cursor pre (render_selector selector ++ suf))
  = Ok (selector, cursor (pre ++ render_selector selector) suf).
Proof.
  intros Hseg Hsuf; unfold _parse_selector.
  destruct selector as [|k rest].
  - cbn [render_selector app]; rewrite app_nil_r, end_of_data_cursor.
    destruct suf as [|b suf]; [reflexivity|].
    cbn [ends_selector] in Hsuf; apply byte_dec_bl in Hsuf; subst b.
    now rewrite chunk1_cursor.
  - assert (Hhead : exists b tl,
               render_selector (k :: rest) ++ suf = b :: tl
               /\ bytes_eqb [b] QUERY_EQUAL = false).
    { cbn [forallb] in Hseg; apply andb_true_iff in Hseg as [Hk _].
      destruct (render_segment_head k Hk) as (b & tl & E & Hb).
      destruct rest as [|k2 rest];
        [change (render_selector [k]) with (render_segment k)
        |rewrite render_selector_cons]; rewrite E;
        eexists; eexists;
        (split; [reflexivity | now apply segment_not_equal_sign]). }
    destruct Hhead as (b & tl & E & Hb).
    pose proof (selector_loop_rendered rest k []
                  (S (remaining
                        (cursor pre (render_selector (k :: rest) ++ suf))))
                  pre suf Hseg Hsuf) as H.
    rewrite E in *.
    rewrite end_of_data_cursor, chunk1_cursor, Hb; cbn [orb].
    apply H.
    rewrite remaining_cursor, <- E, length_app.
    clear - Hseg; cbn [forallb] in Hseg.
    revert k Hseg; induction rest as [|k2 rest IH]; intros k Hseg;
      [simpl; lia|].
    apply andb_true_iff in Hseg as [Hk Hrest].
    specialize (IH k2 Hrest).
    rewrite render_selector_cons, !length_app; simpl length in *; lia.
Qed.

(** X16.  A selector written as a path is read back: for keys that are
    integers or strings, the segments written one after the other with
    [/] between them, strings between double quotes with a backslash in
    front of a double quote or a backslash, are parsed by
    [_parse_selector] to the list of these keys, and the parser stops at
    the end of the path, which the end of the expression or [=] must
    follow. *)
Theorem parse_selector_rendered (selector : list value) (pre suf : bytes) :
  forallb is_segment selector = true ->
  ends_selector suf = true ->
  _parse_selector float_of_bytes
    (cursor pre (render_selector selector ++ suf))
  = Ok (selector, cursor (pre ++ render_selector selector) suf).
Proof. exact (parse_selector_reads selector pre suf). Qed.

End SelectorMore.

Lemma parse_selector_rendered_witness :
  _parse_selector sample_float_of_bytes
    (mkParser (BQ "S:'a\'b'/-12/0='x'") 2)
  = Ok ([PyBytes (BQ "a'b"); PyInt (-12); PyInt 0],
        mkParser (BQ "S:'a\'b'/-12/0='x'") 14).
Proof.
  apply (parse_selector_rendered sample_float_of_bytes
           [PyBytes (BQ "a'b"); PyInt (-12); PyInt 0]
           (B "S:") (BQ "='x'"));
    reflexivity.
Defined.

Lemma chunk1_head (x : bytes) (b : byte) (tl pre suf : bytes) :
  x = b :: tl -> chunk 1 (cursor pre (x ++ suf)) = [b].
Proof. intros ->; apply chunk1_cursor. Qed.

Lemma end_of_data_head (x : bytes) (b : byte) (tl pre suf : bytes) :
  x = b :: tl -> end_of_data (cursor pre (x ++ suf)) = false.
Proof. intros ->; now rewrite end_of_data_cursor. Qed.

Lemma literal_ok_pairs_cons (k x : value) (l : list (value * value)) :
  literal_ok (PyList ((k, x) :: l))
  = literal_ok k && literal_ok x && literal_ok (PyList l).
Proof. reflexivity. Qed.

Lemma render_value_head (v : value) :
  literal_ok v = true ->
  exists b tl, render_value v = b :: tl /\ b <> x5d.
Proof.
  destruct v as [|[|]|n|f|s|items|c props|s]; try discriminate; intros _;
    try (eexists; eexists; split; [reflexivity | discriminate]).
  cbn [render_value].
  destruct (str_of_int_head n) as (b & tl & E & Hb).
  exists b, tl; split; [assumption|].
  destruct Hb as [H| ->]; [intros ->; discriminate | discriminate].
Qed.

Lemma render_pairs_length (items : list (value * value)) :
  (length items <= length (render_pairs render_value items))%nat.
Proof.
  induction items as [|kv tl IH]; [simpl; lia|].
  change (render_pairs render_value (kv :: tl))
    with (render_value (fst kv) ++ QUERY_KEY_VALUE_SEPARATOR
            ++ render_value (snd kv)
            ++ match tl with
               | [] => []
               | _ :: _ =>
                   QUERY_ITEM_SEPARATOR ++ render_pairs render_value tl
               end).
  rewrite !length_app.
  change (length QUERY_KEY_VALUE_SEPARATOR) with 1%nat.
  destruct tl; [cbn [length]; lia|].
  rewrite length_app.
  change (length QUERY_ITEM_SEPARATOR) with 1%nat.
  cbn [length] in IH |- *; lia.
Qed.

Section ValueMore.

Variable float_of_bytes : bytes -> option spec_float.

(** The dispatch of [_parse_value] on the first byte. *)
Ltac dispatch_value b pre tl :=
  cbn [_parse_value];
  rewrite (chunk1_cursor b pre tl);
  reflexivity.

Lemma parse_value_at_string (fuel : nat) (pre tl : bytes) :
  _parse_value float_of_bytes (S fuel) (cursor pre (x22 :: tl))
  = (s <- _parse_string ;; ret (PyBytes s)) (cursor pre (x22 :: tl)).
Proof. dispatch_value x22 pre tl. Qed.

Lemma parse_value_at_array (fuel : nat) (pre tl : bytes) :
  _parse_value float_of_bytes (S fuel) (cursor pre (x5b :: tl))
  = (a <- _parse_array (_parse_value float_of_bytes fuel) ;; ret (PyList a))
      (cursor pre (x5b :: tl)).
Proof. dispatch_value x5b pre tl. Qed.

Lemma parse_value_at_object (fuel : nat) (pre tl : bytes) :
  _parse_value float_of_bytes (S fuel) (cursor pre (x7b :: tl))
  = _parse_object (_parse_value float_of_bytes fuel)
      (cursor pre (x7b :: tl)).
Proof. dispatch_value x7b pre tl. Qed.

Lemma parse_value_at_true (fuel : nat) (pre tl : bytes) :
  _parse_value float_of_bytes (S fuel) (cursor pre (x74 :: tl))
  = _parse_true (cursor pre (x74 :: tl)).
Proof. dispatch_value x74 pre tl. Qed.

Lemma parse_value_at_false (fuel : nat) (pre tl : bytes) :
  _parse_value float_of_bytes (S fuel) (cursor pre (x66 :: tl))
  = _parse_false (cursor pre (x66 :: tl)).
Proof. dispatch_value x66 pre tl. Qed.

Lemma parse_value_at_null (fuel : nat) (pre tl : bytes) :
  _parse_value float_of_bytes (S fuel) (cursor pre (x6e :: tl))
  = _parse_null (cursor pre (x6e :: tl)).
Proof. dispatch_value x6e pre tl. Qed.

Lemma parse_value_at_number (fuel : nat) (b : byte) (pre tl : bytes) :
  is_digit b = true \/ b = x2d ->
  _parse_value float_of_bytes (S fuel) (cursor pre (b :: tl))
  = _parse_number float_of_bytes (cursor pre (b :: tl)).
Proof.
  intros Hb; cbn [_parse_value]; rewrite chunk1_cursor.
  now destruct (digit_dispatch b Hb) as (-> & -> & -> & -> & -> & -> & ->).
Qed.

Ltac step_value H Hok :=
  match goal with
  | |- context [pbind (_parse_value float_of_bytes ?f) _
                  (cursor ?a (render_value _ ++ ?t))] =>
      rewrite (step_ok _ _ _ _ _ _ _
                 (H Hok f a t ltac:(lia) ltac:(reflexivity)))
  end.

Lemma array_loop_at_end (pv : M value) (n : nat)
  (acc : list (value * value)) (pre suf : bytes) :
  array_loop pv n acc (cursor pre (QUERY_END_ARRAY ++ suf))
  = Ok (acc, cursor pre (QUERY_END_ARRAY ++ suf)).
Proof.
  destruct n; cbn [array_loop];
    rewrite (chunk1_cursor x5d pre suf
             : chunk 1 (cursor pre (QUERY_END_ARRAY ++ suf)) = [x5d]);
    now rewrite andb_false_r.
Qed.

(** The loop of [_parse_array] on the pairs of an array literal, which
    a comma may follow when there is a pair at least. *)
Lemma array_loop_rendered (fuel : nat) (items : list (value * value)) :
  ForallPairs (reads_literal float_of_bytes) items ->
  literal_ok (PyList items) = true ->
  (height (PyList items) <= fuel)%nat ->
  forall acc n pre tail suf,
    tail = [] \/ (tail = QUERY_ITEM_SEPARATOR /\ items <> []) ->
    (length items <= n)%nat ->
    array_loop (_parse_value float_of_bytes fuel) n acc
      (cursor pre (render_pairs render_value items
                     ++ tail ++ QUERY_END_ARRAY ++ suf))
    = Ok (acc ++ items,
          cursor (pre ++ render_pairs render_value items ++ tail)
            (QUERY_END_ARRAY ++ suf)).
Proof.
  induction 1 as [|[k x] items [Hk Hx] _ IH];
    intros Hok Hh acc n pre tail suf Htail Hn.
  - destruct Htail as [->|[_ Hne]]; [|contradiction].
    cbn [render_pairs app]; rewrite !app_nil_r; apply array_loop_at_end.
  - destruct n as [|n]; [simpl in Hn; lia|].
    rewrite literal_ok_pairs_cons in Hok.
    apply andb_true_iff in Hok as [Hok Hokl].
    apply andb_true_iff in Hok as [Hokk Hokx].
    rewrite height_pairs_cons in Hh; simpl in Hk, Hx.
    destruct (render_value_head k Hokk) as (b & tl & Ehead & Hb).
    cbn [render_pairs fst snd array_loop]; rewrite <- !app_assoc.
    rewrite (end_of_data_head _ _ _ pre _ Ehead).
    rewrite (chunk1_head _ _ _ pre _ Ehead).
    replace (bytes_eqb [b] QUERY_END_ARRAY) with false
      by (symmetry; apply bytes_eqb_neq; intros [= ->]; now apply Hb).
    cbn [negb andb].
    change (render_value k
              ++ QUERY_KEY_VALUE_SEPARATOR ++ render_value x
              ++ match items with
                 | [] => []
                 | _ :: _ =>
                     QUERY_ITEM_SEPARATOR ++ render_pairs render_value items
                 end ++ tail ++ QUERY_END_ARRAY ++ suf)
      with (render_value k
              ++ x3a :: render_value x
              ++ match items with
                 | [] => []
                 | _ :: _ =>
                     QUERY_ITEM_SEPARATOR ++ render_pairs render_value items
                 end ++ tail ++ QUERY_END_ARRAY ++ suf).
    step_value Hk Hokk.
    step_byte x3a QUERY_KEY_VALUE_SEPARATOR.
    destruct items as [|kv items].
    + cbn [app].
      destruct Htail as [->|[-> _]].
      * cbn [app].
        step_value Hx Hokx.
        cbv beta zeta.
        rewrite (chunk1_cursor x5d _ suf
                 : chunk 1 (cursor _ (QUERY_END_ARRAY ++ suf)) = [x5d]).
        change (bytes_eqb [x5d] QUERY_ITEM_SEPARATOR) with false.
        change (bytes_eqb [x5d] QUERY_END_ARRAY) with true.
        cbn [negb]; rewrite array_loop_at_end.
        cbn [render_pairs]; now rewrite <- !app_assoc, !app_nil_r.
      * change (QUERY_ITEM_SEPARATOR ++ QUERY_END_ARRAY ++ suf)
          with (x2c :: QUERY_END_ARRAY ++ suf).
        step_value Hx Hokx.
        cbv beta zeta; rewrite chunk1_cursor.
        change (bytes_eqb [x2c] QUERY_ITEM_SEPARATOR) with true.
        cbv beta iota.
        step_byte x2c QUERY_ITEM_SEPARATOR.
        rewrite array_loop_at_end.
        cbn [render_pairs]; now rewrite <- !app_assoc.
    + rewrite <- !app_assoc.
      change (QUERY_ITEM_SEPARATOR
                ++ render_pairs render_value (kv :: items)
                ++ tail ++ QUERY_END_ARRAY ++ suf)
        with (x2c :: render_pairs render_value (kv :: items)
                ++ tail ++ QUERY_END_ARRAY ++ suf).
      step_value Hx Hokx.
      cbv beta zeta; rewrite chunk1_cursor.
      change (bytes_eqb [x2c] QUERY_ITEM_SEPARATOR) with true.
      cbv beta iota.
      step_byte x2c QUERY_ITEM_SEPARATOR.
      rewrite (IH Hokl ltac:(lia))
        by ((destruct Htail as [->|[-> _]];
             [now left | right; split; [reflexivity | discriminate]])
            || (simpl in Hn |- *; lia)).
      now rewrite <- !app_assoc.
Qed.

Lemma parse_array_tail (fuel : nat) (items : list (value * value))
  (pre tail suf : bytes) :
  ForallPairs (reads_literal float_of_bytes) items ->
  literal_ok (PyList items) = true ->
  (height (PyList items) <= fuel)%nat ->
  tail = [] \/ (tail = QUERY_ITEM_SEPARATOR /\ items <> []) ->
  _parse_array (_parse_value float_of_bytes fuel)
    (cursor pre (QUERY_START_ARRAY ++ render_pairs render_value items
                   ++ tail ++ QUERY_END_ARRAY ++ suf))
  = Ok (items,
        cursor (pre ++ QUERY_START_ARRAY ++ render_pairs render_value items
                  ++ tail ++ QUERY_END_ARRAY) suf).
Proof.
  intros HP Hok Hh Htail; unfold _parse_array.
  rewrite step_read_must.
  unfold pbind at 1.
  rewrite (array_loop_rendered fuel items HP Hok Hh [] _ _ tail suf Htail)
    by (rewrite remaining_cursor, !length_app;
        pose proof (render_pairs_length items); lia).
  rewrite step_read_must; unfold ret.
  now rewrite <- !app_assoc.
Qed.

Lemma parse_array_rendered (fuel : nat) (items : list (value * value))
  (pre suf : bytes) :
  ForallPairs (reads_literal float_of_bytes) items ->
  literal_ok (PyList items) = true ->
  (height (PyList items) <= fuel)%nat ->
  _parse_array (_parse_value float_of_bytes fuel)
    (cursor pre (QUERY_START_ARRAY ++ render_pairs render_value items
                   ++ QUERY_END_ARRAY ++ suf))
  = Ok (items,
        cursor (pre ++ QUERY_START_ARRAY ++ render_pairs render_value items
                  ++ QUERY_END_ARRAY) suf).
Proof.
  intros HP Hok Hh.
  exact (parse_array_tail fuel items pre [] suf HP Hok Hh (or_introl eq_refl)).
Qed.

End ValueMore.

Lemma render_pairs_cons (kv : value * value) (tl : list (value * value)) :
  render_pairs render_value (kv :: tl)
  = render_value (fst kv) ++ QUERY_KEY_VALUE_SEPARATOR
      ++ render_value (snd kv)
      ++ match tl with
         | [] => []
         | _ :: _ => QUERY_ITEM_SEPARATOR ++ render_pairs render_value tl
         end.
Proof. reflexivity. Qed.

Lemma height_le_render_pairs (items : list (value * value)) :
  ForallPairs (fun v => (height v <= length (render_value v))%nat) items ->
  (height (PyList items) <= S (length (render_pairs render_value items)))%nat.
Proof.
  induction 1 as [|[k x] items [Hk Hx] _ IH]; [simpl; lia|].
  rewrite height_pairs_cons, render_pairs_cons, !length_app.
  simpl in Hk, Hx; cbn [fst snd].
  destruct items; [simpl in *; lia|].
  rewrite length_app; lia.
Qed.

(** A literal is at least as long as the value is deep. *)
Lemma height_le_render (v : value) :
  (height v <= length (render_value v))%nat.
Proof.
  induction v as [|b|n|f|s|items IH|c props IH|s] using value_induction;
    try (simpl; lia).
  - pose proof (height_le_render_pairs items IH).
    cbn [render_value]; rewrite !length_app.
    change (length QUERY_START_ARRAY) with 1%nat; lia.
  - pose proof (height_le_render_pairs props IH).
    change (height (PyObject c props)) with (height (PyList props)).
    cbn [render_value]; rewrite !length_app.
    change (length QUERY_START_ARRAY) with 1%nat; lia.
Qed.

Section LiteralMore.

Variable float_of_bytes : bytes -> option spec_float.

Lemma parse_value_rendered (v : value) : reads_literal float_of_bytes v.
Proof.
  induction v as [|b|n|f|s|items IH|c props IH|s] using value_induction;
    intros Hok fuel pre suf Hh Hsuf; try discriminate;
    (destruct fuel as [|fuel]; [lia|]).
  - change (render_value PyNone ++ suf) with (x6e :: B "ull" ++ suf).
    rewrite parse_value_at_null; unfold _parse_null.
    now rewrite (step_read_must QUERY_NULL pre suf).
  - destruct b.
    + change (render_value (PyBool true) ++ suf)
        with (x74 :: B "rue" ++ suf).
      rewrite parse_value_at_true; unfold _parse_true.
      now rewrite (step_read_must QUERY_TRUE pre suf).
    + change (render_value (PyBool false) ++ suf)
        with (x66 :: B "alse" ++ suf).
      rewrite parse_value_at_false; unfold _parse_false.
      now rewrite (step_read_must QUERY_FALSE pre suf).
  - cbn [render_value].
    pose proof (parse_number_int float_of_bytes n pre suf Hsuf) as H.
    destruct (str_of_int_head n) as (b & tl & E & Hb).
    rewrite E in *; cbn [app] in *.
    now rewrite parse_value_at_number.
  - change (render_value (PyBytes s) ++ suf)
      with (x22 :: (escape s ++ QUERY_END_STRING) ++ suf).
    rewrite parse_value_at_string.
    now rewrite (step_ok _ _ _ _ _ _ _ (parse_string_literal s pre suf)).
  - cbn [render_value]; rewrite <- !app_assoc.
    change (QUERY_START_ARRAY ++ render_pairs render_value items
              ++ QUERY_END_ARRAY ++ suf)
      with (x5b :: render_pairs render_value items
              ++ QUERY_END_ARRAY ++ suf).
    rewrite parse_value_at_array.
    rewrite (step_ok _ _ _ _ _ _ _
               (parse_array_rendered float_of_bytes fuel items pre suf
                  IH Hok ltac:(lia))).
    reflexivity.
  - cbn [literal_ok] in Hok; apply andb_true_iff in Hok as [Hc Hok].
    change (forallb _ props) with (literal_ok (PyList props)) in Hok.
    change (height (PyObject c props)) with (height (PyList props)) in Hh.
    cbn [render_value]; rewrite <- !app_assoc.
    change (QUERY_START_OBJECT ++ string_literal c ++ QUERY_ITEM_SEPARATOR
              ++ QUERY_START_ARRAY ++ render_pairs render_value props
              ++ QUERY_END_ARRAY ++ QUERY_END_OBJECT ++ suf)
      with (x7b :: string_literal c ++ QUERY_ITEM_SEPARATOR
              ++ QUERY_START_ARRAY ++ render_pairs render_value props
              ++ QUERY_END_ARRAY ++ QUERY_END_OBJECT ++ suf).
    rewrite parse_value_at_object; unfold _parse_object.
    rewrite (step_read_must [x7b] pre _ _ _
             : pbind (read_must QUERY_START_OBJECT) _
                 (cursor pre (x7b :: _)) = _).
    rewrite (step_ok _ _ _ _ _ _ _ (parse_string_literal c _ _)).
    apply negb_true_iff in Hc.
    unfold pbind at 1; rewrite Hc.
    rewrite step_read_must.
    rewrite (step_ok _ _ _ _ _ _ _
               (parse_array_rendered float_of_bytes fuel props _ _
                  IH Hok ltac:(lia))).
    rewrite step_read_must; unfold ret.
    now rewrite <- !app_assoc.
Qed.

(** X17.  A value written as a literal of the query language is read
    back: for every value made of [None], booleans, integers, strings,
    arrays and objects with a non-empty class name, [_parse_value] on
    the literal returns the value and stops at the end of the literal,
    provided that neither a digit nor a dot follows. *)
Theorem parse_value_literal (v : value) (pre suf : bytes) :
  literal_ok v = true ->
  ends_number suf = true ->
  _parse_value float_of_bytes
    (S (remaining (cursor pre (render_value v ++ suf))))
    (cursor pre (render_value v ++ suf))
  = Ok (v, cursor (pre ++ render_value v) suf).
Proof.
  intros Hok Hsuf; apply parse_value_rendered; try assumption.
  rewrite remaining_cursor, length_app.
  pose proof (height_le_render v); lia.
Qed.

(** X18.  An array literal may end with a comma: when the pairs of a
    non-empty array literal are followed by [,] before the closing [\]],
    [_parse_value] returns the same list as without the comma. *)
Theorem trailing_comma_accepted (items : list (value * value))
  (pre suf : bytes) :
  items <> [] ->
  literal_ok (PyList items) = true ->
  let p := cursor pre (QUERY_START_ARRAY ++ render_pairs render_value items
                         ++ QUERY_ITEM_SEPARATOR ++ QUERY_END_ARRAY ++ suf) in
  _parse_value float_of_bytes (S (remaining p)) p
  = Ok (PyList items,
        cursor (pre ++ QUERY_START_ARRAY ++ render_pairs render_value items
                  ++ QUERY_ITEM_SEPARATOR ++ QUERY_END_ARRAY) suf).
Proof.
  intros Hne Hok p; subst p.
  change (QUERY_START_ARRAY ++ render_pairs render_value items
            ++ QUERY_ITEM_SEPARATOR ++ QUERY_END_ARRAY ++ suf)
    with (x5b :: render_pairs render_value items
            ++ QUERY_ITEM_SEPARATOR ++ QUERY_END_ARRAY ++ suf).
  rewrite parse_value_at_array.
  assert (HP : ForallPairs (reads_literal float_of_bytes) items)
    by (apply Forall_forall; intros kv _; split; apply parse_value_rendered).
  assert (Hh : (height (PyList items)
                <= remaining
                     (cursor pre
                        (x5b :: render_pairs render_value items
                           ++ QUERY_ITEM_SEPARATOR ++ QUERY_END_ARRAY
                           ++ suf)))%nat).
  { rewrite remaining_cursor; cbn [length]; rewrite !length_app.
    change (length QUERY_ITEM_SEPARATOR) with 1%nat.
    pose proof (height_le_render (PyList items)) as H.
    cbn [render_value] in H; rewrite !length_app in H.
    change (length QUERY_START_ARRAY) with 1%nat in H.
    change (length QUERY_END_ARRAY) with 1%nat in H.
    lia. }
  rewrite (step_ok _ _ _ _ _ _ _
             (parse_array_tail float_of_bytes _ items pre
                QUERY_ITEM_SEPARATOR suf HP Hok Hh
                (or_intror (conj eq_refl Hne)))).
  reflexivity.
Qed.

End LiteralMore.

Lemma parse_value_literal_witness :
  let e := BQ "S:={'Person',['name':'J\'\\',-7:[null:true,[]:false]]}" in
  _parse_value sample_float_of_bytes (S (remaining (mkParser e 3)))
    (mkParser e 3)
  = Ok (PyObject (B "Person")
          [ (PyBytes (B "name"), PyBytes (BQ "J'\"));
            (PyInt (-7), PyList [ (PyNone, PyBool true);
                                  (PyList [], PyBool false) ]) ],
        mkParser e 54).
Proof.
  exact (parse_value_literal sample_float_of_bytes
           (PyObject (B "Person")
              [ (PyBytes (B "name"), PyBytes (BQ "J'\"));
                (PyInt (-7), PyList [ (PyNone, PyBool true);
                                      (PyList [], PyBool false) ]) ])
           (B "S:=") [] eq_refl eq_refl).
Defined.

Lemma trailing_comma_accepted_witness :
  let e := BQ "[1:'a',2:[true:null,],]" in
  _parse_value sample_float_of_bytes (S (remaining (mkParser e 9)))
    (mkParser e 9)
  = Ok (PyList [ (PyBool true, PyNone) ], mkParser e 21).
Proof.
  intros e.
  exact (trailing_comma_accepted sample_float_of_bytes
           [ (PyBool true, PyNone) ] (BQ "[1:'a',2:") (B ",]")
           ltac:(discriminate) eq_refl).
Defined.

Section RunMore.

Variable float_of_bytes : bytes -> option spec_float.

(** The three commands, up to the end of the selector. *)
Lemma parse_command_reads (c : byte) (selector : list value) (suf : bytes) :
  c = x47 \/ c = x53 \/ c = x44 ->
  forallb is_segment selector = true ->
  ends_selector suf = true ->
  _parse_command float_of_bytes
    (reset (c :: QUERY_COMMAND_SEPARATOR ++ render_selector selector ++ suf))
  = (val <- (if bytes_eqb [c] QUERY_SET
             then read_must QUERY_EQUAL ;;;
                  (fun p => _parse_value float_of_bytes (S (remaining p)) p)
             else ret PyNone) ;;
     ret ([c], selector, val))
      (cursor ([c] ++ QUERY_COMMAND_SEPARATOR ++ render_selector selector)
         suf).
Proof.
  intros Hc Hseg Hsuf; rewrite reset_cursor; unfold _parse_command.
  cbv zeta; rewrite chunk1_cursor.
  assert (negb (bytes_eqb [c] QUERY_GET || bytes_eqb [c] QUERY_SET
                || bytes_eqb [c] QUERY_DELETE) = false) as ->
    by (destruct Hc as [->|[->| ->]]; reflexivity).
  rewrite (step_read_must [c] [] _ _ _
           : pbind (read_must [c]) _ (cursor [] (c :: _)) = _).
  rewrite step_read_must.
  rewrite (step_ok _ _ _ _ _ _ _
             (parse_selector_reads float_of_bytes selector _ suf Hseg Hsuf)).
  now rewrite <- !app_assoc.
Qed.

(** The three commands on an expression written from a selector and a
    value, whatever follows the expression. *)
Lemma run_reads (structure : value) (selector : list value) (v : value)
  (rest rest' : bytes) :
  forallb is_segment selector = true ->
  literal_ok v = true ->
  ends_selector rest = true ->
  ends_number rest' = true ->
  run float_of_bytes structure
    (QUERY_GET ++ QUERY_COMMAND_SEPARATOR ++ render_selector selector
       ++ rest)
  = Ok (_get selector structure)
  /\ run float_of_bytes structure
       (QUERY_DELETE ++ QUERY_COMMAND_SEPARATOR ++ render_selector selector
          ++ rest)
     = _delete selector structure
  /\ run float_of_bytes structure
       (QUERY_SET ++ QUERY_COMMAND_SEPARATOR ++ render_selector selector
          ++ QUERY_EQUAL ++ render_value v ++ rest')
     = _set selector v structure.
Proof.
  intros Hseg Hok Hrest Hrest'; unfold run; repeat split.
  - rewrite (parse_command_reads x47 selector rest (or_introl eq_refl) Hseg
               Hrest
             : _parse_command float_of_bytes
                 (reset (QUERY_GET ++ _)) = _).
    reflexivity.
  - rewrite (parse_command_reads x44 selector rest
               (or_intror (or_intror eq_refl)) Hseg Hrest
             : _parse_command float_of_bytes
                 (reset (QUERY_DELETE ++ _)) = _).
    reflexivity.
  - rewrite (parse_command_reads x53 selector
               (QUERY_EQUAL ++ render_value v ++ rest')
               (or_intror (or_introl eq_refl)) Hseg eq_refl
             : _parse_command float_of_bytes
                 (reset (QUERY_SET ++ _)) = _).
    change (bytes_eqb [x53] QUERY_SET) with true; cbv iota.
    unfold pbind at 1; rewrite step_read_must; cbv beta.
    rewrite (parse_value_rendered float_of_bytes v Hok _ _ rest');
      [reflexivity| |assumption].
    rewrite remaining_cursor, length_app.
    pose proof (height_le_render v); lia.
Qed.

(** X19.  An expression written from a selector and a value is run as
    the operation it names: for a selector of integers and strings and a
    value that has a literal, [G:] followed by the path returns what
    [_get] returns, [D:] followed by the path what [_delete] returns,
    and [S:] followed by the path, [=] and the literal what [_set]
    returns, errors included.  The rest of the expression is not looked
    at: what follows the path of [G:] and [D:] from a [=] on, and what
    follows the literal of [S:], unless it starts with a digit or a dot,
    changes nothing. *)
Theorem run_rendered (structure : value) (selector : list value)
  (v : value) (rest rest' : bytes) :
  forallb is_segment selector = true ->
  literal_ok v = true ->
  ends_selector rest = true ->
  ends_number rest' = true ->
  run float_of_bytes structure
    (QUERY_GET ++ QUERY_COMMAND_SEPARATOR ++ render_selector selector
       ++ rest)
  = Ok (_get selector structure)
  /\ run float_of_bytes structure
       (QUERY_DELETE ++ QUERY_COMMAND_SEPARATOR ++ render_selector selector
          ++ rest)
     = _delete selector structure
  /\ run float_of_bytes structure
       (QUERY_SET ++ QUERY_COMMAND_SEPARATOR ++ render_selector selector
          ++ QUERY_EQUAL ++ render_value v ++ rest')
     = _set selector v structure.
Proof. exact (run_reads structure selector v rest rest'). Qed.

Variable str_of_float : spec_float -> bytes.

(** X20.  Editing an encoding is editing the value it encodes: on the
    bytes that the encoder produces for a structure whose floats are
    printed as texts that [float()] reads back, [php_modify] with an
    expression written from a selector and a value returns the encoding
    of what [_get], [_delete] or [_set] returns on the structure, or
    raises what they or the encoder raise. *)
Theorem php_modify_rendered (structure : value) (d : bytes)
  (selector : list value) (v : value) :
  php_serialize str_of_float structure = Ok d ->
  floats_round_trip float_of_bytes str_of_float structure ->
  forallb is_segment selector = true ->
  literal_ok v = true ->
  php_modify float_of_bytes str_of_float d
    (QUERY_GET ++ QUERY_COMMAND_SEPARATOR ++ render_selector selector)
  = php_serialize str_of_float (_get selector structure)
  /\ php_modify float_of_bytes str_of_float d
       (QUERY_DELETE ++ QUERY_COMMAND_SEPARATOR ++ render_selector selector)
     = (modified <-- _delete selector structure ;;
        php_serialize str_of_float modified)
  /\ php_modify float_of_bytes str_of_float d
       (QUERY_SET ++ QUERY_COMMAND_SEPARATOR ++ render_selector selector
          ++ QUERY_EQUAL ++ render_value v)
     = (modified <-- _set selector v structure ;;
        php_serialize str_of_float modified).
Proof.
  intros Henc Hfl Hseg Hok; unfold php_modify.
  rewrite (php_unserialize_php_serialize float_of_bytes str_of_float
             structure d Henc Hfl).
  destruct (run_reads structure selector v [] [] Hseg Hok eq_refl eq_refl)
    as (Hget & Hdelete & Hset).
  rewrite !app_nil_r in *.
  cbn [bind]; rewrite Hget, Hdelete, Hset.
  repeat split.
Qed.

End RunMore.

Lemma run_rendered_witness :
  let structure :=
    PyList [ (PyBytes (B "user"),
              PyObject (B "User") [ (PyBytes (B "id"), PyInt 7) ]) ] in
  run sample_float_of_bytes structure (BQ "G:'user'/'id'=9") = Ok (PyInt 7)
  /\ run sample_float_of_bytes structure (BQ "D:'user'/'id'=9")
     = Ok (PyList [ (PyBytes (B "user"), PyObject (B "User") []) ])
  /\ run sample_float_of_bytes structure
       (BQ "S:'user'/'id'=[1:null] and more")
     = Ok (PyList [ (PyBytes (B "user"),
                     PyObject (B "User")
                       [ (PyBytes (B "id"),
                          PyList [ (PyInt 1, PyNone) ]) ]) ]).
Proof.
  intros structure.
  exact (run_rendered sample_float_of_bytes structure
           [PyBytes (B "user"); PyBytes (B "id")]
           (PyList [ (PyInt 1, PyNone) ]) (B "=9") (B " and more")
           eq_refl eq_refl eq_refl eq_refl).
Defined.

Lemma php_modify_rendered_witness :
  let structure :=
    PyList [ (PyBytes (B "user"),
              PyObject (B "User") [ (PyBytes (B "id"), PyInt 7) ]) ] in
  let d := BQ "a:1:{s:4:'user';O:4:'User':1:{s:2:'id';i:7;}}" in
  php_modify sample_float_of_bytes sample_str_of_float d
    (BQ "G:'user'/'id'")
  = Ok (B "i:7;")
  /\ php_modify sample_float_of_bytes sample_str_of_float d
       (BQ "D:'user'/'id'")
     = Ok (BQ "a:1:{s:4:'user';O:4:'User':0:{}}")
  /\ php_modify sample_float_of_bytes sample_str_of_float d
       (BQ "S:'user'/'id'=[1:true]")
     = Ok (BQ "a:1:{s:4:'user';O:4:'User':1:{s:2:'id';a:1:{i:1;b:1;}}}").
Proof.
  intros structure d.
  refine (php_modify_rendered sample_float_of_bytes sample_str_of_float
            structure d [PyBytes (B "user"); PyBytes (B "id")]
            (PyList [ (PyInt 1, PyBool true) ]) eq_refl _ eq_refl eq_refl).
  vm_compute; tauto.
Defined.

(** ** Strings that are not closed, numbers with a dot, command headers *)

(** The loop of [_parse_string] on an escaped text that the data ends
    after, or that a lone backslash follows. *)
Lemma string_loop_open (s : bytes) :
  forall acc n pre tail,
    tail = [] \/ tail = QUERY_ESCAPE ->
    (length (escape s ++ tail) <= n)%nat ->
    string_loop n false acc (cursor pre (escape s ++ tail))
    = Raise (ParseError (length (pre ++ escape s ++ tail))
               (Text match tail with
                     | [] => "Unterminated string"
                     | _ :: _ => "Incomplete escape sequence"
                     end)).
Proof.
  induction s as [|b s IH]; intros acc n pre tail Htail Hn.
  - change (escape [] ++ tail) with tail in *.
    destruct Htail as [->| ->].
    + rewrite app_nil_r.
      destruct n; cbn [string_loop]; now rewrite end_of_data_cursor.
    + destruct n as [|n]; [simpl in Hn; lia|].
      change QUERY_ESCAPE with [x5c].
      cbn [string_loop].
      rewrite end_of_data_cursor, (chunk1_cursor x5c).
      change (bytes_eqb [x5c] QUERY_ESCAPE) with true; cbv beta iota.
      rewrite next_byte1_cursor.
      destruct n; cbn [string_loop]; now rewrite end_of_data_cursor.
  - cbn [escape] in Hn |- *.
    destruct (Byte.eqb b x22 || Byte.eqb b x5c) eqn:E.
    + destruct n as [|[|n]]; try (simpl in Hn; lia).
      cbn [app string_loop].
      rewrite end_of_data_cursor, (chunk1_cursor x5c).
      change (bytes_eqb [x5c] QUERY_ESCAPE) with true; cbv beta iota.
      rewrite next_byte1_cursor; cbn [string_loop].
      rewrite end_of_data_cursor.
      unfold pbind at 1; rewrite read_bytes1_cursor.
      rewrite IH by (assumption || (simpl in Hn; lia)).
      now rewrite <- !app_assoc.
    + destruct n as [|n]; [simpl in Hn; lia|].
      apply orb_false_iff in E as [Eq Eb].
      cbn [app string_loop].
      rewrite end_of_data_cursor, chunk1_cursor.
      replace (bytes_eqb [b] QUERY_ESCAPE) with false
        by (simpl; now rewrite Eb).
      replace (bytes_eqb [b] QUERY_END_STRING) with false
        by (simpl; now rewrite Eq).
      unfold pbind at 1; rewrite read_bytes1_cursor.
      rewrite IH by (assumption || (simpl in Hn; lia)).
      now rewrite <- !app_assoc.
Qed.

(** X21.  A string literal that is not closed raises at the end of the
    data: after the opening double quote and the escaped text of any
    string, [_parse_string] raises [ParseError] with the message
    Unterminated string when the data ends there, and with the message
    Incomplete escape sequence when a lone backslash ends the data; the
    position is the length of the data in both cases. *)
Theorem unterminated_string (s pre : bytes) :
  _parse_string (cursor pre (QUERY_START_STRING ++ escape s))
  = Raise (ParseError (length (pre ++ QUERY_START_STRING ++ escape s))
             (Text "Unterminated string"))
  /\ _parse_string
       (cursor pre (QUERY_START_STRING ++ escape s ++ QUERY_ESCAPE))
     = Raise (ParseError
                (length (pre ++ QUERY_START_STRING ++ escape s
                           ++ QUERY_ESCAPE))
                (Text "Incomplete escape sequence")).
Proof.
  unfold _parse_string; split.
  - pose proof (string_loop_open s EMPTY (length (escape s))
                  (pre ++ QUERY_START_STRING) [] (or_introl eq_refl)) as H.
    rewrite !app_nil_r in H.
    rewrite <- (app_nil_r (escape s)) at 1.
    rewrite step_read_must, remaining_cursor, !app_nil_r.
    rewrite H by lia; now rewrite <- app_assoc.
  - rewrite step_read_must, remaining_cursor.
    rewrite (string_loop_open s EMPTY _ (pre ++ QUERY_START_STRING)
               QUERY_ESCAPE (or_intror eq_refl)) by lia.
    now rewrite <- !app_assoc.
Qed.

Section NumberAndCommand.

Variable float_of_bytes : bytes -> option spec_float.

(** X22.  A number with a decimal dot is handed to [float()] as the
    text that was read: an optional minus sign, digits (one at least
    when there is no sign), a dot, and digits, up to the first byte that
    is no digit.  [_parse_number] returns the float that [float()]
    gives for this text, and raises its [ValueError] otherwise. *)
Theorem parse_number_decimal (negative : bool) (whole fraction : bytes)
  (pre suf : bytes) :
  Forall (fun b => is_digit b = true) whole ->
  Forall (fun b => is_digit b = true) fraction ->
  (negative = false -> whole <> []) ->
  match suf with [] => True | b :: _ => is_digit b = false end ->
  let text := (if negative then MINUS else EMPTY)
                ++ whole ++ DECIMAL_DOT ++ fraction in
  _parse_number float_of_bytes (cursor pre (text ++ suf))
  = match float_of_bytes text with
    | Some f => Ok (PyFloat f, cursor (pre ++ text) suf)
    | None => Raise (ValueError "could not convert string to float")
    end.
Proof.
  intros Hw Hf Hne Hsuf text; subst text; unfold _parse_number.
  assert (Hdot : forall p, chunk 1 (cursor p (DECIMAL_DOT ++ fraction ++ suf))
                           = DECIMAL_DOT)
    by (intros p; exact (chunk1_cursor x2e p (fraction ++ suf))).
  assert (Hnext : forall p,
             next_byte 1 (cursor p (DECIMAL_DOT ++ fraction ++ suf))
             = cursor (p ++ DECIMAL_DOT) (fraction ++ suf))
    by (intros p; exact (next_byte1_cursor x2e p (fraction ++ suf))).
  destruct negative.
  - rewrite <- !app_assoc.
    rewrite (chunk1_cursor x2d pre _
             : chunk 1 (cursor pre (MINUS ++ _)) = MINUS).
    rewrite bytes_eqb_refl.
    rewrite (next_byte1_cursor x2d pre _
             : next_byte 1 (cursor pre (MINUS ++ _)) = _).
    unfold pbind at 1; rewrite remaining_cursor.
    rewrite (digits_loop_reads whole Hw MINUS _ (pre ++ [x2d])
               (DECIMAL_DOT ++ fraction ++ suf) eq_refl) by lia.
    change (bytes_eqb (MINUS ++ whole) EMPTY) with false; cbv beta iota.
    rewrite Hdot, bytes_eqb_refl; cbn [negb]; cbv zeta.
    rewrite Hnext.
    unfold pbind at 1; rewrite remaining_cursor.
    rewrite (digits_loop_reads fraction Hf _ _ _ suf Hsuf) by lia.
    unfold pbind, lift, float, ret; rewrite <- !app_assoc.
    change (pre ++ [x2d] ++ whole ++ DECIMAL_DOT ++ fraction)
      with (pre ++ MINUS ++ whole ++ DECIMAL_DOT ++ fraction).
    now destruct (float_of_bytes (MINUS ++ whole ++ DECIMAL_DOT ++ fraction)).
  - destruct whole as [|d ds]; [now contradiction Hne|].
    change (EMPTY ++ (d :: ds) ++ DECIMAL_DOT ++ fraction)
      with ((d :: ds) ++ DECIMAL_DOT ++ fraction).
    rewrite <- !app_assoc.
    rewrite (chunk1_cursor d pre _
             : chunk 1 (cursor pre ((d :: ds) ++ _)) = [d]).
    rewrite digit_not_minus by now inversion Hw.
    unfold pbind at 1; rewrite remaining_cursor.
    rewrite (digits_loop_reads (d :: ds) Hw EMPTY _ pre
               (DECIMAL_DOT ++ fraction ++ suf) eq_refl) by lia.
    cbn [app bytes_eqb EMPTY]; cbv beta iota.
    rewrite (Hdot (pre ++ d :: ds)), bytes_eqb_refl; cbn [negb]; cbv zeta.
    rewrite (Hnext (pre ++ d :: ds)).
    unfold pbind at 1; rewrite remaining_cursor.
    rewrite (digits_loop_reads fraction Hf _ _ _ suf Hsuf) by lia.
    unfold pbind, lift, float, ret; cbn [app]; rewrite <- !app_assoc.
    now destruct (float_of_bytes (d :: ds ++ DECIMAL_DOT ++ fraction)).
Qed.

(** X23.  The head of an expression: [run] on an expression whose first
    byte is none of [G], [S] and [D] (or that is empty) raises
    [ParseError] at position 0, naming that byte as an unknown command;
    and when a byte other than [:] follows the command, it raises
    [ParseError] at position 1.  Neither [_get], [_set] nor [_delete] is
    reached. *)
Theorem command_errors (structure : value) (expression : bytes) :
  (~ In (firstn 1 expression) [QUERY_GET; QUERY_SET; QUERY_DELETE] ->
   run float_of_bytes structure expression
   = Raise (ParseError 0 (UnknownCommand (firstn 1 expression))))
  /\ (forall c b rest,
        In [c] [QUERY_GET; QUERY_SET; QUERY_DELETE] ->
        expression = c :: b :: rest ->
        [b] <> QUERY_COMMAND_SEPARATOR ->
        run float_of_bytes structure expression
        = Raise (ParseError 1
                   (ExpectedBut QUERY_COMMAND_SEPARATOR [b]))).
Proof.
  split.
  - intros Hc; unfold run, _parse_command; cbv zeta.
    rewrite reset_cursor, (chunk_cursor 1).
    replace (bytes_eqb (firstn 1 expression) QUERY_GET) with false
      by (symmetry; apply bytes_eqb_neq; intros E; apply Hc; rewrite E;
          now left).
    replace (bytes_eqb (firstn 1 expression) QUERY_SET) with false
      by (symmetry; apply bytes_eqb_neq; intros E; apply Hc; rewrite E;
          right; now left).
    replace (bytes_eqb (firstn 1 expression) QUERY_DELETE) with false
      by (symmetry; apply bytes_eqb_neq; intros E; apply Hc; rewrite E;
          right; right; now left).
    reflexivity.
  - intros c b rest Hc -> Hb; unfold run, _parse_command; cbv zeta.
    rewrite reset_cursor, chunk1_cursor.
    assert (negb (bytes_eqb [c] QUERY_GET || bytes_eqb [c] QUERY_SET
                  || bytes_eqb [c] QUERY_DELETE) = false) as ->
      by (destruct Hc as [<-|[<-|[<-|[]]]]; reflexivity).
    rewrite (step_read_must [c] [] _ _ _
             : pbind (read_must [c]) _ (cursor [] (c :: _)) = _).
    assert (Hne : b <> x3a) by (intros ->; now apply Hb).
    unfold pbind at 1.
    rewrite (read_must_mismatch b x3a ([] ++ [c]) rest Hne
             : read_must QUERY_COMMAND_SEPARATOR _ = _).
    reflexivity.
Qed.

End NumberAndCommand.

Lemma parse_number_decimal_witness :
  _parse_number sample_float_of_bytes (cursor (B "S:=") (B "12.3,"))
  = Ok (PyFloat float_12_3, cursor (B "S:=12.3") (B ",")).
Proof.
  apply (parse_number_decimal sample_float_of_bytes false
           (B "12") (B "3") (B "S:=") (B ","));
    try reflexivity; try discriminate;
    repeat (constructor; try reflexivity).
Defined.

Lemma command_errors_witness :
  run sample_float_of_bytes array1 (B "X:0")
  = Raise (ParseError 0 (UnknownCommand (B "X")))
  /\ run sample_float_of_bytes array1 (B "G=0")
     = Raise (ParseError 1 (ExpectedBut (B ":") (B "="))).
Proof.
  destruct (command_errors sample_float_of_bytes array1 (B "X:0"))
    as [Hunknown _].
  destruct (command_errors sample_float_of_bytes array1 (B "G=0"))
    as [_ Hheader].
  split.
  - apply Hunknown; intros [H|[H|[H|[]]]]; discriminate H.
  - apply (Hheader x47 x3d (B "0")); [now left | reflexivity | discriminate].
Defined.
